(** * nvidia-docker volumes: a shallow embedding of [tools/src/nvidia/volumes.go]

    The development follows the Go source function by function.  Go strings
    are byte strings and are modelled by [string]; every operating-system or
    library call the source makes ([os.MkdirAll], [os.Link], [os.Symlink],
    [os.RemoveAll], [os.Stat], [elf.Open], ...) is modelled by a function on
    an explicit [world] (a file-system tree, the list of symlink calls
    issued so far, and the entries that are in use).  Go's two failure modes
    are kept apart: a returned [error] is [Err], a run-time panic is
    [Panic]. *)

From Stdlib Require Import ZArith Ascii String List Lia Bool Permutation.
From stdpp Require Import base option list gmap strings.

Local Open Scope string_scope.
Local Open Scope list_scope.

(** ** Go's [strings] package (the functions the source uses) *)

Module Strings.

(** [strings.HasPrefix(s, prefix)] *)
Definition HasPrefix (s pre : string) : bool := String.prefix pre s.

(** Byte [n] onwards: the Go slice expression [s[n:]] for [n <= len(s)]. *)
Fixpoint drop_bytes (n : nat) (s : string) : string :=
  match n, s with
  | O, _ => s
  | S n', String _ s' => drop_bytes n' s'
  | S _, EmptyString => EmptyString
  end.

(** [strings.Replace(s, old, new, 1)]: only the first (leftmost)
    occurrence of [old] is replaced. *)
Fixpoint Replace1 (old new s : string) : string :=
  if String.prefix old s then new +:+ drop_bytes (String.length old) s
  else match s with
       | EmptyString => EmptyString
       | String c s' => String c (Replace1 old new s')
       end.

(** [strings.Contains]: what an unanchored literal regexp decides. *)
Fixpoint Contains (s sub : string) : bool :=
  String.prefix sub s ||
  match s with
  | EmptyString => false
  | String _ s' => Contains s' sub
  end.

(** The ASCII white space of [unicode.IsSpace]: tab, newline, vertical
    tab, form feed, carriage return, space.  (The two-byte UTF-8 spaces
    U+0085 and U+00A0 are not modelled.) *)
Definition is_space (c : ascii) : bool :=
  let n := nat_of_ascii c in
  (((9 <=? n) && (n <=? 13)) || (n =? 32))%nat.

Fixpoint trim_left (s : string) : string :=
  match s with
  | String c s' => if is_space c then trim_left s' else s
  | EmptyString => EmptyString
  end.

Fixpoint trim_right (s : string) : string :=
  match s with
  | EmptyString => EmptyString
  | String c s' =>
      match trim_right s' with
      | EmptyString => if is_space c then EmptyString else String c EmptyString
      | t => String c t
      end
  end.

(** [strings.TrimSpace] *)
Definition TrimSpace (s : string) : string := trim_right (trim_left s).

(** [strings.Split(s, sep)] for a one-byte separator: always at least one
    field, empty fields kept. *)
Fixpoint fields (sep : ascii) (s : string) : list string :=
  match s with
  | EmptyString => [EmptyString]
  | String c s' =>
      if Ascii.eqb c sep then EmptyString :: fields sep s'
      else match fields sep s' with
           | [] => [String c EmptyString]
           | w :: ws => String c w :: ws
           end
  end.

(** [strings.Join(elems, sep)] *)
Fixpoint Join (elems : list string) (sep : string) : string :=
  match elems with
  | [] => EmptyString
  | [e] => e
  | e :: rest => e +:+ sep +:+ Join rest sep
  end.

Fixpoint forallb_str (p : ascii -> bool) (s : string) : bool :=
  match s with
  | EmptyString => true
  | String c s' => p c && forallb_str p s'
  end.

End Strings.

(** ** Go's [path] package *)

Module Path.
Import Strings.

Definition slash : ascii := "/"%char.

(** [path.IsAbs] *)
Definition IsAbs (p : string) : bool :=
  match p with
  | String c _ => Ascii.eqb c slash
  | EmptyString => false
  end.

(** One element of the lexical walk of [path.Clean].  The stack holds the
    elements kept so far, the last one first. *)
Definition clean_step (rooted : bool) (stack : list string) (c : string)
  : list string :=
  if String.eqb c EmptyString || String.eqb c "." then stack
  else if String.eqb c ".." then
    match stack with
    | top :: rest => if String.eqb top ".." then c :: stack else rest
    | [] => if rooted then [] else [c]
    end
  else c :: stack.

(** The elements of the cleaned path, in order. *)
Definition clean_comps (rooted : bool) (p : string) : list string :=
  rev (fold_left (clean_step rooted) (fields slash p) []).

Definition render (rooted : bool) (comps : list string) : string :=
  match comps with
  | [] => if rooted then "/" else "."
  | _ => (if rooted then "/" else EmptyString) +:+ Strings.Join comps "/"
  end.

(** [path.Clean]: multiple slashes collapsed, [.] elements dropped, inner
    [..] elements cancelled against the element before them, [..] at the
    start of a rooted path dropped; the empty path cleans to ["."]. *)
Definition Clean (p : string) : string :=
  render (IsAbs p) (clean_comps (IsAbs p) p).

Fixpoint drop_empty (elems : list string) : list string :=
  match elems with
  | e :: rest => if String.eqb e EmptyString then drop_empty rest else elems
  | [] => []
  end.

(** [path.Join]: leading empty elements are ignored, the rest is joined
    with slashes and cleaned; all elements empty gives the empty string. *)
Definition Join (elems : list string) : string :=
  match drop_empty elems with
  | [] => EmptyString
  | es => Clean (Strings.Join es "/")
  end.

(** [path.Base]: the last element; ["."] for the empty path, ["/"] for a
    path made of slashes only. *)
Definition Base (p : string) : string :=
  match p with
  | EmptyString => "."
  | _ => match rev (List.filter (fun c => negb (String.eqb c EmptyString))
                        (fields slash p)) with
         | last :: _ => last
         | [] => "/"
         end
  end.

End Path.

(** ** Errors and results *)

(** The error numbers the model distinguishes. *)
Inductive errno :=
  ENOENT | ENOTDIR | EEXIST | EISDIR | EPERM | ELOOP | EINVAL | EBUSY.

(** A Go [error] value (non-nil).  [PathError]/[LinkError] wrap an error
    number under the name of the failed operation; [FormatError] is what
    [debug/elf] reports; [OtherError] is any other library error. *)
Inductive error :=
| PathError (op : string) (path : string) (e : errno)
| LinkError (op : string) (old new : string) (e : errno)
| FormatError (msg : string)
| OtherError (msg : string).

(** What a library call returns: a value, or an error. *)
Inductive result (A : Type) :=
| Success (a : A)
| Failure (e : error).
Arguments Success {A} a.
Arguments Failure {A} e.

(** What a Go function of this package does: return normally ([Ok]), return
    a non-nil error ([Err]), or panic ([Panic]: nil dereference, slice
    bounds). *)
Inductive outcome (A : Type) :=
| Ok (a : A)
| Err (e : error)
| Panic.
Arguments Ok {A} a.
Arguments Err {A} e.
Arguments Panic {A}.

(** [os.IsNotExist] looks at the error number of an error. *)
Definition errno_of (e : error) : option errno :=
  match e with
  | PathError _ _ n => Some n
  | LinkError _ _ _ n => Some n
  | _ => None
  end.

Definition IsNotExist (e : error) : bool :=
  match errno_of e with Some ENOENT => true | _ => false end.

(** ** [debug/elf]: what the source reads from an ELF object *)

Inductive DynTag := DT_NEEDED | DT_SONAME.

(** An open [*elf.File].  [dt_needed] and [dt_soname] are what
    [obj.DynString(tag)] returns for the two tags; [sections] lists the
    named sections with what [Data()] returns for each. *)
Record elf_File := {
  dt_needed : result (list string);
  dt_soname : result (list string);
  sections : list (string * result (list Byte.byte))
}.

Definition DynString (obj : elf_File) (tag : DynTag) : result (list string) :=
  match tag with
  | DT_NEEDED => dt_needed obj
  | DT_SONAME => dt_soname obj
  end.

(** [obj.Section(name)]: the first section of that name, or nil. *)
Definition Section (obj : elf_File) (name : string)
  : option (result (list Byte.byte)) :=
  snd <$> List.find (fun s => String.eqb (fst s) name) (sections obj).

(** ** [encoding/binary] *)

(** The Go slice expression [s[n:]]; out of range ([n > len(s)]) panics,
    which is [None] here. *)
Fixpoint slice_from {A} (n : nat) (s : list A) : option (list A) :=
  match n, s with
  | O, _ => Some s
  | S n', _ :: s' => slice_from n' s'
  | S _, [] => None
  end.

Definition byteZ (b : Byte.byte) : Z := Z.of_N (Byte.to_N b).

(** [binary.LittleEndian.Uint64(b)]; fewer than 8 bytes panics ([None]). *)
Definition LittleEndian_Uint64 (b : list Byte.byte) : option Z :=
  match b with
  | b0 :: b1 :: b2 :: b3 :: b4 :: b5 :: b6 :: b7 :: _ =>
      Some (Z.lor (byteZ b0)
           (Z.lor (Z.shiftl (byteZ b1) 8)
           (Z.lor (Z.shiftl (byteZ b2) 16)
           (Z.lor (Z.shiftl (byteZ b3) 24)
           (Z.lor (Z.shiftl (byteZ b4) 32)
           (Z.lor (Z.shiftl (byteZ b5) 40)
           (Z.lor (Z.shiftl (byteZ b6) 48)
                  (Z.shiftl (byteZ b7) 56))))))))
  | _ => None
  end.

(** ** The three regular expressions of [blacklisted] *)

Module Regexp.
Import Strings.

Definition is_digit (c : ascii) : bool :=
  let n := nat_of_ascii c in ((48 <=? n) && (n <=? 57))%nat.

(** [\w] is [[0-9A-Za-z_]]. *)
Definition is_word (c : ascii) : bool :=
  let n := nat_of_ascii c in
  (is_digit c || ((65 <=? n) && (n <=? 90)) || ((97 <=? n) && (n <=? 122))
   || (n =? 95))%nat.

(** [[\w-]] *)
Definition is_word_dash (c : ascii) : bool := is_word c || Ascii.eqb c "-"%char.

(** [[\d.]] *)
Definition is_digit_dot (c : ascii) : bool := is_digit c || Ascii.eqb c "."%char.

(** [.] without the [s] flag: any byte but newline. *)
Definition is_dot (c : ascii) : bool := negb (Ascii.eqb c "010"%char).

(** The text before and after the last slash. *)
Fixpoint split_last_slash (s : string) : option (string * string) :=
  match s with
  | EmptyString => None
  | String c s' =>
      match split_last_slash s' with
      | Some (d, b) => Some (String c d, b)
      | None => if Ascii.eqb c Path.slash then Some (EmptyString, s') else None
      end
  end.

Fixpoint strip_prefix (pre s : string) : option string :=
  match pre, s with
  | EmptyString, _ => Some s
  | String a pre', String b s' =>
      if Ascii.eqb a b then strip_prefix pre' s' else None
  | String _ _, EmptyString => None
  end.

(** The longest prefix of bytes satisfying [p], and the rest. *)
Fixpoint span (p : ascii -> bool) (s : string) : string * string :=
  match s with
  | String c s' =>
      if p c then let '(a, b) := span p s' in (String c a, b)
      else (EmptyString, s)
  | EmptyString => (EmptyString, EmptyString)
  end.

(** [lib.FindStringSubmatch(file)] for
    [lib = ^.*/lib([\w-]+)\.so[\d.]*$], giving the submatch [m[1]].
    Nothing after [/lib] can be a slash, so the slash of the pattern is the
    last slash of the text and [.*] is all the text before it (which must
    be free of newlines); [[\w-]+] cannot contain the dot that follows it,
    so the group is the run of [[\w-]] bytes after [lib]. *)
Definition lib_FindStringSubmatch (file : string) : option string :=
  match split_last_slash file with
  | None => None
  | Some (d, b) =>
      if forallb_str is_dot d then
        match strip_prefix "lib" b with
        | None => None
        | Some r =>
            let '(name, rest) := span is_word_dash r in
            if String.eqb name EmptyString then None
            else match strip_prefix ".so" rest with
                 | None => None
                 | Some ver => if forallb_str is_digit_dot ver then Some name else None
                 end
        end
      else None
  end.

(** [glcore.MatchString(d)] for [glcore = libnvidia-e?glcore\.so]. *)
Definition glcore_MatchString (d : string) : bool :=
  Contains d "libnvidia-glcore.so" || Contains d "libnvidia-eglcore.so".

(** [gldispatch.MatchString(d)] for [gldispatch = libGLdispatch\.so]. *)
Definition gldispatch_MatchString (d : string) : bool :=
  Contains d "libGLdispatch.so".

End Regexp.

(** ** [blacklisted] *)

(** [const abi = 0x6300000003] *)
Definition abi : Z := 0x6300000003.

(** [blacklisted(file, obj)].  The Go function returns [(bool, error)];
    [Err e] stands for the pair [(false, e)].  [obj.Section] returns nil
    for a missing section and [Data] is then called on nil: a panic. *)
Definition blacklisted (file : string) (obj : elf_File) : outcome bool :=
  match Regexp.lib_FindStringSubmatch file with
  | Some m1 =>
      if String.eqb m1 "GLESv1_CM" || String.eqb m1 "GLESv2" || String.eqb m1 "GL"
      then
        match DynString obj DT_NEEDED with
        | Failure e => Err e
        | Success deps =>
            Ok (negb (existsb (fun d => Regexp.glcore_MatchString d
                                        || Regexp.gldispatch_MatchString d) deps))
        end
      else if String.eqb m1 "nvidia-tls" then
        match Section obj ".note.ABI-tag" with
        | None => Panic
        | Some (Failure e) => Err e
        | Some (Success s) =>
            match slice_from 24 s with
            | None => Panic
            | Some t =>
                match LittleEndian_Uint64 t with
                | None => Panic
                | Some w => Ok (negb (Z.eqb w abi))
                end
            end
        end
      else Ok false
  | None => Ok false
  end.

(** ** The file system

    A tree of directories, regular files and symbolic links, addressed by
    the lexically cleaned path: [(rooted, elements)].  Relative paths live
    under the current directory [(false, [])]; the two roots always exist as
    directories and are not stored.  Path resolution is lexical and a
    symbolic link is followed only as the last element of a path: the
    model covers the paths whose proper ancestors are directories
    themselves.  (Through an ancestor that is a symbolic link to a directory
    the kernel goes on; the calls below refuse such a path like one through
    a regular file, so what is proved of a call that succeeds is proved of
    paths without such an ancestor.)  Permissions, devices and quotas are
    not modelled; the one failure kept of them is that an entry in use
    cannot be removed. *)

Abbreviation key := (bool * list string)%type.

(** A regular file as one of its names shows it: the number of its inode,
    and what the inode holds, the ELF view (if it is an ELF object) and the
    mode.  Names with the same inode number are hard links of one file. *)
Record file_data := {
  file_ino : nat;
  file_elf : option elf_File;
  file_mode : N
}.

Inductive node :=
| Dir
| File (data : file_data)
| Symlink (target : string).

(** The world the package acts on: the file system; the calls to
    [os.Symlink] issued so far, oldest first, each with whether it created
    the link; and the entries in use (mount points and the like), which the
    kernel refuses to unlink or remove ([EBUSY]) and which no call of the
    package changes. *)
Record world := {
  fs : gmap key node;
  symlink_calls : list (string * string * bool);
  busy : list key
}.

Definition with_fs (w : world) (m : gmap key node) : world :=
  {| fs := m; symlink_calls := symlink_calls w; busy := busy w |}.

Module OS.

Definition key_of (p : string) : key :=
  (Path.IsAbs p, Path.clean_comps (Path.IsAbs p) p).

(** The entry at a key; the roots are directories. *)
Definition entry (m : gmap key node) (k : key) : option node :=
  match k.2 with
  | [] => Some Dir
  | _ => m !! k
  end.

(** Walks the proper ancestors [pre ++ [c1]], [pre ++ [c1; c2]], ... of
    [pre ++ rest], shortest first: [None] when all are directories, else
    why the walk stops. *)
Fixpoint first_bad (m : gmap key node) (r : bool) (pre rest : list string)
  : option errno :=
  match rest with
  | [] => None
  | [_] => None
  | c :: rest' =>
      match m !! (r, pre ++ [c]) with
      | Some Dir => first_bad m r (pre ++ [c]) rest'
      | Some _ => Some ENOTDIR
      | None => Some ENOENT
      end
  end.

(** Where a symbolic link stored at [k] points. *)
Definition link_dest (k : key) (target : string) : key :=
  if Path.IsAbs target then key_of target
  else (k.1, Path.clean_comps k.1
               (Strings.Join (removelast k.2 ++ [target]) "/")).

(** Resolves a key, following symbolic links at the last element (at most
    [fuel] of them): the key finally reached and the entry there, which is
    never a symbolic link. *)
Fixpoint resolve (fuel : nat) (m : gmap key node) (k : key)
  : errno + key * option node :=
  match first_bad m k.1 [] k.2 with
  | Some e => inl e
  | None =>
      match entry m k with
      | Some (Symlink t) =>
          match fuel with
          | O => inl ELOOP
          | S fuel' =>
              if String.eqb t EmptyString then inl ENOENT
              else resolve fuel' m (link_dest k t)
          end
      | o => inr (k, o)
      end
  end.

Definition max_links : nat := 40.

(** [os.Stat]: the node at the path, symbolic links followed. *)
Definition Stat (p : string) (w : world) : result node :=
  if String.eqb p EmptyString then Failure (PathError "stat" p ENOENT)
  else match resolve max_links (fs w) (key_of p) with
       | inl e => Failure (PathError "stat" p e)
       | inr (_, None) => Failure (PathError "stat" p ENOENT)
       | inr (_, Some n) => Success n
       end.

(** The loop of [os.MkdirAll]: every missing ancestor and the path itself
    are created, shortest first; directories made before a failure stay. *)
Fixpoint mkdir_all (m : gmap key node) (r : bool) (pre rest : list string)
  : gmap key node * option errno :=
  match rest with
  | [] => (m, None)
  | c :: rest' =>
      match m !! (r, pre ++ [c]) with
      | Some Dir => mkdir_all m r (pre ++ [c]) rest'
      | Some _ => (m, Some ENOTDIR)
      | None => mkdir_all (<[(r, pre ++ [c]) := Dir]> m) r (pre ++ [c]) rest'
      end
  end.

(** [os.MkdirAll(path, perm)] *)
Definition MkdirAll (p : string) (w : world) : world * option error :=
  if String.eqb p EmptyString then (w, Some (PathError "mkdir" p ENOENT))
  else
    let k := key_of p in
    match mkdir_all (fs w) k.1 [] k.2 with
    | (m, None) => (with_fs w m, None)
    | (m, Some e) => (with_fs w m, Some (PathError "mkdir" p e))
    end.

(** [k] is [root] or lies below it. *)
Definition under (root k : key) : bool :=
  bool_decide (root.1 = k.1) && bool_decide (root.2 `prefix_of` k.2).

(** An entry that cannot be removed: it is in use, or it is a directory
    with an entry in use somewhere below it. *)
Definition stuck (w : world) (k : key) : bool :=
  existsb (fun b => under k b && match fs w !! b with
                                 | Some _ => true
                                 | None => false
                                 end) (busy w).

(** [os.RemoveAll(path)]: it removes everything it can, that is the entry
    and what is below it except the entries that are stuck, and reports an
    error if the entry itself stays.  A missing path is no error, the empty
    path is silently accepted, a root cannot be removed (its content is,
    the call reports an error), and a path through a non-directory is
    reported.  (Go's error names the entry that could not be removed; here
    it names the path given.) *)
Definition RemoveAll (p : string) (w : world) : world * option error :=
  if String.eqb p EmptyString then (w, None)
  else
    let k := key_of p in
    let m := filter (fun kv => under k kv.1 && negb (stuck w kv.1) = false) (fs w) in
    match k.2 with
    | [] => (with_fs w m, Some (PathError "RemoveAll" p EINVAL))
    | _ =>
        match first_bad (fs w) k.1 [] k.2 with
        | Some ENOTDIR => (with_fs w m, Some (PathError "RemoveAll" p ENOTDIR))
        | _ => if stuck w k
               then (with_fs w m, Some (PathError "unlinkat" p EBUSY))
               else (with_fs w m, None)
        end
    end.

(** Creating a new entry at [p]: the key when the parent is a directory
    and nothing is there yet. *)
Definition fresh_key (m : gmap key node) (p : string) : errno + key :=
  if String.eqb p EmptyString then inl ENOENT
  else
    let k := key_of p in
    match first_bad m k.1 [] k.2 with
    | Some e => inl e
    | None => match entry m k with
              | Some _ => inl EEXIST
              | None => inr k
              end
    end.

(** [os.Link(oldname, newname)]: a second name for the node at [oldname]
    (not followed if it is a symbolic link; a directory is refused).  For a
    regular file the new name shows the same inode. *)
Definition Link (oldname newname : string) (w : world) : world * option error :=
  let fail e := (w, Some (LinkError "link" oldname newname e)) in
  if String.eqb oldname EmptyString then fail ENOENT
  else
    let k := key_of oldname in
    match first_bad (fs w) k.1 [] k.2 with
    | Some e => fail e
    | None =>
        match entry (fs w) k with
        | None => fail ENOENT
        | Some Dir => fail EPERM
        | Some n =>
            match fresh_key (fs w) newname with
            | inl e => fail e
            | inr k' => (with_fs w (<[k' := n]> (fs w)), None)
            end
        end
    end.

(** [os.Symlink(oldname, newname)]: [oldname] is stored as it is given. *)
Definition Symlink (oldname newname : string) (w : world) : world * option error :=
  let log b m := {| fs := m;
                    symlink_calls := symlink_calls w ++ [(oldname, newname, b)];
                    busy := busy w |} in
  let fail e := (log false (fs w), Some (LinkError "symlink" oldname newname e)) in
  if String.eqb oldname EmptyString then fail ENOENT
  else match fresh_key (fs w) newname with
       | inl e => fail e
       | inr k => (log true (<[k := Symlink oldname]> (fs w)), None)
       end.

(** [elf.Open(name)]: [os.Open] then [elf.NewFile]. *)
Definition elf_Open (name : string) (w : world) : result elf_File :=
  match Stat name w with
  | Failure (PathError _ p e) => Failure (PathError "open" p e)
  | Failure e => Failure e
  | Success (File d) =>
      match file_elf d with
      | Some obj => Success obj
      | None => Failure (FormatError "bad magic number")
      end
  | Success _ => Failure (PathError "read" name EISDIR)
  end.

End OS.

(** ** Clone strategies *)

(** [type FileCloneStrategy interface { Clone(src, dst string) error }] *)
Class FileCloneStrategy (S : Type) := {
  Clone : S -> string -> string -> world -> world * option error
}.

Inductive LinkStrategy := mkLinkStrategy.
Inductive LinkOrCopyStrategy := mkLinkOrCopyStrategy.

Module CopyImpl.
Import OS.

(** [os.Open(src)]: the key reached and the node there. *)
Definition open_read (p : string) (w : world) : result (key * node) :=
  if String.eqb p EmptyString then Failure (PathError "open" p ENOENT)
  else match resolve max_links (fs w) (key_of p) with
       | inl e => Failure (PathError "open" p e)
       | inr (_, None) => Failure (PathError "open" p ENOENT)
       | inr (k, Some n) => Success (k, n)
       end.

(** A write to the inode [i]: every name of it shows the new content. *)
Definition write_inode (i : nat) (f : file_data -> file_data)
  (m : gmap key node) : gmap key node :=
  (fun n => match n with
            | File d => if Nat.eqb (file_ino d) i then File (f d) else n
            | _ => n
            end) <$> m.

(** An inode number no file of [m] has. *)
Definition fresh_ino (m : gmap key node) : nat :=
  S (list_max (omap (fun kn : key * node =>
                       match kn.2 with
                       | File d => Some (file_ino d)
                       | _ => None
                       end) (map_to_list m))).

(** A new regular file: no content, mode 0666. *)
Definition empty_file (i : nat) : file_data :=
  {| file_ino := i; file_elf := None; file_mode := 438 |}.

Definition truncate (d : file_data) : file_data :=
  {| file_ino := file_ino d; file_elf := None; file_mode := file_mode d |}.

(** [os.Create(dst)]: the file is created, or truncated if it exists (its
    inode is, whatever the name it is reached by).  The descriptor returned
    is the key reached and the inode there. *)
Definition create (p : string) (w : world) : world * result (key * nat) :=
  if String.eqb p EmptyString then (w, Failure (PathError "open" p ENOENT))
  else match resolve max_links (fs w) (key_of p) with
       | inl e => (w, Failure (PathError "open" p e))
       | inr (_, Some Dir) => (w, Failure (PathError "open" p EISDIR))
       | inr (k, Some (File d)) =>
           (with_fs w (write_inode (file_ino d) truncate (fs w)),
            Success (k, file_ino d))
       | inr (k, _) =>
           let i := fresh_ino (fs w) in
           (with_fs w (<[k := File (empty_file i)]> (fs w)), Success (k, i))
       end.

End CopyImpl.

(** [Copy(src, dst)]: open, stat, create, [io.Copy], chmod, close. *)
Definition Copy (src dst : string) (w : world) : world * option error :=
  match CopyImpl.open_read src w with
  | Failure e => (w, Some e)
  | Success (ks, n) =>
      match CopyImpl.create dst w with
      | (w1, Failure e) => (w1, Some e)
      | (w1, Success (kd, i)) =>
          match n with
          | File d =>
              (* the bytes read are those the source holds now: none if the
                 file just truncated is the source itself, under this name
                 or another *)
              let content := if Nat.eqb (file_ino d) i then None else file_elf d in
              (with_fs w1
                 (CopyImpl.write_inode i
                    (fun _ => {| file_ino := i; file_elf := content;
                                 file_mode := file_mode d |})
                    (fs w1)), None)
          | _ => (w1, Some (PathError "read" src EISDIR))
          end
      end
  end.

#[export] Instance LinkStrategy_Clone : FileCloneStrategy LinkStrategy := {
  Clone _ src dst := OS.Link src dst
}.

#[export] Instance LinkOrCopyStrategy_Clone : FileCloneStrategy LinkOrCopyStrategy := {
  Clone _ src dst w :=
    match OS.Link src dst w with
    | (w1, Some _) => Copy src dst w1
    | r => r
    end
}.

(** ** Volumes *)

(** [type components map[string][]string]: the entries of the map literal
    (the keys of a literal are distinct). *)
Definition components : Type := list (string * list string).

Record volumeDir := {
  vd_name : string;
  vd_files : list string
}.

Record VolumeInfo := {
  Name : string;
  Mountpoint : string;
  Components : components
}.

(** [type Volume struct { *VolumeInfo; Path, Version string; dirs []volumeDir }] *)
Record Volume := {
  info : VolumeInfo;
  VPath : string;
  Version : string;
  dirs : list volumeDir
}.

Definition binDir : string := "bin".
Definition lib32Dir : string := "lib".
Definition lib64Dir : string := "lib64".

(** A [for ... range] loop whose body may return from the function. *)
Fixpoint for_each {A} (body : A -> world -> world * outcome unit)
  (l : list A) (w : world) : world * outcome unit :=
  match l with
  | [] => (w, Ok tt)
  | x :: l' =>
      match body x w with
      | (w1, Ok _) => for_each body l' w1
      | r => r
      end
  end.

(** [err.( *os.LinkError).Err]: the assertion panics on any other error. *)
Definition LinkError_Err (e : error) : option errno :=
  match e with
  | LinkError _ _ _ n => Some n
  | _ => None
  end.

(** [if err := os.Symlink(f, l); err != nil && !os.IsExist(err.( *os.LinkError).Err)
    { return err }] *)
Definition symlink_unless_exists (f l : string) (w : world) : world * outcome unit :=
  match OS.Symlink f l w with
  | (w1, None) => (w1, Ok tt)
  | (w1, Some e) =>
      match LinkError_Err e with
      | None => (w1, Panic)
      | Some EEXIST => (w1, Ok tt)
      | Some _ => (w1, Err e)
      end
  end.

Section Create.
Context {S : Type} `{FileCloneStrategy S}.

(** The body of the inner loop of [Create], for the file [f] of the
    directory descriptor [d] whose directory is [dir].  ([defer obj.Close()]
    releases the descriptor when [Create] returns and changes nothing that
    is modelled.) *)
Definition create_file (v : Volume) (s : S) (d : volumeDir) (dir : string)
  (f : string) (w : world) : world * outcome unit :=
  match OS.elf_Open f w with
  | Failure e => (w, Err e)
  | Success obj =>
      match blacklisted f obj with
      | Err e => (w, Err e)
      | Panic => (w, Panic)
      | Ok true => (w, Ok tt)
      | Ok false =>
          let l := Path.Join [dir; Path.Base f] in
          match Clone s f l w with
          | (w1, Some e) => (w1, Err e)
          | (w1, None) =>
              match DynString obj DT_SONAME with
              | Failure e => (w1, Err e)
              | Success [] => (w1, Ok tt)
              | Success (soname0 :: _) =>
                  let f' := Path.Join [Mountpoint (info v); vd_name d; Path.Base f] in
                  let l := Path.Join [dir; soname0] in
                  match symlink_unless_exists f' l w1 with
                  | (w2, Ok _) =>
                      if Strings.HasPrefix soname0 "libGLX_nvidia" then
                        let l := Strings.Replace1 "GLX_nvidia" "GLX_indirect" l in
                        symlink_unless_exists f' l w2
                      else (w2, Ok tt)
                  | r => r
                  end
              end
          end
      end
  end.

(** The body of the outer loop of [Create]. *)
Definition create_dir (v : Volume) (s : S) (d : volumeDir) (w : world)
  : world * outcome unit :=
  let dir := Path.Join [VPath v; Version v; vd_name d] in
  match OS.MkdirAll dir w with
  | (w1, Some e) => (w1, Err e)
  | (w1, None) => for_each (create_file v s d dir) (vd_files d) w1
  end.

(** [func (v *Volume) Remove(version ...string) error] *)
Definition Remove (v : Volume) (version : list string) (w : world)
  : world * option error :=
  let vv := match version with
            | [x] => x
            | _ => Version v
            end in
  OS.RemoveAll (Path.Join [VPath v; vv]) w.

(** [func (v *Volume) Create(s FileCloneStrategy) (err error)].  A failure
    of the first [MkdirAll] returns before the rollback is deferred.  The
    deferred function removes the tree when the named result [err] is not
    nil and drops what [Remove] returns; on a panic [err] is still nil, so
    nothing is removed. *)
Definition Create (v : Volume) (s : S) (w : world) : world * outcome unit :=
  match OS.MkdirAll (VPath v) w with
  | (w1, Some e) => (w1, Err e)
  | (w1, None) =>
      match for_each (create_dir v s) (dirs v) w1 with
      | (w2, Err e) => ((Remove v [] w2).1, Err e)
      | r => r
      end
  end.

(** [func (v *Volume) CreateAt(path string, s FileCloneStrategy) error]:
    the volume as reset, and what [Create] does on it. *)
Definition CreateAt (v : Volume) (path : string) (s : S) (w : world)
  : Volume * (world * outcome unit) :=
  let v' := {| info := info v; VPath := path; Version := EmptyString;
               dirs := dirs v |} in
  (v', Create v' s w).

End Create.

(** [func (v *Volume) Exists() (bool, error)] *)
Definition Exists (v : Volume) (w : world) : bool * option error :=
  match OS.Stat (Path.Join [VPath v; Version v]) w with
  | Failure e => if IsNotExist e then (false, None) else (true, Some e)
  | Success _ => (true, None)
  end.

(** ** The catalog *)

(** [var Volumes = []VolumeInfo{...}] *)
Definition Volumes : list VolumeInfo :=
  [ {| Name := "nvidia_driver";
       Mountpoint := "/usr/local/nvidia";
       Components :=
         [ ("binaries",
            [ "nvidia-cuda-mps-control"; "nvidia-cuda-mps-server";
              "nvidia-debugdump"; "nvidia-persistenced"; "nvidia-smi" ]);
           ("libraries",
            [ "libnvidia-ml.so"; "libcuda.so"; "libnvidia-ptxjitcompiler.so";
              "libnvidia-fatbinaryloader.so"; "libnvidia-opencl.so";
              "libnvidia-compiler.so";
              "libvdpau_nvidia.so"; "libnvidia-encode.so"; "libnvcuvid.so";
              "libnvidia-fbc.so"; "libnvidia-ifr.so";
              "libGL.so"; "libGLX.so"; "libOpenGL.so"; "libGLESv1_CM.so";
              "libGLESv2.so"; "libEGL.so"; "libGLdispatch.so";
              "libGLX_nvidia.so"; "libEGL_nvidia.so"; "libGLESv2_nvidia.so";
              "libGLESv1_CM_nvidia.so"; "libnvidia-eglcore.so";
              "libnvidia-glcore.so"; "libnvidia-tls.so"; "libnvidia-glsi.so" ]) ]
    |} ].

(** ** The host: what the lookup asks of the machine it runs on *)

(** The collaborators of [which] and [LookupVolumes], as one lookup sees
    them.  [map_range i c] is the order in which the [range] loop over the
    component map of catalog entry [i] visits the entries: Go leaves the
    iteration order of a map unspecified, any permutation may come. *)
Record host := {
  GetDriverVersion : result string;
  ldcache_Open : option error;
  cache_Lookup : list string -> list string * list string;
  cache_Close : option error;
  which_Output : list string -> string;
  EvalSymlinks : string -> result string;
  map_range : nat -> components -> components
}.

(** An iteration order is a rearrangement of the entries of the map. *)
Definition valid_range (h : host) : Prop :=
  forall i c, Permutation (map_range h i c) c.

(** What happens to the cache handle during a lookup. *)
Inductive cache_event :=
| EvOpen
| EvLookup (names : list string)
| EvClose.

(** ** [which] *)

Definition newline : ascii := "010"%char.

(** The strings that successive [r.ReadString('\n')] calls return before
    [io.EOF]: the lines that end in a newline, newline included.  Bytes
    after the last newline come back together with [io.EOF] and the loop
    leaves without looking at them. *)
Fixpoint read_lines (out : string) : list string :=
  match out with
  | EmptyString => []
  | String c out' =>
      if Ascii.eqb c newline then String c EmptyString :: read_lines out'
      else match read_lines out' with
           | [] => []
           | l :: ls => String c l :: ls
           end
  end.

(** The loop of [which] over the lines read. *)
Fixpoint which_loop (h : host) (lines : list string) (paths : list string)
  : result (list string) :=
  match lines with
  | [] => Success paths
  | p :: rest =>
      let p := Strings.TrimSpace p in
      if negb (Path.IsAbs p) then which_loop h rest paths
      else match EvalSymlinks h p with
           | Failure e => Failure e
           | Success path => which_loop h rest (paths ++ [path])
           end
  end.

(** [func which(bins ...string) ([]string, error)]; the exit status of the
    command is dropped ([out, _ := ...]). *)
Definition which (h : host) (bins : list string) : result (list string) :=
  which_loop h (read_lines (which_Output h bins)) [].

(** ** [LookupVolumes] *)

(** [type VolumeMap map[string]*Volume] *)
Abbreviation VolumeMap := (gmap string Volume).

Definition append_dirs (vol : Volume) (ds : list volumeDir) : Volume :=
  {| info := info vol; VPath := VPath vol; Version := Version vol;
     dirs := dirs vol ++ ds |}.

(** The loop [for t, c := range vol.Components] over the entries in the
    order visited; the events are the cache lookups made. *)
Fixpoint lookup_components (h : host) (entries : components) (vol : Volume)
  : list cache_event * result Volume :=
  match entries with
  | [] => ([], Success vol)
  | (t, c) :: rest =>
      if String.eqb t "binaries" then
        match which h c with
        | Failure e => ([], Failure e)
        | Success bins =>
            lookup_components h rest
              (append_dirs vol [{| vd_name := binDir; vd_files := bins |}])
        end
      else if String.eqb t "libraries" then
        let '(libs32, libs64) := cache_Lookup h c in
        let '(ev, r) :=
          lookup_components h rest
            (append_dirs vol [{| vd_name := lib32Dir; vd_files := libs32 |};
                              {| vd_name := lib64Dir; vd_files := libs64 |}]) in
        (EvLookup c :: ev, r)
      else lookup_components h rest vol
  end.

(** The loop [for i := range Volumes]. *)
Fixpoint lookup_volumes (h : host) (prefix drv : string) (i : nat)
  (catalog : list VolumeInfo) (vols : VolumeMap)
  : list cache_event * result VolumeMap :=
  match catalog with
  | [] => ([], Success vols)
  | vi :: rest =>
      let vol := {| info := vi; VPath := Path.Join [prefix; Name vi];
                    Version := drv; dirs := [] |} in
      match lookup_components h (map_range h i (Components vi)) vol with
      | (ev, Failure e) => (ev, Failure e)
      | (ev, Success vol') =>
          let '(ev', r) :=
            lookup_volumes h prefix drv (Datatypes.S i) rest (<[Name vi := vol']> vols) in
          (ev ++ ev', r)
      end
  end.

(** [LookupVolumes] over a given catalog: the events on the cache handle,
    and the two results [(vols, err)]. *)
Definition LookupVolumesIn (catalog : list VolumeInfo) (h : host) (prefix : string)
  : list cache_event * (option VolumeMap * option error) :=
  match GetDriverVersion h with
  | Failure e => ([], (None, Some e))
  | Success drv =>
      match ldcache_Open h with
      | Some e => ([], (None, Some e))
      | None =>
          let '(ev, r) := lookup_volumes h prefix drv 0 catalog ∅ in
          (* the deferred function: [if e := cache.Close(); err == nil { err = e }] *)
          match r with
          | Failure e => (EvOpen :: ev ++ [EvClose], (None, Some e))
          | Success vols => (EvOpen :: ev ++ [EvClose], (Some vols, cache_Close h))
          end
      end
  end.

(** [func LookupVolumes(prefix string) (vols VolumeMap, err error)] *)
Definition LookupVolumes (h : host) (prefix : string)
  : list cache_event * (option VolumeMap * option error) :=
  LookupVolumesIn Volumes h prefix.

(** * Auxiliary definitions: predicates of the statements and sample inputs *)

Definition no_slash (s : string) : bool :=
  Strings.forallb_str (fun c => negb (Ascii.eqb c Path.slash)) s.

(** The 8-byte little-endian word at byte offset [off] of [s]. *)
Definition quad_word_at (off : nat) (s : list Byte.byte) : option Z :=
  slice_from off s ≫= LittleEndian_Uint64.

(** The second 8-byte little-endian word of the section data, as the
    specification words it: bytes 8 to 15. *)
Definition spec_second_quad_word (s : list Byte.byte) : option Z :=
  quad_word_at 8 s.

Definition needs_nvidia_gl (deps : list string) : bool :=
  existsb (fun d => Regexp.glcore_MatchString d || Regexp.gldispatch_MatchString d) deps.

(** The note of a library built for ABI 2.3.99: name size 4, descriptor
    size 16, type 1, name [GNU], then the words 0, 2, 3, 99. *)
Definition abi_note_2_3_99 : list Byte.byte :=
  [ Byte.x04; Byte.x00; Byte.x00; Byte.x00;  Byte.x10; Byte.x00; Byte.x00; Byte.x00;
    Byte.x01; Byte.x00; Byte.x00; Byte.x00;  Byte.x47; Byte.x4e; Byte.x55; Byte.x00;
    Byte.x00; Byte.x00; Byte.x00; Byte.x00;  Byte.x02; Byte.x00; Byte.x00; Byte.x00;
    Byte.x03; Byte.x00; Byte.x00; Byte.x00;  Byte.x63; Byte.x00; Byte.x00; Byte.x00 ].

Definition tls_2_3_99 : elf_File :=
  {| dt_needed := Success ["libc.so.6"];
     dt_soname := Success ["libnvidia-tls.so.390.12"];
     sections := [(".note.ABI-tag", Success abi_note_2_3_99)] |}.

Definition is_cache_use (e : cache_event) : bool :=
  match e with
  | EvLookup _ => true
  | _ => false
  end.

Definition count_close (ev : list cache_event) : nat :=
  length (List.filter (fun e => match e with EvClose => true | _ => false end) ev).

Definition nl : string := String newline EmptyString.

(** The standard output of the [which] command for a PATH search [look]:
    one line per name found, in the order of the arguments, nothing for a
    name that is not found. *)
Definition which_stdout (look : string -> option string) (bins : list string)
  : string :=
  fold_right (fun b acc => match look b with
                           | Some p => p +:+ String newline acc
                           | None => acc
                           end) EmptyString bins.

(** A path as [which] prints it: absolute, on one line, and unchanged by
    the trimming of its line. *)
Definition found_ok (p : string) : bool :=
  Path.IsAbs p
  && Strings.forallb_str (fun c => negb (Ascii.eqb c newline)) p
  && String.eqb (Strings.TrimSpace (p +:+ nl)) p.

(** [filepath.EvalSymlinks] on each path in turn, up to the first error. *)
Fixpoint canonicalize (h : host) (ps : list string) : result (list string) :=
  match ps with
  | [] => Success []
  | p :: rest =>
      match EvalSymlinks h p with
      | Failure e => Failure e
      | Success q =>
          match canonicalize h rest with
          | Failure e => Failure e
          | Success qs => Success (q :: qs)
          end
      end
  end.

(** A host on which two of the five tools are installed, one of them
    through a symbolic link. *)
Definition sample_look (b : string) : option string :=
  if String.eqb b "nvidia-smi" then Some "/usr/bin/nvidia-smi"
  else if String.eqb b "nvidia-debugdump" then Some "/usr/local/bin/nvidia-debugdump"
  else None.

Definition sample_host : host :=
  {| GetDriverVersion := Success "390.12";
     ldcache_Open := None;
     cache_Lookup := fun _ =>
       (["/usr/lib/libcuda.so.390.12"], ["/usr/lib64/libcuda.so.390.12"]);
     cache_Close := None;
     which_Output := which_stdout sample_look;
     EvalSymlinks := fun p =>
       if String.eqb p "/usr/local/bin/nvidia-debugdump"
       then Success "/opt/nvidia/bin/nvidia-debugdump" else Success p;
     map_range := fun _ c => c |}.

(** The same host when the runtime visits the component map the other way
    round. *)
Definition sample_host_rev : host :=
  {| GetDriverVersion := GetDriverVersion sample_host;
     ldcache_Open := ldcache_Open sample_host;
     cache_Lookup := cache_Lookup sample_host;
     cache_Close := cache_Close sample_host;
     which_Output := which_Output sample_host;
     EvalSymlinks := EvalSymlinks sample_host;
     map_range := fun _ c => rev c |}.

(** The three directory descriptors a lookup builds. *)
Definition bin_dir (bins : list string) : volumeDir :=
  {| vd_name := binDir; vd_files := bins |}.
Definition lib_dirs (libs : list string * list string) : list volumeDir :=
  [{| vd_name := lib32Dir; vd_files := libs.1 |};
   {| vd_name := lib64Dir; vd_files := libs.2 |}].

Definition sample_prefix : string := "/var/lib/nvidia-docker/volumes".

(** What the lookup builds on [sample_host]. *)
Definition sample_volume : Volume :=
  {| info := {| Name := "nvidia_driver"; Mountpoint := "/usr/local/nvidia";
                Components := match Volumes with
                              | vi :: _ => Components vi
                              | [] => []
                              end |};
     VPath := "/var/lib/nvidia-docker/volumes/nvidia_driver";
     Version := "390.12";
     dirs := [ {| vd_name := "bin";
                  vd_files := ["/opt/nvidia/bin/nvidia-debugdump"; "/usr/bin/nvidia-smi"] |};
               {| vd_name := "lib"; vd_files := ["/usr/lib/libcuda.so.390.12"] |};
               {| vd_name := "lib64"; vd_files := ["/usr/lib64/libcuda.so.390.12"] |} ] |}.

(** The directory [Create] fills for the descriptor [d]. *)
Definition volume_dir (v : Volume) (d : volumeDir) : string :=
  Path.Join [VPath v; Version v; vd_name d].

(** The target [Create] gives to the links made for the file [f] of [d]. *)
Definition mount_target (v : Volume) (d : volumeDir) (f : string) : string :=
  Path.Join [Mountpoint (info v); vd_name d; Path.Base f].

(** [Create v s], started in [w], gets to the file [f] of the descriptor [d]
    in the world [wf]: the base directory was made, the descriptors before
    [d] were built, the directory of [d] was made and the files before [f]
    were processed, all without error. *)
Definition reaches {S : Type} `{FileCloneStrategy S} (v : Volume) (s : S)
  (w : world) (d : volumeDir) (f : string) (wf : world) : Prop :=
  exists w1 ds1 ds2 wa wb fs1 fs2,
    OS.MkdirAll (VPath v) w = (w1, None) /\
    dirs v = ds1 ++ d :: ds2 /\
    for_each (create_dir v s) ds1 w1 = (wa, Ok tt) /\
    OS.MkdirAll (volume_dir v d) wa = (wb, None) /\
    vd_files d = fs1 ++ f :: fs2 /\
    for_each (create_file v s d (volume_dir v d)) fs1 wb = (wf, Ok tt).

(** A file system given by its paths. *)
Definition mkfs (l : list (string * node)) : gmap key node :=
  list_to_map (map (fun pn => (OS.key_of pn.1, pn.2)) l).

(** A shared library of the host: the regular file of inode [ino], an ELF
    object, mode 0755. *)
Definition elf_lib (ino : nat) (soname : list string) (needed : list string)
  (secs : list (string * result (list Byte.byte))) : node :=
  File {| file_ino := ino;
          file_elf := Some {| dt_needed := Success needed;
                              dt_soname := Success soname;
                              sections := secs |};
          file_mode := 493 |}.

(** A host with a CUDA library, a GLX vendor library whose file name is its
    SONAME, and a TLS library without ABI note. *)
Definition host_fs : gmap key node :=
  mkfs [ ("/usr", Dir); ("/usr/lib64", Dir); ("/var", Dir);
         ("/usr/lib64/libcuda.so.390.12", elf_lib 1 ["libcuda.so.1"] ["libc.so.6"] []);
         ("/usr/lib64/libGLX_nvidia.so.0",
          elf_lib 2 ["libGLX_nvidia.so.0"] ["libc.so.6"] []);
         ("/usr/lib64/libnvidia-tls.so.390.12",
          elf_lib 3 ["libnvidia-tls.so.390.12"] ["libc.so.6"] []) ].

Definition host_world : world :=
  {| fs := host_fs; symlink_calls := []; busy := [] |}.

Definition driver_info : VolumeInfo :=
  {| Name := "nvidia_driver"; Mountpoint := "/usr/local/nvidia"; Components := [] |}.

Definition volume_of (files64 : list string) : Volume :=
  {| info := driver_info; VPath := "/var/nvidia_driver"; Version := "390.12";
     dirs := [ {| vd_name := "bin"; vd_files := [] |};
               {| vd_name := "lib"; vd_files := [] |};
               {| vd_name := "lib64"; vd_files := files64 |} ] |}.

Definition cuda_volume : Volume := volume_of ["/usr/lib64/libcuda.so.390.12"].
Definition glx_volume : Volume := volume_of ["/usr/lib64/libGLX_nvidia.so.0"].
Definition tls_volume : Volume :=
  volume_of ["/usr/lib64/libcuda.so.390.12"; "/usr/lib64/libnvidia-tls.so.390.12"].

(** The host after an earlier build left a link [libcuda.so.1] with another
    target in the volume. *)
Definition stale_world : world :=
  {| fs := mkfs [ ("/usr", Dir); ("/usr/lib64", Dir); ("/var", Dir);
                  ("/usr/lib64/libcuda.so.390.12",
                   elf_lib 1 ["libcuda.so.1"] ["libc.so.6"] []);
                  ("/var/nvidia_driver", Dir);
                  ("/var/nvidia_driver/390.12", Dir);
                  ("/var/nvidia_driver/390.12/lib64", Dir);
                  ("/var/nvidia_driver/390.12/lib64/libcuda.so.1",
                   Symlink "/usr/local/nvidia/lib64/libcuda.so.384.81") ];
     symlink_calls := []; busy := [] |}.

(** What a clone strategy may be relied on for: it issues no symlink call
    and leaves every directory in place. *)
Class CloneLaws (S : Type) `{FileCloneStrategy S} := {
  clone_keeps_calls : forall (s : S) src dst w,
    symlink_calls (Clone s src dst w).1 = symlink_calls w;
  clone_keeps_dirs : forall (s : S) src dst w k,
    fs w !! k = Some Dir -> fs (Clone s src dst w).1 !! k = Some Dir
}.

(** The number of symbolic links in a file system. *)
Definition count_symlinks (m : gmap key node) : nat :=
  length (List.filter (fun kn => match kn.2 with Symlink _ => true | _ => false end)
            (map_to_list m)).

Definition lib64_of (v : Volume) : volumeDir :=
  {| vd_name := "lib64";
     vd_files := match dirs v with
                 | [_; _; d] => vd_files d
                 | _ => []
                 end |}.

(** The world in which [Create v s], started in [w], gets to the first
    file of the [lib64] descriptor of a volume made by [volume_of], when the
    steps before it succeed. *)
Definition before_first_lib64 {S : Type} `{FileCloneStrategy S}
  (v : Volume) (s : S) (w : world) : world :=
  (OS.MkdirAll (volume_dir v (lib64_of v))
     (for_each (create_dir v s) (firstn 2 (dirs v))
        (OS.MkdirAll (VPath v) w).1).1).1.

(** [w'] has the symlink calls of [w] and then some more, each with [P]. *)
Definition extends_calls (P : string * string * bool -> Prop) (w w' : world) : Prop :=
  exists calls, symlink_calls w' = symlink_calls w ++ calls /\ Forall P calls.

(** A plain path element: not empty, without slash, neither [.] nor [..]. *)
Definition plain_element (s : string) : bool :=
  negb (String.eqb s EmptyString) && no_slash s
  && negb (String.eqb s ".") && negb (String.eqb s "..").

(** The key of the version tree [Path/Version] of a volume. *)
Definition tree_key (v : Volume) : key :=
  OS.key_of (Path.Join [VPath v; Version v]).

(** Every directory of [m] is a directory of [m']. *)
Definition keeps_dirs (m m' : gmap key node) : Prop :=
  forall k, m !! k = Some Dir -> m' !! k = Some Dir.

(** An element [path.Clean] keeps: not empty, not [.], no slash. *)
Definition kept_element (c : string) : Prop :=
  c <> EmptyString /\ c <> "." /\ no_slash c = true.

(** The stacks the walk of [path.Clean] goes through (last element first):
    kept elements only, and [..] elements only at the bottom, none at all in
    a rooted path. *)
Definition stack_ok (rooted : bool) (st : list string) : Prop :=
  Forall kept_element st /\
  exists body dd,
    st = body ++ dd /\
    Forall (fun c => c <> "..") body /\
    Forall (fun c => c = "..") dd /\
    (rooted = true -> dd = []).

(** A volume whose second clone fails: the same library is listed twice,
    and the second hard link finds the name taken. *)
Definition twice_volume : Volume :=
  volume_of ["/usr/lib64/libcuda.so.390.12"; "/usr/lib64/libcuda.so.390.12"].

(** A volume whose base path is a regular file of the host. *)
Definition file_volume : Volume :=
  {| info := driver_info; VPath := "/usr/lib64/libcuda.so.390.12";
     Version := "390.12"; dirs := dirs cuda_volume |}.

(** The lines of the output of [which] that the loop resolves: the trimmed
    complete lines that are absolute paths. *)
Definition resolved_lines (out : string) : list string :=
  List.filter Path.IsAbs (map Strings.TrimSpace (read_lines out)).

Definition no_newline (s : string) : bool :=
  Strings.forallb_str (fun c => negb (Ascii.eqb c newline)) s.

(** The binaries and libraries the catalog asks for. *)
Definition catalog_binaries : list string :=
  match Volumes with
  | vi :: _ => match Components vi with
               | (_, bins) :: _ => bins
               | [] => []
               end
  | [] => []
  end.

Definition catalog_libraries : list string :=
  match Volumes with
  | vi :: _ => match Components vi with
               | _ :: (_, libs) :: _ => libs
               | _ => []
               end
  | [] => []
  end.

(** The categories the lookup knows. *)
Definition known_category (entry : string * list string) : bool :=
  String.eqb entry.1 "binaries" || String.eqb entry.1 "libraries".

(** A host whose driver version cannot be read. *)
Definition no_driver_host : host :=
  {| GetDriverVersion := Failure (OtherError "NVML: driver not loaded");
     ldcache_Open := ldcache_Open sample_host;
     cache_Lookup := cache_Lookup sample_host;
     cache_Close := cache_Close sample_host;
     which_Output := which_Output sample_host;
     EvalSymlinks := EvalSymlinks sample_host;
     map_range := map_range sample_host |}.

(** Every entry of [m] is an entry of [m'], unchanged. *)
Definition keeps_all (m m' : gmap key node) : Prop :=
  forall k n, m !! k = Some n -> m' !! k = Some n.

(** A host whose [libGL.so.1] has a dynamic section that cannot be read. *)
Definition unreadable_gl_world : world :=
  {| fs := mkfs [ ("/usr", Dir); ("/usr/lib64", Dir); ("/var", Dir);
                  ("/usr/lib64/libGL.so.1",
                   File {| file_ino := 1;
                           file_elf :=
                             Some {| dt_needed := Failure (FormatError "bad string table");
                                     dt_soname := Success ["libGL.so.1"];
                                     sections := [] |};
                           file_mode := 493 |}) ];
     symlink_calls := []; busy := [] |}.

Definition gl_volume : Volume := volume_of ["/usr/lib64/libGL.so.1"].

(** A host whose only [libGL.so.1] belongs to another vendor. *)
Definition foreign_gl_world : world :=
  {| fs := mkfs [ ("/usr", Dir); ("/usr/lib64", Dir); ("/var", Dir);
                  ("/var/nvidia_driver", Dir); ("/var/nvidia_driver/390.12", Dir);
                  ("/var/nvidia_driver/390.12/lib64", Dir);
                  ("/usr/lib64/libGL.so.1", elf_lib 1 ["libGL.so.1"] ["libX11.so.6"] []) ];
     symlink_calls := []; busy := [] |}.

(** A host on which the tree of version 390.12 is there already and its
    [bin] directory is in use: a file system is mounted on it. *)
Definition mounted_world : world :=
  {| fs := mkfs [ ("/usr", Dir); ("/usr/lib64", Dir); ("/var", Dir);
                  ("/usr/lib64/libcuda.so.390.12",
                   elf_lib 1 ["libcuda.so.1"] ["libc.so.6"] []);
                  ("/var/nvidia_driver", Dir);
                  ("/var/nvidia_driver/390.12", Dir);
                  ("/var/nvidia_driver/390.12/bin", Dir) ];
     symlink_calls := [];
     busy := [OS.key_of "/var/nvidia_driver/390.12/bin"] |}.

(** The volume of [twice_volume] with the version [.]: not empty, yet
    [path.Join(Path, Version)] is [Path]. *)
Definition dot_volume : Volume :=
  {| info := driver_info; VPath := "/var/nvidia_driver"; Version := ".";
     dirs := dirs twice_volume |}.

(** A proper ancestor of [k] is a regular file, and the ancestors above
    that one are directories. *)
Definition file_above (m : gmap key node) (k : key) : Prop :=
  exists pre c rest d,
    k.2 = pre ++ c :: rest /\ rest <> [] /\
    (forall q, q `prefix_of` pre -> q <> [] -> m !! (k.1, q) = Some Dir) /\
    m !! (k.1, pre ++ [c]) = Some (File d).

(** [sub] occurs in [s]: some text, then [sub], then some text.  This is
    what it is for a pattern without anchors to match [s]. *)
Definition occurs (sub s : string) : Prop :=
  exists pre post, s = pre +:+ sub +:+ post.

(** The two patterns as the specification gives them:
    [libnvidia-e?glcore.so*], that is the name with or without the [e]
    followed by anything, and [libGLdispatch.so*]. *)
Definition spec_glcore (dep : string) : Prop :=
  occurs "libnvidia-glcore.so" dep \/ occurs "libnvidia-eglcore.so" dep.

Definition spec_gldispatch (dep : string) : Prop :=
  occurs "libGLdispatch.so" dep.

(** * Properties *)

Example Clean_ex1 : Path.Clean "/usr//local/./nvidia/" = "/usr/local/nvidia".
Proof. reflexivity. Qed.
Example Clean_ex2 : Path.Clean "a/../../b" = "../b".
Proof. reflexivity. Qed.
Example Clean_ex3 : Path.Clean "/../a/.." = "/".
Proof. reflexivity. Qed.
Example Clean_ex4 : Path.Clean EmptyString = ".".
Proof. reflexivity. Qed.
Example Join_ex1 : Path.Join ["/var/lib/nvidia"; EmptyString; "bin"] = "/var/lib/nvidia/bin".
Proof. reflexivity. Qed.
Example Join_ex2 : Path.Join [EmptyString; EmptyString] = EmptyString.
Proof. reflexivity. Qed.
Example Base_ex1 : Path.Base "/usr/lib/libGL.so.1" = "libGL.so.1".
Proof. reflexivity. Qed.
Example Base_ex2 : Path.Base "///" = "/".
Proof. reflexivity. Qed.
Example Replace_ex1 :
  Strings.Replace1 "GLX_nvidia" "GLX_indirect" "/v/lib/libGLX_nvidia.so.0"
  = "/v/lib/libGLX_indirect.so.0".
Proof. reflexivity. Qed.
Example TrimSpace_ex1 : Strings.TrimSpace "  /usr/bin/nvidia-smi
" = "/usr/bin/nvidia-smi".
Proof. reflexivity. Qed.

Example lib_ex1 : Regexp.lib_FindStringSubmatch "/usr/lib/libGL.so.1" = Some "GL".
Proof. reflexivity. Qed.
Example lib_ex2 : Regexp.lib_FindStringSubmatch "/usr/lib/libnvidia-tls.so.390.12" = Some "nvidia-tls".
Proof. reflexivity. Qed.
Example lib_ex3 : Regexp.lib_FindStringSubmatch "libGL.so.1" = None.
Proof. reflexivity. Qed.
Example lib_ex4 : Regexp.lib_FindStringSubmatch "/usr/lib/libGL.so.1a" = None.
Proof. reflexivity. Qed.
Example lib_ex5 : Regexp.lib_FindStringSubmatch "/usr/lib/libGLESv1_CM.so" = Some "GLESv1_CM".
Proof. reflexivity. Qed.

(** ** The library-name pattern *)

Section RegexpFacts.
Import Strings Regexp.

Lemma split_last_slash_none b :
  no_slash b = true -> split_last_slash b = None.
Proof.
  induction b as [|c b IH]; simpl; [reflexivity|].
  intros Hb. apply andb_true_iff in Hb as [Hc Hb].
  rewrite (IH Hb). apply negb_true_iff in Hc. now rewrite Hc.
Qed.

Lemma split_last_slash_app d b :
  no_slash b = true ->
  split_last_slash (d +:+ String Path.slash b) = Some (d, b).
Proof.
  intros Hb. induction d as [|c d IH]; simpl.
  - now rewrite (split_last_slash_none b Hb).
  - now rewrite IH.
Qed.

Lemma forallb_str_app p a b :
  forallb_str p (a +:+ b) = forallb_str p a && forallb_str p b.
Proof.
  induction a as [|c a IH]; simpl; [reflexivity|].
  now rewrite IH, andb_assoc.
Qed.

Lemma forallb_str_impl (p q : ascii -> bool) s :
  (forall c, p c = true -> q c = true) ->
  forallb_str p s = true -> forallb_str q s = true.
Proof.
  intros Hpq. induction s as [|c s IH]; simpl; [reflexivity|].
  intros H. apply andb_true_iff in H as [Hc Hs].
  now rewrite (Hpq c Hc), (IH Hs).
Qed.

Lemma is_word_dash_not_slash c :
  is_word_dash c = true -> negb (Ascii.eqb c Path.slash) = true.
Proof.
  destruct c as [[] [] [] [] [] [] [] []]; vm_compute; congruence.
Qed.

Lemma is_digit_dot_not_slash c :
  is_digit_dot c = true -> negb (Ascii.eqb c Path.slash) = true.
Proof.
  destruct c as [[] [] [] [] [] [] [] []]; vm_compute; congruence.
Qed.

Lemma span_app p name rest :
  forallb_str p name = true ->
  match rest with
  | EmptyString => True
  | String c _ => p c = false
  end ->
  span p (name +:+ rest) = (name, rest).
Proof.
  intros Hn Hr. induction name as [|c name IH]; simpl in *.
  - destruct rest as [|c rest]; [reflexivity|]. simpl. now rewrite Hr.
  - apply andb_true_iff in Hn as [Hc Hn]. now rewrite Hc, (IH Hn).
Qed.

Lemma strip_prefix_app pre s : strip_prefix pre (pre +:+ s) = Some s.
Proof.
  induction pre as [|c pre IH]; [reflexivity|].
  change (String c pre +:+ s) with (String c (pre +:+ s)).
  simpl. now rewrite Ascii.eqb_refl.
Qed.

(** Every path [d/lib<name>.so<ver>] with a newline-free [d], a non-empty
    [name] of word bytes and dashes and a [ver] of digits and dots is
    matched, with [name] as the submatch. *)
Lemma lib_FindStringSubmatch_intro d name ver :
  forallb_str is_dot d = true ->
  name <> EmptyString ->
  forallb_str is_word_dash name = true ->
  forallb_str is_digit_dot ver = true ->
  lib_FindStringSubmatch (d +:+ "/lib" +:+ name +:+ ".so" +:+ ver) = Some name.
Proof.
  intros Hd Hne Hname Hver. unfold lib_FindStringSubmatch.
  change (d +:+ "/lib" +:+ name +:+ ".so" +:+ ver)
    with (d +:+ String Path.slash ("lib" +:+ name +:+ ".so" +:+ ver)).
  rewrite split_last_slash_app.
  2:{ unfold no_slash. rewrite !forallb_str_app.
      rewrite (forallb_str_impl _ _ name is_word_dash_not_slash Hname).
      now rewrite (forallb_str_impl _ _ ver is_digit_dot_not_slash Hver). }
  rewrite Hd, strip_prefix_app.
  rewrite (span_app is_word_dash name (".so" +:+ ver) Hname) by reflexivity.
  destruct (String.eqb_spec name EmptyString) as [->|_]; [congruence|].
  now rewrite strip_prefix_app, Hver.
Qed.

End RegexpFacts.

(** ** The blacklist filter *)

Section BlacklistFacts.
Import Strings Regexp.

Lemma needs_nvidia_gl_false deps :
  needs_nvidia_gl deps = false <->
  forall dep, In dep deps ->
    glcore_MatchString dep = false /\ gldispatch_MatchString dep = false.
Proof.
  unfold needs_nvidia_gl. induction deps as [|d deps IH]; simpl.
  - split; [intros _ dep []|reflexivity].
  - rewrite orb_false_iff, IH, orb_false_iff. split.
    + intros [Hd Hall] dep [<-|Hin]; [exact Hd|now apply Hall].
    + intros Hall. split; [apply Hall; now left|].
      intros dep Hin. apply Hall. now right.
Qed.

Lemma quad_word_at_24_defined (s : list Byte.byte) :
  (32 <= length s)%nat -> exists w, quad_word_at 24 s = Some w.
Proof.
  intros Hlen. unfold quad_word_at.
  do 32 (destruct s as [|? s]; [simpl in Hlen; lia|]).
  simpl. eexists. reflexivity.
Qed.

Lemma prefix_occurs sub s :
  String.prefix sub s = true <-> exists post, s = sub +:+ post.
Proof.
  revert s. induction sub as [|a sub IH]; intros s.
  - split; [intros _; now exists s|intros _; now destruct s].
  - destruct s as [|b s]; simpl.
    + split; [discriminate|intros [post Hp]; discriminate].
    + destruct (ascii_dec a b) as [->|Hab].
      * rewrite IH. split; intros [post Hp]; exists post.
        -- now rewrite Hp.
        -- now injection Hp.
      * split; [discriminate|]. intros [post Hp]. injection Hp as Hb _. congruence.
Qed.

Lemma Contains_occurs s sub : Contains s sub = true <-> occurs sub s.
Proof.
  unfold occurs. induction s as [|c s IH]; cbn [Contains].
  - rewrite orb_false_r, prefix_occurs. split.
    + intros [post Hp]. now exists EmptyString, post.
    + intros (pre & post & Hp). destruct pre; [now exists post|discriminate].
  - rewrite orb_true_iff, prefix_occurs, IH. split.
    + intros [[post Hp]|(pre & post & Hp)].
      * now exists EmptyString, post.
      * exists (String c pre), post. now rewrite Hp.
    + intros (pre & post & Hp). destruct pre as [|c' pre].
      * left. now exists post.
      * right. exists pre, post. now injection Hp.
Qed.

Lemma glcore_spec dep : glcore_MatchString dep = true <-> spec_glcore dep.
Proof.
  unfold glcore_MatchString, spec_glcore.
  now rewrite orb_true_iff, !Contains_occurs.
Qed.

Lemma gldispatch_spec dep : gldispatch_MatchString dep = true <-> spec_gldispatch dep.
Proof. apply Contains_occurs. Qed.

Lemma needs_nvidia_gl_spec deps :
  needs_nvidia_gl deps = true <->
  exists dep, In dep deps /\ (spec_glcore dep \/ spec_gldispatch dep).
Proof.
  unfold needs_nvidia_gl. rewrite existsb_exists.
  split; intros (dep & Hin & Hd); exists dep; (split; [exact Hin|]).
  - now rewrite <- glcore_spec, <- gldispatch_spec, <- orb_true_iff.
  - now rewrite orb_true_iff, glcore_spec, gldispatch_spec.
Qed.

Lemma needs_nvidia_gl_false_spec deps :
  needs_nvidia_gl deps = false <->
  forall dep, In dep deps -> ~ spec_glcore dep /\ ~ spec_gldispatch dep.
Proof.
  rewrite needs_nvidia_gl_false. split; intros Hall dep Hin;
    destruct (Hall dep Hin) as [H1 H2].
  - rewrite <- glcore_spec, <- gldispatch_spec. split; congruence.
  - rewrite <- glcore_spec, <- gldispatch_spec in *.
    split; apply not_true_is_false; assumption.
Qed.

End BlacklistFacts.

(** C3: for a file [d/lib<name>.so<ver>] with [name] one of [GL],
    [GLESv1_CM], [GLESv2] whose [DT_NEEDED] list is read as [deps], the
    filter answers without error; it answers [true] exactly when no entry of
    [deps] matches the glcore pattern or the GLdispatch pattern of the
    specification, and [false] exactly when some entry does. *)
Theorem blacklisted_GL_family (d name ver : string) (obj : elf_File)
  (deps : list string) :
  In name ["GL"; "GLESv1_CM"; "GLESv2"] ->
  Strings.forallb_str Regexp.is_dot d = true ->
  Strings.forallb_str Regexp.is_digit_dot ver = true ->
  DynString obj DT_NEEDED = Success deps ->
  (exists b, blacklisted (d +:+ "/lib" +:+ name +:+ ".so" +:+ ver) obj = Ok b) /\
  (blacklisted (d +:+ "/lib" +:+ name +:+ ".so" +:+ ver) obj = Ok true <->
   forall dep, In dep deps -> ~ spec_glcore dep /\ ~ spec_gldispatch dep) /\
  (blacklisted (d +:+ "/lib" +:+ name +:+ ".so" +:+ ver) obj = Ok false <->
   exists dep, In dep deps /\ (spec_glcore dep \/ spec_gldispatch dep)).
Proof.
  intros Hname Hd Hver Hdeps.
  assert (Hb : blacklisted (d +:+ "/lib" +:+ name +:+ ".so" +:+ ver) obj
               = Ok (negb (needs_nvidia_gl deps))).
  { unfold blacklisted.
    rewrite lib_FindStringSubmatch_intro; auto.
    - simpl in Hname, Hdeps.
      destruct Hname as [<-|[<-|[<-|[]]]]; simpl; now rewrite Hdeps.
    - simpl in Hname. destruct Hname as [<-|[<-|[<-|[]]]]; discriminate.
    - simpl in Hname. destruct Hname as [<-|[<-|[<-|[]]]]; reflexivity. }
  rewrite Hb. split; [eauto|].
  rewrite <- needs_nvidia_gl_false_spec, <- needs_nvidia_gl_spec.
  destruct (needs_nvidia_gl deps); simpl; split; split; congruence.
Qed.

Lemma blacklisted_GL_family_witness :
  blacklisted "/usr/lib/libGL.so.1"
    {| dt_needed := Success ["libX11.so.6"; "libc.so.6"];
       dt_soname := Success ["libGL.so.1"]; sections := [] |} = Ok true /\
  blacklisted "/usr/lib/libGL.so.1"
    {| dt_needed := Success ["libGLdispatch.so.0"; "libc.so.6"];
       dt_soname := Success ["libGL.so.1"]; sections := [] |} = Ok false.
Proof.
  split.
  - apply (blacklisted_GL_family "/usr/lib" "GL" ".1"
             {| dt_needed := Success ["libX11.so.6"; "libc.so.6"];
                dt_soname := Success ["libGL.so.1"]; sections := [] |}
             ["libX11.so.6"; "libc.so.6"]);
      [simpl; auto|reflexivity|reflexivity|reflexivity|].
    intros dep Hin. rewrite <- glcore_spec, <- gldispatch_spec.
    destruct Hin as [<-|[<-|[]]]; split; discriminate.
  - apply (blacklisted_GL_family "/usr/lib" "GL" ".1"
             {| dt_needed := Success ["libGLdispatch.so.0"; "libc.so.6"];
                dt_soname := Success ["libGL.so.1"]; sections := [] |}
             ["libGLdispatch.so.0"; "libc.so.6"]);
      [simpl; auto|reflexivity|reflexivity|reflexivity|].
    exists "libGLdispatch.so.0". split; [now left|]. right.
    exists EmptyString, ".0". reflexivity.
Defined.

(** C4 (as the code has it): for a file [d/libnvidia-tls.so<ver>] whose
    [.note.ABI-tag] section is read as at least 32 bytes, the filter answers
    [true] exactly when the 8-byte little-endian word at byte offset 24 of
    the section data (its fourth quad word, the second one of the note
    descriptor) differs from [0x6300000003]; and a file whose path is not
    matched, or whose name is none of [GL], [GLESv1_CM], [GLESv2],
    [nvidia-tls], is never blacklisted. *)
Theorem blacklisted_nvidia_tls (d ver : string) (obj : elf_File)
  (s : list Byte.byte) :
  Strings.forallb_str Regexp.is_dot d = true ->
  Strings.forallb_str Regexp.is_digit_dot ver = true ->
  Section obj ".note.ABI-tag" = Some (Success s) ->
  (32 <= length s)%nat ->
  (exists w,
     quad_word_at 24 s = Some w /\
     blacklisted (d +:+ "/libnvidia-tls.so" +:+ ver) obj = Ok (negb (Z.eqb w abi)) /\
     (negb (Z.eqb w abi) = true <-> w <> abi)) /\
  (forall file obj',
     match Regexp.lib_FindStringSubmatch file with
     | Some name => ~ In name ["GL"; "GLESv1_CM"; "GLESv2"; "nvidia-tls"]
     | None => True
     end ->
     blacklisted file obj' = Ok false).
Proof.
  intros Hd Hver Hsec Hlen. split.
  - destruct (quad_word_at_24_defined s Hlen) as [w Hw].
    exists w. split; [exact Hw|]. split.
    + unfold blacklisted.
      change (d +:+ "/libnvidia-tls.so" +:+ ver)
        with (d +:+ "/lib" +:+ "nvidia-tls" +:+ ".so" +:+ ver).
      rewrite (lib_FindStringSubmatch_intro d "nvidia-tls" ver Hd) by
        (discriminate || reflexivity || assumption).
      change (String.eqb "nvidia-tls" "GLESv1_CM" || String.eqb "nvidia-tls" "GLESv2"
              || String.eqb "nvidia-tls" "GL") with false.
      change (String.eqb "nvidia-tls" "nvidia-tls") with true.
      cbv iota. rewrite Hsec. unfold quad_word_at in Hw.
      destruct (slice_from 24 s) as [t|]; [|discriminate].
      change (LittleEndian_Uint64 t = Some w) in Hw.
      now rewrite Hw.
    + rewrite negb_true_iff. apply Z.eqb_neq.
  - intros file obj' Hfile. unfold blacklisted.
    destruct (Regexp.lib_FindStringSubmatch file) as [name|]; [|reflexivity].
    simpl in Hfile.
    destruct (String.eqb_spec name "GLESv1_CM") as [->|_]; [tauto|].
    destruct (String.eqb_spec name "GLESv2") as [->|_]; [tauto|].
    destruct (String.eqb_spec name "GL") as [->|_]; [tauto|].
    destruct (String.eqb_spec name "nvidia-tls") as [->|_]; [tauto|].
    reflexivity.
Qed.

Lemma blacklisted_nvidia_tls_witness :
  (exists w,
     quad_word_at 24 abi_note_2_3_99 = Some w /\
     blacklisted "/usr/lib64/libnvidia-tls.so.390.12" tls_2_3_99
       = Ok (negb (Z.eqb w abi)) /\
     (negb (Z.eqb w abi) = true <-> w <> abi)) /\
  (forall file obj',
     match Regexp.lib_FindStringSubmatch file with
     | Some name => ~ In name ["GL"; "GLESv1_CM"; "GLESv2"; "nvidia-tls"]
     | None => True
     end ->
     blacklisted file obj' = Ok false).
Proof.
  apply (blacklisted_nvidia_tls "/usr/lib64" ".390.12" tls_2_3_99 abi_note_2_3_99);
    [reflexivity | reflexivity | reflexivity | simpl; lia].
Defined.

(** C4 as stated fails: the library built for ABI 2.3.99 is accepted by the
    code, although the second 8-byte word of its section data (the note type
    and name) is not [0x6300000003]. *)
Lemma blacklisted_second_word_counterexample :
  Section tls_2_3_99 ".note.ABI-tag" = Some (Success abi_note_2_3_99) /\
  spec_second_quad_word abi_note_2_3_99 = Some 0x554e4700000001%Z /\
  spec_second_quad_word abi_note_2_3_99 <> Some abi /\
  blacklisted "/usr/lib64/libnvidia-tls.so.390.12" tls_2_3_99 = Ok false.
Proof.
  repeat split; try reflexivity. vm_compute. discriminate.
Qed.

(** ** The lookup *)

Section LookupFacts.

Lemma lookup_components_events h entries vol :
  forallb is_cache_use (lookup_components h entries vol).1 = true.
Proof.
  revert vol. induction entries as [|[t c] rest IH]; intros vol; simpl.
  - reflexivity.
  - destruct (String.eqb t "binaries").
    + destruct (which h c); [apply IH|reflexivity].
    + destruct (String.eqb t "libraries"); [|apply IH].
      destruct (cache_Lookup h c) as [l32 l64].
      specialize (IH (append_dirs vol
        [{| vd_name := lib32Dir; vd_files := l32 |};
         {| vd_name := lib64Dir; vd_files := l64 |}])).
      destruct (lookup_components h rest _) as [ev r]. simpl in *. exact IH.
Qed.

Lemma lookup_volumes_events h prefix drv i catalog vols :
  forallb is_cache_use (lookup_volumes h prefix drv i catalog vols).1 = true.
Proof.
  revert i vols. induction catalog as [|vi rest IH]; intros i vols; simpl.
  - reflexivity.
  - pose proof (lookup_components_events h (map_range h i (Components vi))
      {| info := vi; VPath := Path.Join [prefix; Name vi]; Version := drv;
         dirs := [] |}) as Hc.
    destruct (lookup_components h _ _) as [ev [vol'|e]]; simpl in *.
    + specialize (IH (Datatypes.S i) (<[Name vi := vol']> vols)).
      destruct (lookup_volumes h prefix drv _ rest _) as [ev' r]. simpl in *.
      rewrite List.forallb_app, Hc, IH. reflexivity.
    + exact Hc.
Qed.

Lemma count_close_uses ev :
  forallb is_cache_use ev = true -> count_close ev = 0%nat.
Proof.
  unfold count_close. induction ev as [|e ev IH]; simpl; [reflexivity|].
  intros H. apply andb_true_iff in H as [He Hev].
  destruct e; simpl in *; try discriminate. now apply IH.
Qed.

Lemma count_close_bracket ev :
  forallb is_cache_use ev = true ->
  count_close (EvOpen :: ev ++ [EvClose]) = 1%nat.
Proof.
  intros H. unfold count_close. simpl. rewrite List.filter_app, List.length_app.
  fold (count_close ev). rewrite (count_close_uses ev H). reflexivity.
Qed.

End LookupFacts.

(** C9: when the driver version is found and the cache opens, the handle
    is closed exactly once, after every use of it, whether the resolution
    succeeds or fails; an error of the resolution is what the lookup returns
    (with a nil map), and only a resolution without error returns what
    [Close] returns, next to the map. *)
Theorem LookupVolumes_closes_once (h : host) (prefix drv : string) :
  GetDriverVersion h = Success drv ->
  ldcache_Open h = None ->
  exists uses,
    (LookupVolumes h prefix).1 = EvOpen :: uses ++ [EvClose] /\
    forallb is_cache_use uses = true /\
    count_close (LookupVolumes h prefix).1 = 1%nat /\
    match (lookup_volumes h prefix drv 0 Volumes ∅).2 with
    | Failure e => (LookupVolumes h prefix).2 = (None, Some e)
    | Success vols => (LookupVolumes h prefix).2 = (Some vols, cache_Close h)
    end.
Proof.
  intros Hdrv Hopen. unfold LookupVolumes, LookupVolumesIn.
  rewrite Hdrv, Hopen.
  pose proof (lookup_volumes_events h prefix drv 0 Volumes ∅) as Hev.
  destruct (lookup_volumes h prefix drv 0 Volumes ∅) as [ev r].
  simpl lookup_volumes in *. simpl fst in Hev. exists ev.
  destruct r as [vols|e]; simpl; repeat split; auto using count_close_bracket.
Qed.

Lemma LookupVolumes_closes_once_witness :
  exists uses,
    (LookupVolumes sample_host "/var/lib/nvidia-docker/volumes").1
      = EvOpen :: uses ++ [EvClose] /\
    forallb is_cache_use uses = true /\
    count_close (LookupVolumes sample_host "/var/lib/nvidia-docker/volumes").1 = 1%nat /\
    match (lookup_volumes sample_host "/var/lib/nvidia-docker/volumes" "390.12"
             0 Volumes ∅).2 with
    | Failure e =>
        (LookupVolumes sample_host "/var/lib/nvidia-docker/volumes").2 = (None, Some e)
    | Success vols =>
        (LookupVolumes sample_host "/var/lib/nvidia-docker/volumes").2
          = (Some vols, cache_Close sample_host)
    end.
Proof.
  apply (LookupVolumes_closes_once sample_host "/var/lib/nvidia-docker/volumes" "390.12");
    reflexivity.
Defined.

(** ** The binary resolver *)

Section WhichFacts.
Import Strings.

Lemma read_lines_line p rest :
  forallb_str (fun c => negb (Ascii.eqb c newline)) p = true ->
  read_lines (p +:+ String newline rest) = (p +:+ nl) :: read_lines rest.
Proof.
  induction p as [|c p IH]; intros Hp.
  - reflexivity.
  - simpl in Hp. apply andb_true_iff in Hp as [Hc Hp].
    apply negb_true_iff in Hc.
    change (String c p +:+ String newline rest)
      with (String c (p +:+ String newline rest)).
    cbn [read_lines]. rewrite Hc, (IH Hp). reflexivity.
Qed.

Lemma found_ok_inv p :
  found_ok p = true ->
  Path.IsAbs p = true /\
  forallb_str (fun c => negb (Ascii.eqb c newline)) p = true /\
  TrimSpace (p +:+ nl) = p.
Proof.
  unfold found_ok. rewrite !andb_true_iff, String.eqb_eq. tauto.
Qed.

Lemma read_lines_which_stdout look bins :
  (forall b p, In b bins -> look b = Some p -> found_ok p = true) ->
  read_lines (which_stdout look bins) = map (fun p => p +:+ nl) (omap look bins).
Proof.
  induction bins as [|b bins IH]; intros Hok; [reflexivity|].
  simpl which_stdout. cbn [omap list_omap].
  assert (IH' : read_lines (which_stdout look bins)
                = map (fun p => p +:+ nl) (omap look bins)).
  { apply IH. intros b' p Hin. apply Hok. now right. }
  destruct (look b) as [p|] eqn:Hb; [|exact IH'].
  destruct (found_ok_inv p (Hok b p (or_introl eq_refl) Hb)) as (_ & Hnl & _).
  rewrite (read_lines_line p _ Hnl). simpl. now rewrite <- IH'.
Qed.

Lemma which_loop_lines h found acc :
  Forall (fun p => found_ok p = true) found ->
  which_loop h (map (fun p => p +:+ nl) found) acc =
  match canonicalize h found with
  | Success qs => Success (acc ++ qs)
  | Failure e => Failure e
  end.
Proof.
  intros Hok. revert acc. induction Hok as [|p found Hp _ IH]; intros acc; simpl.
  - now rewrite app_nil_r.
  - destruct (found_ok_inv p Hp) as (Habs & _ & Htrim).
    rewrite Htrim, Habs. simpl.
    destruct (EvalSymlinks h p) as [q|e]; [|reflexivity].
    rewrite IH. destruct (canonicalize h found) as [qs|e]; [|reflexivity].
    now rewrite <- app_assoc.
Qed.

Lemma canonicalize_Success h found paths :
  canonicalize h found = Success paths ->
  Forall2 (fun p q => EvalSymlinks h p = Success q) found paths.
Proof.
  revert paths. induction found as [|p found IH]; intros paths; simpl.
  - intros [= <-]. constructor.
  - destruct (EvalSymlinks h p) as [q|e] eqn:Hq; [|discriminate].
    destruct (canonicalize h found) as [qs|e]; [|discriminate].
    intros [= <-]. constructor; auto.
Qed.

Lemma canonicalize_Failure h found p e :
  In p found -> EvalSymlinks h p = Failure e ->
  exists e', canonicalize h found = Failure e'.
Proof.
  induction found as [|p0 found IH]; simpl; [intros []|].
  intros [->|Hin] He.
  - rewrite He. eauto.
  - destruct (EvalSymlinks h p0) as [q|e0]; [|eauto].
    destruct (IH Hin He) as [e' ->]. eauto.
Qed.

End WhichFacts.

(** A failure of the binary resolver ends the loop over the component
    map, wherever in the iteration order the binaries come. *)
Lemma lookup_components_which_error h entries vol B e :
  NoDup (map fst entries) ->
  In ("binaries", B) entries ->
  which h B = Failure e ->
  (lookup_components h entries vol).2 = Failure e.
Proof.
  revert vol. induction entries as [|[t c] rest IH]; intros vol Hnd Hin He;
    simpl in *; [tauto|].
  apply NoDup_cons in Hnd as [Hfresh Hnd].
  destruct (String.eqb_spec t "binaries") as [->|Hne].
  - destruct Hin as [[= ->]|Hin].
    + now rewrite He.
    + exfalso. apply Hfresh, list_elem_of_In, in_map_iff.
      exists ("binaries", B). auto.
  - destruct Hin as [[= ? ?]|Hin]; [congruence|].
    destruct (String.eqb t "libraries"); [|now apply IH].
    destruct (cache_Lookup h c) as [l32 l64].
    specialize (IH (append_dirs vol
      [{| vd_name := lib32Dir; vd_files := l32 |};
       {| vd_name := lib64Dir; vd_files := l64 |}]) Hnd Hin He).
    destruct (lookup_components h rest _) as [ev r]. exact IH.
Qed.

Lemma LookupVolumes_which_error h prefix drv B e :
  valid_range h ->
  GetDriverVersion h = Success drv ->
  ldcache_Open h = None ->
  In ("binaries", B) (Components (List.hd {| Name := EmptyString; Mountpoint := EmptyString;
                                             Components := [] |} Volumes)) ->
  which h B = Failure e ->
  (LookupVolumes h prefix).2 = (None, Some e).
Proof.
  intros Hrange Hdrv Hopen HB He. unfold LookupVolumes, LookupVolumesIn.
  rewrite Hdrv, Hopen. simpl lookup_volumes.
  match goal with
  | |- context [lookup_components h (map_range h 0 ?c) ?v] =>
      pose proof (lookup_components_which_error h (map_range h 0 c) v B e) as Hc;
      pose proof (Hrange 0%nat c) as Hperm
  end.
  destruct (lookup_components h _ _) as [ev r]. simpl in Hc.
  rewrite Hc; [reflexivity| | |assumption].
  - apply NoDup_ListNoDup.
    eapply Permutation_NoDup; [symmetry; apply (Permutation_map fst Hperm)|].
    simpl. repeat constructor; simpl; intuition discriminate.
  - eapply Permutation_in; [symmetry; exact Hperm|]. exact HB.
Qed.

(** C8: on a host where [which] prints one line per name found on PATH
    and nothing for the others, the resolver returns the canonical path of
    each name found, in order: names that are not found are left out without
    an error, every path returned is what [EvalSymlinks] gives for a found
    (absolute) path and is absolute, an [EvalSymlinks] failure on a found
    path makes the resolver return an error, and an error of the resolver on
    the binaries of the catalog is what [LookupVolumes] returns. *)
Theorem which_resolves (h : host) (look : string -> option string)
  (bins : list string) :
  which_Output h bins = which_stdout look bins ->
  (forall b p, In b bins -> look b = Some p -> found_ok p = true) ->
  (forall p q, Path.IsAbs p = true -> EvalSymlinks h p = Success q ->
               Path.IsAbs q = true) ->
  which h bins = canonicalize h (omap look bins) /\
  (forall paths, which h bins = Success paths ->
     Forall2 (fun p q => Path.IsAbs p = true /\ EvalSymlinks h p = Success q /\
                         Path.IsAbs q = true)
             (omap look bins) paths) /\
  (forall p e, In p (omap look bins) -> EvalSymlinks h p = Failure e ->
     exists e', which h bins = Failure e') /\
  (forall prefix drv e,
     valid_range h -> GetDriverVersion h = Success drv -> ldcache_Open h = None ->
     In ("binaries", bins)
        (Components (List.hd {| Name := EmptyString; Mountpoint := EmptyString;
                                Components := [] |} Volumes)) ->
     which h bins = Failure e ->
     (LookupVolumes h prefix).2 = (None, Some e)).
Proof.
  intros Hout Hok Habs.
  assert (Hfound : Forall (fun p => found_ok p = true) (omap look bins)).
  { apply List.Forall_forall. intros p Hp.
    apply list_elem_of_In, list_elem_of_omap in Hp as (b & Hb & Hlook).
    apply (Hok b p); [now apply list_elem_of_In|exact Hlook]. }
  assert (Hwhich : which h bins = canonicalize h (omap look bins)).
  { unfold which. rewrite Hout, read_lines_which_stdout by exact Hok.
    rewrite which_loop_lines by exact Hfound.
    now destruct (canonicalize h (omap look bins)). }
  split; [exact Hwhich|]. split.
  - intros paths Hp. rewrite Hwhich in Hp.
    apply canonicalize_Success in Hp.
    clear Hwhich. induction Hp as [|p q found paths Hpq _ IH].
    + constructor.
    + inversion Hfound as [|? ? Hpok Hrest]; subst.
      destruct (found_ok_inv p Hpok) as (Hpabs & _).
      constructor; [|now apply IH].
      repeat split; eauto.
  - split.
    + intros p e Hin He. rewrite Hwhich. eapply canonicalize_Failure; eauto.
    + intros prefix drv e Hrange Hdrv Hopen HB He.
      eapply LookupVolumes_which_error; eauto.
Qed.

Lemma which_resolves_witness :
  which sample_host ["nvidia-cuda-mps-control"; "nvidia-debugdump"; "nvidia-smi"]
    = Success ["/opt/nvidia/bin/nvidia-debugdump"; "/usr/bin/nvidia-smi"].
Proof.
  destruct (which_resolves sample_host sample_look
              ["nvidia-cuda-mps-control"; "nvidia-debugdump"; "nvidia-smi"])
    as [Hw _].
  - reflexivity.
  - intros b p [<-|[<-|[<-|[]]]]; vm_compute; intros [= <-]; reflexivity.
  - intros p q Hp. simpl.
    destruct (String.eqb p "/usr/local/bin/nvidia-debugdump");
      intros [= <-]; [reflexivity|exact Hp].
  - rewrite Hw. reflexivity.
Defined.

(** ** The order of the directory descriptors *)

Section DirsOrder.
Variable h : host.

Lemma lookup_components_none entries vol :
  ~ In "binaries" (map fst entries) ->
  ~ In "libraries" (map fst entries) ->
  lookup_components h entries vol = ([], Success vol).
Proof.
  revert vol. induction entries as [|[t c] rest IH]; intros vol Hb Hl; simpl in *.
  - reflexivity.
  - destruct (String.eqb_spec t "binaries") as [->|_]; [tauto|].
    destruct (String.eqb_spec t "libraries") as [->|_]; [tauto|].
    apply IH; tauto.
Qed.

Lemma lookup_components_bin_only entries vol B :
  NoDup (map fst entries) ->
  In ("binaries", B) entries ->
  ~ In "libraries" (map fst entries) ->
  lookup_components h entries vol =
  match which h B with
  | Success bins => ([], Success (append_dirs vol [bin_dir bins]))
  | Failure e => ([], Failure e)
  end.
Proof.
  revert vol. induction entries as [|[t c] rest IH]; intros vol Hnd Hin Hl;
    simpl in *; [tauto|].
  apply NoDup_cons in Hnd as [Hfresh Hnd].
  destruct Hin as [[= -> ->]|Hin].
  - simpl. destruct (which h B) as [bins|e]; [|reflexivity].
    apply lookup_components_none; [|tauto].
    now rewrite <- list_elem_of_In.
  - destruct (String.eqb_spec t "binaries") as [->|_].
    { exfalso. apply Hfresh, list_elem_of_In, in_map_iff.
      exists ("binaries", B). auto. }
    destruct (String.eqb_spec t "libraries") as [->|_]; [tauto|].
    apply IH; tauto.
Qed.

Lemma lookup_components_lib_only entries vol L :
  NoDup (map fst entries) ->
  In ("libraries", L) entries ->
  ~ In "binaries" (map fst entries) ->
  lookup_components h entries vol =
  ([EvLookup L], Success (append_dirs vol (lib_dirs (cache_Lookup h L)))).
Proof.
  revert vol. induction entries as [|[t c] rest IH]; intros vol Hnd Hin Hb;
    simpl in *; [tauto|].
  apply NoDup_cons in Hnd as [Hfresh Hnd].
  destruct (String.eqb_spec t "binaries") as [->|_]; [tauto|].
  destruct Hin as [[= -> ->]|Hin].
  - simpl. destruct (cache_Lookup h L) as [l32 l64].
    rewrite lookup_components_none; [reflexivity|tauto|].
    now rewrite <- list_elem_of_In.
  - destruct (String.eqb_spec t "libraries") as [->|_].
    { exfalso. apply Hfresh, list_elem_of_In, in_map_iff.
      exists ("libraries", L). auto. }
    apply IH; tauto.
Qed.

(** A component map with both categories: the [bin] descriptor and the
    [lib], [lib64] pair are appended, in the order in which the two
    categories are visited. *)
Lemma lookup_components_both entries vol B L ev vol' :
  NoDup (map fst entries) ->
  In ("binaries", B) entries ->
  In ("libraries", L) entries ->
  lookup_components h entries vol = (ev, Success vol') ->
  exists bins,
    which h B = Success bins /\
    (dirs vol' = dirs vol ++ bin_dir bins :: lib_dirs (cache_Lookup h L) \/
     dirs vol' = dirs vol ++ lib_dirs (cache_Lookup h L) ++ [bin_dir bins]).
Proof.
  revert vol ev. induction entries as [|[t c] rest IH]; intros vol ev Hnd Hb Hl;
    simpl in *; [tauto|].
  apply NoDup_cons in Hnd as [Hfresh Hnd].
  rewrite list_elem_of_In in Hfresh.
  destruct Hb as [[= -> ->]|Hb].
  - destruct Hl as [[=]|Hl]. simpl.
    destruct (which h B) as [bins|e]; [|discriminate].
    rewrite (lookup_components_lib_only rest _ L); auto.
    intros [= <- <-]. exists bins. split; [reflexivity|]. left.
    simpl. now rewrite <- app_assoc.
  - destruct (String.eqb_spec t "binaries") as [->|_].
    { exfalso. apply Hfresh, in_map_iff. exists ("binaries", B). auto. }
    destruct Hl as [[= -> ->]|Hl].
    + simpl. destruct (cache_Lookup h L) as [l32 l64] eqn:HL.
      rewrite (lookup_components_bin_only rest _ B); auto.
      destruct (which h B) as [bins|e]; [|discriminate].
      intros [= <- <-]. exists bins. split; [reflexivity|]. right.
      simpl. now rewrite <- app_assoc.
    + destruct (String.eqb_spec t "libraries") as [->|_].
      { exfalso. apply Hfresh, in_map_iff. exists ("libraries", L). auto. }
      apply IH; auto.
Qed.

(** Every volume of the map returned was in the map to begin with or was
    built by [lookup_components] from an entry of the catalog. *)
Lemma lookup_volumes_built prefix drv i catalog (vols vols' : VolumeMap) ev name vol :
  lookup_volumes h prefix drv i catalog vols = (ev, Success vols') ->
  vols' !! name = Some vol ->
  vols !! name = Some vol \/
  exists j vi ev',
    In vi catalog /\ info vol = vi /\
    lookup_components h (map_range h j (Components vi))
      {| info := vi; VPath := Path.Join [prefix; Name vi]; Version := drv;
         dirs := [] |} = (ev', Success vol).
Proof.
  revert i vols ev. induction catalog as [|vi rest IH]; intros i vols ev; simpl.
  - intros [= <- <-]. auto.
  - destruct (lookup_components h (map_range h i (Components vi)) _)
      as [ev1 [vol1|e]] eqn:Hc; [|discriminate].
    destruct (lookup_volumes h prefix drv (Datatypes.S i) rest _) as [ev2 r] eqn:Hr.
    intros [= <- ->] Hlook.
    destruct (IH _ _ _ Hr Hlook) as [Hold|(j & vj & ev' & Hin & Hinfo & Hj)].
    + destruct (decide (Name vi = name)) as [<-|Hne].
      * rewrite lookup_insert_eq in Hold. injection Hold as <-.
        right. exists i, vi, ev1. repeat split; auto.
        clear -Hc. revert Hc. generalize (map_range h i (Components vi)).
        intros entries.
        assert (G : forall v0 ev v1, lookup_components h entries v0 = (ev, Success v1) ->
                                     info v1 = info v0).
        { induction entries as [|[t c] es IHes]; intros v0 ev v1; simpl.
          - now intros [= <- <-].
          - destruct (String.eqb t "binaries").
            + destruct (which h c); [|discriminate].
              intros Hx. now rewrite (IHes _ _ _ Hx).
            + destruct (String.eqb t "libraries"); [|apply IHes].
              destruct (cache_Lookup h c) as [l32 l64].
              destruct (lookup_components h es _) as [ev0 r0] eqn:Hx.
              intros [= <- ->]. now rewrite (IHes _ _ _ Hx). }
        intros Hc. now rewrite (G _ _ _ Hc).
      * rewrite lookup_insert_ne in Hold by exact Hne. auto.
    + right. exists j, vj, ev'. auto.
Qed.

End DirsOrder.

(** C5 (as the code has it): every volume [LookupVolumes] returns holds
    the [bin] descriptor and the [lib] descriptor directly followed by the
    [lib64] descriptor; [bin] stands before or after that pair, as the
    iteration over the component map of the catalog entry happens to go. *)
Theorem LookupVolumes_dirs (h : host) (prefix : string) (vols : VolumeMap)
  (err : option error) (name : string) (vol : Volume) :
  valid_range h ->
  (LookupVolumes h prefix).2 = (Some vols, err) ->
  vols !! name = Some vol ->
  exists bins libs32 libs64,
    (dirs vol = [ {| vd_name := "bin"; vd_files := bins |};
                  {| vd_name := "lib"; vd_files := libs32 |};
                  {| vd_name := "lib64"; vd_files := libs64 |} ] \/
     dirs vol = [ {| vd_name := "lib"; vd_files := libs32 |};
                  {| vd_name := "lib64"; vd_files := libs64 |};
                  {| vd_name := "bin"; vd_files := bins |} ]).
Proof.
  intros Hrange Hres Hvol. unfold LookupVolumes, LookupVolumesIn in Hres.
  destruct (GetDriverVersion h) as [drv|e]; [|discriminate].
  destruct (ldcache_Open h); [discriminate|].
  destruct (lookup_volumes h prefix drv 0 Volumes ∅) as [ev [vols'|e]] eqn:Hlv;
    [|discriminate].
  injection Hres as <- _.
  destruct (lookup_volumes_built h _ _ _ _ _ _ _ _ _ Hlv Hvol)
    as [Hempty|(j & vi & ev' & Hin & Hinfo & Hc)].
  { rewrite lookup_empty in Hempty. discriminate. }
  destruct Hin as [<-|[]].
  simpl in Hc.
  match type of Hc with
  | lookup_components _ (map_range _ _ ?c) _ = _ =>
      pose proof (Hrange j c) as Hperm
  end.
  eassert (HB : In ("binaries", _) (map_range h j _)).
  { eapply Permutation_in; [symmetry; exact Hperm|]. left. reflexivity. }
  eassert (HL : In ("libraries", _) (map_range h j _)).
  { eapply Permutation_in; [symmetry; exact Hperm|]. right. left. reflexivity. }
  eassert (HND : NoDup (map fst (map_range h j _))).
  { apply NoDup_ListNoDup.
    eapply Permutation_NoDup; [symmetry; apply (Permutation_map fst Hperm)|].
    simpl. repeat constructor; simpl; intuition discriminate. }
  destruct (lookup_components_both h _ _ _ _ _ _ HND HB HL Hc) as (bins & _ & Hdirs).
  destruct (cache_Lookup h _) as [l32 l64].
  exists bins, l32, l64. exact Hdirs.
Qed.

Lemma LookupVolumes_dirs_witness :
  exists bins libs32 libs64,
    (dirs sample_volume = [ {| vd_name := "bin"; vd_files := bins |};
                            {| vd_name := "lib"; vd_files := libs32 |};
                            {| vd_name := "lib64"; vd_files := libs64 |} ] \/
     dirs sample_volume = [ {| vd_name := "lib"; vd_files := libs32 |};
                            {| vd_name := "lib64"; vd_files := libs64 |};
                            {| vd_name := "bin"; vd_files := bins |} ]).
Proof.
  apply (LookupVolumes_dirs sample_host sample_prefix
           (<["nvidia_driver" := sample_volume]> ∅) None "nvidia_driver").
  - intros i c. reflexivity.
  - vm_compute. reflexivity.
  - vm_compute. reflexivity.
Defined.

(** C5 as stated fails: when the component map is visited libraries
    first, the descriptors come out as [lib], [lib64], [bin]. *)
Lemma LookupVolumes_order_counterexample :
  valid_range sample_host_rev /\
  exists vols vol,
    (LookupVolumes sample_host_rev sample_prefix).2 = (Some vols, None) /\
    vols !! "nvidia_driver" = Some vol /\
    map vd_name (dirs vol) = ["lib"; "lib64"; "bin"] /\
    map vd_name (dirs vol) <> ["bin"; "lib"; "lib64"].
Proof.
  split.
  - intros i c. simpl. symmetry. apply Permutation_rev.
  - eexists _, _. split; [vm_compute; reflexivity|].
    split; [vm_compute; reflexivity|].
    split; [reflexivity|discriminate].
Qed.

(** ** Control flow of [Create] *)

Section CreateFlow.
Context {S : Type} `{FileCloneStrategy S}.

Lemma for_each_app_Ok {A} (body : A -> world -> world * outcome unit) l1 l2 w w1 :
  for_each body l1 w = (w1, Ok tt) ->
  for_each body (l1 ++ l2) w = for_each body l2 w1.
Proof.
  revert w. induction l1 as [|x l1 IH]; intros w; simpl.
  - now intros [= <-].
  - destruct (body x w) as [w' [[]| |]]; try discriminate. apply IH.
Qed.

Lemma for_each_stops {A} (body : A -> world -> world * outcome unit) l1 x l2 w w1 w2 r :
  for_each body l1 w = (w1, Ok tt) ->
  body x w1 = (w2, r) ->
  (forall u, r <> Ok u) ->
  for_each body (l1 ++ x :: l2) w = (w2, r).
Proof.
  intros H1 Hx Hr. rewrite (for_each_app_Ok body l1 _ w w1 H1). simpl.
  rewrite Hx. destruct r; [now destruct (Hr a)|reflexivity|reflexivity].
Qed.

(** What [Create] returns when the body of its inner loop stops at a file
    it has reached: the error after the rollback, or the panic. *)
Lemma reaches_stops v (s : S) w d f wf w' r :
  reaches v s w d f wf ->
  create_file v s d (volume_dir v d) f wf = (w', r) ->
  (forall u, r <> Ok u) ->
  Create v s w =
  match r with
  | Err e => ((Remove v [] w').1, Err e)
  | _ => (w', r)
  end.
Proof.
  intros (w1 & ds1 & ds2 & wa & wb & fs1 & fs2 & Hm & Hd & Hds & Hmd & Hf & Hfs)
    Hbody Hr.
  unfold Create. rewrite Hm, Hd.
  rewrite (for_each_stops (create_dir v s) ds1 d ds2 w1 wa w' r Hds); auto.
  - destruct r; [now destruct (Hr a)|reflexivity|reflexivity].
  - unfold create_dir. fold (volume_dir v d). rewrite Hmd, Hf.
    apply (for_each_stops _ fs1 f fs2 wb wf w' r Hfs Hbody Hr).
Qed.

Lemma reaches_Err v (s : S) w d f wf w' e :
  reaches v s w d f wf ->
  create_file v s d (volume_dir v d) f wf = (w', Err e) ->
  Create v s w = ((Remove v [] w').1, Err e).
Proof.
  intros Hreach Hbody.
  apply (reaches_stops v s w d f wf w' (Err e) Hreach Hbody). discriminate.
Qed.

End CreateFlow.

(** ** Symbolic links *)

Lemma Symlink_error f l w w1 e :
  OS.Symlink f l w = (w1, Some e) ->
  exists n, e = LinkError "symlink" f l n.
Proof.
  unfold OS.Symlink. destruct (String.eqb f EmptyString).
  - intros [= <- <-]. eauto.
  - destruct (OS.fresh_key (fs w) l); intros [= <- <-]. eauto.
Qed.

Lemma symlink_unless_exists_EEXIST f l w :
  f <> EmptyString ->
  OS.fresh_key (fs w) l = inl EEXIST ->
  symlink_unless_exists f l w =
  ({| fs := fs w; symlink_calls := symlink_calls w ++ [(f, l, false)];
      busy := busy w |}, Ok tt).
Proof.
  intros Hf Hl. unfold symlink_unless_exists, OS.Symlink.
  destruct (String.eqb_spec f EmptyString) as [->|_]; [congruence|].
  rewrite Hl. reflexivity.
Qed.

Lemma symlink_unless_exists_other f l w w1 e :
  OS.Symlink f l w = (w1, Some e) ->
  LinkError_Err e <> Some EEXIST ->
  symlink_unless_exists f l w = (w1, Err e).
Proof.
  intros Hs Hne. unfold symlink_unless_exists. rewrite Hs.
  destruct (Symlink_error f l w w1 e Hs) as [n ->]. simpl in *.
  destruct n; congruence.
Qed.

(** C7, at the failing input: a TLS library without [.note.ABI-tag]
    section makes [blacklisted] dereference nil; [Create] panics instead of
    returning an error, the deferred rollback sees a nil [err], and the tree
    built so far stays, with [Exists] true. *)
Theorem Create_panics_without_abi_note :
  OS.elf_Open "/usr/lib64/libnvidia-tls.so.390.12" host_world
    = Success {| dt_needed := Success ["libc.so.6"];
                 dt_soname := Success ["libnvidia-tls.so.390.12"];
                 sections := [] |} /\
  (Create tls_volume mkLinkStrategy host_world).2 = Panic /\
  (forall e, (Create tls_volume mkLinkStrategy host_world).2 <> Err e) /\
  Exists tls_volume (Create tls_volume mkLinkStrategy host_world).1 = (true, None).
Proof.
  repeat split; try (vm_compute; reflexivity). vm_compute. discriminate.
Qed.

(** The read errors that are reported do stop the build: an error of the
    [DT_NEEDED] read or of the read of the ABI note, or of the [DT_SONAME]
    read after the clone, at a file [Create] has reached is what [Create]
    returns, after the rollback. *)
Lemma Create_read_errors {S : Type} `{FileCloneStrategy S} v (s : S) w d f wf obj e :
  reaches v s w d f wf ->
  OS.elf_Open f wf = Success obj ->
  (blacklisted f obj = Err e ->
   Create v s w = ((Remove v [] wf).1, Err e)) /\
  (forall w1,
     blacklisted f obj = Ok false ->
     Clone s f (Path.Join [volume_dir v d; Path.Base f]) wf = (w1, None) ->
     DynString obj DT_SONAME = Failure e ->
     Create v s w = ((Remove v [] w1).1, Err e)).
Proof.
  intros Hreach Hopen. split.
  - intros Hb. apply (reaches_Err v s w d f wf wf e Hreach).
    unfold create_file. now rewrite Hopen, Hb.
  - intros w1 Hb Hclone Hso. apply (reaches_Err v s w d f wf w1 e Hreach).
    unfold create_file. rewrite Hopen, Hb, Hclone. simpl in Hso |- *.
    now rewrite Hso.
Qed.

Lemma blacklisted_Err file obj e :
  blacklisted file obj = Err e ->
  (DynString obj DT_NEEDED = Failure e \/
   Section obj ".note.ABI-tag" = Some (Failure e)).
Proof.
  unfold blacklisted.
  destruct (Regexp.lib_FindStringSubmatch file) as [m1|]; [|discriminate].
  destruct (_ || _ || _).
  - destruct (DynString obj DT_NEEDED); [discriminate|]. intros [= ->]. now left.
  - destruct (String.eqb m1 "nvidia-tls"); [|discriminate].
    destruct (Section obj ".note.ABI-tag") as [[t|e']|]; try discriminate.
    + destruct (slice_from 24 t) as [u|]; [|discriminate].
      destruct (LittleEndian_Uint64 u); discriminate.
    + intros [= ->]. now right.
Qed.

Lemma Symlink_EEXIST f l w n :
  f <> EmptyString -> l <> EmptyString ->
  OS.first_bad (fs w) (OS.key_of l).1 [] (OS.key_of l).2 = None ->
  OS.entry (fs w) (OS.key_of l) = Some n ->
  OS.Symlink f l w =
  ({| fs := fs w; symlink_calls := symlink_calls w ++ [(f, l, false)];
      busy := busy w |},
   Some (LinkError "symlink" f l EEXIST)).
Proof.
  intros Hf Hl Hbad Hn. unfold OS.Symlink, OS.fresh_key.
  destruct (String.eqb_spec f EmptyString) as [->|_]; [congruence|].
  destruct (String.eqb_spec l EmptyString) as [->|_]; [congruence|].
  now rewrite Hbad, Hn.
Qed.

(** C2 (as the code has it): at a file [Create] has reached, cloned and
    found to declare a SONAME, a failure of either symlink creation with
    [EEXIST] is taken as success and the build goes on, and [EEXIST] is what
    the creation fails with whenever the link name is taken, by whatever
    entry; a failure with any other error makes [Create] return it, after
    the rollback. *)
Theorem Create_symlink_failures {S : Type} `{FileCloneStrategy S}
  (v : Volume) (s : S) (w : world) (d : volumeDir) (f : string)
  (wf w1 : world) (obj : elf_File) (soname0 : string) (rest : list string) :
  reaches v s w d f wf ->
  OS.elf_Open f wf = Success obj ->
  blacklisted f obj = Ok false ->
  Clone s f (Path.Join [volume_dir v d; Path.Base f]) wf = (w1, None) ->
  DynString obj DT_SONAME = Success (soname0 :: rest) ->
  let tgt := mount_target v d f in
  let l1 := Path.Join [volume_dir v d; soname0] in
  let l2 := Strings.Replace1 "GLX_nvidia" "GLX_indirect" l1 in
  (forall w2 e, OS.Symlink tgt l1 w1 = (w2, Some e) ->
     match LinkError_Err e with
     | Some EEXIST =>
         create_file v s d (volume_dir v d) f wf =
         if Strings.HasPrefix soname0 "libGLX_nvidia"
         then symlink_unless_exists tgt l2 w2 else (w2, Ok tt)
     | _ => Create v s w = ((Remove v [] w2).1, Err e)
     end) /\
  (forall w2 w3 e,
     symlink_unless_exists tgt l1 w1 = (w2, Ok tt) ->
     Strings.HasPrefix soname0 "libGLX_nvidia" = true ->
     OS.Symlink tgt l2 w2 = (w3, Some e) ->
     match LinkError_Err e with
     | Some EEXIST => create_file v s d (volume_dir v d) f wf = (w3, Ok tt)
     | _ => Create v s w = ((Remove v [] w3).1, Err e)
     end) /\
  (forall l w0 n,
     tgt <> EmptyString -> l <> EmptyString ->
     OS.first_bad (fs w0) (OS.key_of l).1 [] (OS.key_of l).2 = None ->
     OS.entry (fs w0) (OS.key_of l) = Some n ->
     exists w2, symlink_unless_exists tgt l w0 = (w2, Ok tt) /\ fs w2 = fs w0).
Proof.
  intros Hreach Hopen Hb Hclone Hso tgt l1 l2.
  assert (Hbody :
            create_file v s d (volume_dir v d) f wf =
            match symlink_unless_exists tgt l1 w1 with
            | (w2, Ok _) =>
                if Strings.HasPrefix soname0 "libGLX_nvidia"
                then symlink_unless_exists tgt l2 w2 else (w2, Ok tt)
            | r' => r'
            end).
  { unfold create_file. rewrite Hopen, Hb, Hclone.
    simpl in Hso. simpl DynString. rewrite Hso. reflexivity. }
  split; [|split].
  - intros w2 e Hs.
    destruct (Symlink_error _ _ _ _ _ Hs) as [n ->]. simpl.
    assert (Hstep : symlink_unless_exists tgt l1 w1 =
                    match n with
                    | EEXIST => (w2, Ok tt)
                    | _ => (w2, Err (LinkError "symlink" tgt l1 n))
                    end).
    { unfold symlink_unless_exists. rewrite Hs. simpl. now destruct n. }
    destruct n; try (apply (reaches_Err v s w d f wf _ _ Hreach);
                     rewrite Hbody, Hstep; reflexivity).
    rewrite Hbody, Hstep. reflexivity.
  - intros w2 w3 e H1 Hpre Hs.
    destruct (Symlink_error _ _ _ _ _ Hs) as [n ->]. simpl.
    assert (Hstep : symlink_unless_exists tgt l2 w2 =
                    match n with
                    | EEXIST => (w3, Ok tt)
                    | _ => (w3, Err (LinkError "symlink" tgt l2 n))
                    end).
    { unfold symlink_unless_exists. rewrite Hs. simpl. now destruct n. }
    destruct n; try (apply (reaches_Err v s w d f wf _ _ Hreach);
                     rewrite Hbody, H1, Hpre, Hstep; reflexivity).
    rewrite Hbody, H1, Hpre, Hstep. reflexivity.
  - intros l w0 n Htgt Hl Hbad Hn. eexists. split.
    + unfold symlink_unless_exists.
      rewrite (Symlink_EEXIST tgt l w0 n Htgt Hl Hbad Hn). reflexivity.
    + reflexivity.
Qed.

Lemma reaches_first_lib64 f :
  forall w : world,
  (OS.MkdirAll (VPath (volume_of [f])) w).2 = None ->
  (for_each (create_dir (volume_of [f]) mkLinkStrategy) (firstn 2 (dirs (volume_of [f])))
     (OS.MkdirAll (VPath (volume_of [f])) w).1).2 = Ok tt ->
  (OS.MkdirAll (volume_dir (volume_of [f]) (lib64_of (volume_of [f])))
     (for_each (create_dir (volume_of [f]) mkLinkStrategy)
        (firstn 2 (dirs (volume_of [f])))
        (OS.MkdirAll (VPath (volume_of [f])) w).1).1).2 = None ->
  reaches (volume_of [f]) mkLinkStrategy w (lib64_of (volume_of [f])) f
    (before_first_lib64 (volume_of [f]) mkLinkStrategy w).
Proof.
  intros w H1 H2 H3. unfold reaches, before_first_lib64.
  exists (OS.MkdirAll (VPath (volume_of [f])) w).1,
         (firstn 2 (dirs (volume_of [f]))), [],
         (for_each (create_dir (volume_of [f]) mkLinkStrategy)
            (firstn 2 (dirs (volume_of [f])))
            (OS.MkdirAll (VPath (volume_of [f])) w).1).1.
  eexists _, [], [].
  repeat split.
  - destruct (OS.MkdirAll _ w) as [w1 o]. simpl in *. now subst.
  - destruct (for_each _ _ _) as [wa r]. simpl in *. now subst.
  - destruct (OS.MkdirAll (volume_dir _ _) _) as [wb o]. simpl in *.
    subst. reflexivity.
Qed.

Lemma Create_symlink_failures_witness :
  create_file cuda_volume mkLinkStrategy (lib64_of cuda_volume)
    (volume_dir cuda_volume (lib64_of cuda_volume))
    "/usr/lib64/libcuda.so.390.12"
    (before_first_lib64 cuda_volume mkLinkStrategy stale_world)
  = ((OS.Symlink "/usr/local/nvidia/lib64/libcuda.so.390.12"
        "/var/nvidia_driver/390.12/lib64/libcuda.so.1"
        (OS.Link "/usr/lib64/libcuda.so.390.12"
           "/var/nvidia_driver/390.12/lib64/libcuda.so.390.12"
           (before_first_lib64 cuda_volume mkLinkStrategy stale_world)).1).1,
     Ok tt).
Proof.
  destruct (Create_symlink_failures cuda_volume mkLinkStrategy stale_world
              (lib64_of cuda_volume) "/usr/lib64/libcuda.so.390.12"
              (before_first_lib64 cuda_volume mkLinkStrategy stale_world)
              (OS.Link "/usr/lib64/libcuda.so.390.12"
                 "/var/nvidia_driver/390.12/lib64/libcuda.so.390.12"
                 (before_first_lib64 cuda_volume mkLinkStrategy stale_world)).1
              {| dt_needed := Success ["libc.so.6"];
                 dt_soname := Success ["libcuda.so.1"];
                 sections := [] |}
              "libcuda.so.1" [])
    as [Hfirst _].
  - apply (reaches_first_lib64 "/usr/lib64/libcuda.so.390.12" stale_world);
      vm_compute; reflexivity.
  - vm_compute. reflexivity.
  - vm_compute. reflexivity.
  - vm_compute. reflexivity.
  - reflexivity.
  - apply (Hfirst _ (LinkError "symlink" "/usr/local/nvidia/lib64/libcuda.so.390.12"
                       "/var/nvidia_driver/390.12/lib64/libcuda.so.1" EEXIST)).
    vm_compute. reflexivity.
Defined.

(** C2 as stated fails: a link [libcuda.so.1] left with another target is
    a conflicting link, yet [Create] succeeds and leaves it as it is. *)
Lemma Create_conflicting_link_counterexample :
  fs stale_world !! OS.key_of "/var/nvidia_driver/390.12/lib64/libcuda.so.1"
    = Some (Symlink "/usr/local/nvidia/lib64/libcuda.so.384.81") /\
  symlink_calls (Create cuda_volume mkLinkStrategy stale_world).1
    = [("/usr/local/nvidia/lib64/libcuda.so.390.12",
        "/var/nvidia_driver/390.12/lib64/libcuda.so.1", false)] /\
  (Create cuda_volume mkLinkStrategy stale_world).2 = Ok tt /\
  fs (Create cuda_volume mkLinkStrategy stale_world).1
    !! OS.key_of "/var/nvidia_driver/390.12/lib64/libcuda.so.1"
    = Some (Symlink "/usr/local/nvidia/lib64/libcuda.so.384.81").
Proof.
  repeat split; vm_compute; reflexivity.
Qed.

(** ** What the calls leave untouched *)

Section Frames.
Import OS.

Lemma MkdirAll_calls p w : symlink_calls (MkdirAll p w).1 = symlink_calls w.
Proof.
  unfold MkdirAll. destruct (String.eqb p EmptyString); [reflexivity|].
  now destruct (mkdir_all _ _ _ _) as [m [e|]].
Qed.

Lemma RemoveAll_calls p w : symlink_calls (RemoveAll p w).1 = symlink_calls w.
Proof.
  unfold RemoveAll. destruct (String.eqb p EmptyString); [reflexivity|].
  destruct (key_of p).2; [reflexivity|].
  destruct (first_bad _ _ _ _) as [[]|]; try reflexivity;
    now destruct (stuck w (key_of p)).
Qed.

Lemma Link_calls src dst w : symlink_calls (Link src dst w).1 = symlink_calls w.
Proof.
  unfold Link. destruct (String.eqb src EmptyString); [reflexivity|].
  destruct (first_bad _ _ _ _); [reflexivity|].
  destruct (entry _ _) as [[]|]; try reflexivity;
    now destruct (fresh_key _ _).
Qed.

Lemma Copy_calls src dst w : symlink_calls (Copy src dst w).1 = symlink_calls w.
Proof.
  unfold Copy. destruct (CopyImpl.open_read src w) as [[ks n]|e]; [|reflexivity].
  assert (Hc : symlink_calls (CopyImpl.create dst w).1 = symlink_calls w).
  { unfold CopyImpl.create. destruct (String.eqb dst EmptyString); [reflexivity|].
    destruct (resolve _ _ _) as [e|[k [[]|]]]; reflexivity. }
  destruct (CopyImpl.create dst w) as [w1 [[kd i]|e]]; simpl in *; [|exact Hc].
  destruct n; exact Hc.
Qed.

Lemma write_inode_lookup i f m k :
  CopyImpl.write_inode i f m !! k =
  match m !! k with
  | Some (File d) => if Nat.eqb (file_ino d) i then Some (File (f d)) else Some (File d)
  | o => o
  end.
Proof.
  unfold CopyImpl.write_inode. rewrite lookup_fmap.
  destruct (m !! k) as [[|d|t]|]; simpl; try reflexivity.
  now destruct (Nat.eqb (file_ino d) i).
Qed.

Lemma write_inode_dir i f m k :
  m !! k = Some Dir -> CopyImpl.write_inode i f m !! k = Some Dir.
Proof. intros Hk. now rewrite write_inode_lookup, Hk. Qed.

Lemma fresh_key_None m p k : fresh_key m p = inr k -> m !! k = None.
Proof.
  unfold fresh_key. destruct (String.eqb p EmptyString); [discriminate|].
  destruct (first_bad _ _ _ _); [discriminate|].
  destruct (entry m (key_of p)) eqn:He; [discriminate|].
  intros [= <-]. unfold entry in He.
  now destruct (key_of p).2.
Qed.

Lemma resolve_entry fuel m k0 k o :
  resolve fuel m k0 = inr (k, o) -> entry m k = o.
Proof.
  revert k0. induction fuel as [|fuel IH]; intros k0; simpl.
  - destruct (first_bad _ _ _ _); [discriminate|].
    destruct (entry m k0) as [[]|] eqn:He; try discriminate;
      intros [= <- <-]; exact He.
  - destruct (first_bad _ _ _ _); [discriminate|].
    destruct (entry m k0) as [[| |t]|] eqn:He;
      try (intros [= <- <-]; exact He).
    destruct (String.eqb t EmptyString); [discriminate|]. apply IH.
Qed.

Lemma Link_dirs src dst w k :
  fs w !! k = Some Dir -> fs (Link src dst w).1 !! k = Some Dir.
Proof.
  intros Hk. unfold Link. destruct (String.eqb src EmptyString); [exact Hk|].
  destruct (first_bad _ _ _ _); [exact Hk|].
  destruct (entry _ _) as [[]|]; try exact Hk;
    (destruct (fresh_key (fs w) dst) as [e|k'] eqn:Hf; [exact Hk|]; simpl;
     rewrite lookup_insert_ne; [exact Hk|];
     apply fresh_key_None in Hf; congruence).
Qed.

Lemma create_dirs dst w k :
  fs w !! k = Some Dir -> fs (CopyImpl.create dst w).1 !! k = Some Dir.
Proof.
  intros Hk. unfold CopyImpl.create.
  destruct (String.eqb dst EmptyString); [exact Hk|].
  destruct (resolve max_links (fs w) (key_of dst)) as [e|[k' o]] eqn:Hr; [exact Hk|].
  apply resolve_entry in Hr.
  assert (Hne : o <> Some Dir -> k' <> k).
  { intros Ho ->. apply Ho. rewrite <- Hr. unfold entry.
    destruct k.2; [reflexivity|exact Hk]. }
  destruct o as [[| |]|]; try exact Hk; simpl;
    try (rewrite lookup_insert_ne; [exact Hk|apply Hne; discriminate]).
  now apply write_inode_dir.
Qed.

Lemma Copy_dirs src dst w k :
  fs w !! k = Some Dir -> fs (Copy src dst w).1 !! k = Some Dir.
Proof.
  intros Hk. unfold Copy.
  destruct (CopyImpl.open_read src w) as [[ks n]|e]; [|exact Hk].
  pose proof (create_dirs dst w k Hk) as Hc.
  destruct (CopyImpl.create dst w) as [w1 [[kd i]|e]] eqn:Hcr; simpl in *; [|exact Hc].
  destruct n; try exact Hc. simpl. now apply write_inode_dir.
Qed.

End Frames.

#[export] Instance LinkStrategy_laws : CloneLaws LinkStrategy.
Proof.
  split; intros; simpl; [apply Link_calls|now apply Link_dirs].
Qed.

#[export] Instance LinkOrCopyStrategy_laws : CloneLaws LinkOrCopyStrategy.
Proof.
  split; intros s src dst w; simpl.
  - pose proof (Link_calls src dst w) as Hl.
    destruct (OS.Link src dst w) as [w1 [e|]]; simpl in *; [|exact Hl].
    now rewrite Copy_calls.
  - intros k Hk. pose proof (Link_dirs src dst w k Hk) as Hl.
    destruct (OS.Link src dst w) as [w1 [e|]]; simpl in *; [|exact Hl].
    now apply Copy_dirs.
Qed.

(** ** The symlink calls of a build *)

Section SymlinkCalls.
Context {S : Type} `{CloneLaws S}.

Lemma extends_calls_refl P w w' :
  symlink_calls w' = symlink_calls w -> extends_calls P w w'.
Proof. intros Heq. exists []. rewrite app_nil_r. split; [exact Heq|constructor]. Qed.

Lemma extends_calls_trans P w1 w2 w3 :
  extends_calls P w1 w2 -> extends_calls P w2 w3 -> extends_calls P w1 w3.
Proof.
  intros (c1 & H1 & F1) (c2 & H2 & F2). exists (c1 ++ c2).
  rewrite H2, H1, app_assoc. split; [reflexivity|]. now apply Forall_app.
Qed.

Lemma extends_calls_weaken (P Q : string * string * bool -> Prop) w w' :
  (forall c, P c -> Q c) -> extends_calls P w w' -> extends_calls Q w w'.
Proof.
  intros HPQ (c & Hc & F). exists c. split; [exact Hc|].
  eapply Forall_impl; eauto.
Qed.

Lemma symlink_unless_exists_calls f l w :
  exists b, symlink_calls (symlink_unless_exists f l w).1
            = symlink_calls w ++ [(f, l, b)].
Proof.
  unfold symlink_unless_exists, OS.Symlink.
  destruct (String.eqb f EmptyString); simpl; [eauto|].
  destruct (OS.fresh_key (fs w) l) as [[]|k]; simpl; eauto.
Qed.

Lemma symlink_unless_exists_extends f l w :
  extends_calls (fun c => c.1.1 = f) w (symlink_unless_exists f l w).1.
Proof.
  destruct (symlink_unless_exists_calls f l w) as [b Hb].
  exists [(f, l, b)]. split; [exact Hb|]. repeat constructor.
Qed.

Lemma create_file_extends v (s : S) d dir f w :
  extends_calls (fun c => c.1.1 = mount_target v d f) w
    (create_file v s d dir f w).1.
Proof.
  unfold create_file.
  destruct (OS.elf_Open f w) as [obj|e]; [|now apply extends_calls_refl].
  destruct (blacklisted f obj) as [[]| |]; try now apply extends_calls_refl.
  pose proof (clone_keeps_calls s f (Path.Join [dir; Path.Base f]) w) as Hc.
  destruct (Clone s f _ w) as [w1 [e|]]; simpl in Hc;
    [now apply extends_calls_refl|].
  destruct (DynString obj DT_SONAME) as [[|soname0 rest]|e];
    try now apply extends_calls_refl.
  fold (mount_target v d f).
  apply (extends_calls_trans _ w w1); [now apply extends_calls_refl|].
  pose proof (symlink_unless_exists_extends (mount_target v d f)
                (Path.Join [dir; soname0]) w1) as H1.
  destruct (symlink_unless_exists _ _ w1) as [w2 [[]| |]]; simpl in H1; try exact H1.
  destruct (Strings.HasPrefix soname0 "libGLX_nvidia"); [|exact H1].
  eapply extends_calls_trans; [exact H1|].
  apply symlink_unless_exists_extends.
Qed.

Lemma for_each_extends {A} (P : string * string * bool -> Prop)
  (body : A -> world -> world * outcome unit) l w :
  (forall x w0, In x l -> extends_calls P w0 (body x w0).1) ->
  extends_calls P w (for_each body l w).1.
Proof.
  revert w. induction l as [|x l IH]; intros w Hbody; simpl.
  - now apply extends_calls_refl.
  - pose proof (Hbody x w (or_introl eq_refl)) as Hx.
    destruct (body x w) as [w1 [[]| |]]; simpl in Hx; try exact Hx.
    eapply extends_calls_trans; [exact Hx|].
    apply IH. intros y w0 Hy. apply Hbody. now right.
Qed.

Lemma create_dir_extends v (s : S) d w :
  extends_calls (fun c => exists f, In f (vd_files d) /\ c.1.1 = mount_target v d f)
    w (create_dir v s d w).1.
Proof.
  unfold create_dir.
  pose proof (MkdirAll_calls (Path.Join [VPath v; Version v; vd_name d]) w) as Hm.
  destruct (OS.MkdirAll _ w) as [w1 [e|]]; simpl in Hm;
    [now apply extends_calls_refl|].
  apply (extends_calls_trans _ w w1); [now apply extends_calls_refl|].
  apply for_each_extends. intros f w0 Hf.
  eapply extends_calls_weaken; [|apply create_file_extends].
  intros c Hc. eauto.
Qed.

Lemma Create_extends v (s : S) w :
  extends_calls
    (fun c => exists d f, In d (dirs v) /\ In f (vd_files d) /\
                          c.1.1 = mount_target v d f)
    w (Create v s w).1.
Proof.
  unfold Create.
  pose proof (MkdirAll_calls (VPath v) w) as Hm.
  destruct (OS.MkdirAll (VPath v) w) as [w1 [e|]]; simpl in Hm;
    [now apply extends_calls_refl|].
  apply (extends_calls_trans _ w w1); [now apply extends_calls_refl|].
  assert (Hloop : extends_calls
            (fun c => exists d f, In d (dirs v) /\ In f (vd_files d) /\
                                  c.1.1 = mount_target v d f)
            w1 (for_each (create_dir v s) (dirs v) w1).1).
  { apply for_each_extends. intros d w0 Hd.
    eapply extends_calls_weaken; [|apply create_dir_extends].
    intros c (f & Hf & Hc). eauto. }
  destruct (for_each (create_dir v s) (dirs v) w1) as [w2 [[]|e|]]; simpl in *;
    try exact Hloop.
  eapply extends_calls_trans; [exact Hloop|].
  apply extends_calls_refl. unfold Remove. apply RemoveAll_calls.
Qed.

(** A symlink step that succeeds made the link, with the target as given,
    or found the name taken and changed nothing. *)
Lemma symlink_unless_exists_Ok f l w w1 :
  symlink_unless_exists f l w = (w1, Ok tt) ->
  exists b,
    symlink_calls w1 = symlink_calls w ++ [(f, l, b)] /\
    if b then exists k, OS.fresh_key (fs w) l = inr k /\
                        fs w1 = <[k := Symlink f]> (fs w)
    else fs w1 = fs w.
Proof.
  unfold symlink_unless_exists, OS.Symlink.
  destruct (String.eqb f EmptyString); simpl; [discriminate|].
  destruct (OS.fresh_key (fs w) l) as [n|k]; simpl.
  - destruct n; try discriminate. intros [= <-]. exists false. auto.
  - intros [= <-]. exists true. eauto.
Qed.

End SymlinkCalls.

(** C6 (as the code has it): in a successful [Create], every symlink call
    issued has as target [Mountpoint/categoryDirName/baseName] of a file of
    the volume, a value in which the build path does not occur; for a file
    that is cloned and declares a SONAME, the calls issued are one for the
    link [dir/SONAME] and, when the SONAME starts with [libGLX_nvidia], a
    second one for that link path with [GLX_nvidia] replaced by
    [GLX_indirect], both with that target; and each call either creates the
    link with that target or finds the name taken and creates nothing. *)
Theorem Create_symlinks {S : Type} `{CloneLaws S} (v : Volume) (s : S)
  (w w' : world) :
  Create v s w = (w', Ok tt) ->
  extends_calls
    (fun c => exists d f, In d (dirs v) /\ In f (vd_files d) /\
                          c.1.1 = Path.Join [Mountpoint (info v); vd_name d; Path.Base f])
    w w' /\
  (forall d f wf obj soname0 rest,
     reaches v s w d f wf ->
     OS.elf_Open f wf = Success obj ->
     blacklisted f obj = Ok false ->
     DynString obj DT_SONAME = Success (soname0 :: rest) ->
     let tgt := Path.Join [Mountpoint (info v); vd_name d; Path.Base f] in
     let l1 := Path.Join [volume_dir v d; soname0] in
     let l2 := Strings.Replace1 "GLX_nvidia" "GLX_indirect" l1 in
     exists wf' b1 b2,
       create_file v s d (volume_dir v d) f wf = (wf', Ok tt) /\
       symlink_calls wf' =
       symlink_calls wf ++
       (tgt, l1, b1) :: (if Strings.HasPrefix soname0 "libGLX_nvidia"
                         then [(tgt, l2, b2)] else [])) /\
  (forall tgt l w0 w1,
     symlink_unless_exists tgt l w0 = (w1, Ok tt) ->
     exists b,
       symlink_calls w1 = symlink_calls w0 ++ [(tgt, l, b)] /\
       if b then exists k, OS.fresh_key (fs w0) l = inr k /\
                           fs w1 = <[k := Symlink tgt]> (fs w0)
       else fs w1 = fs w0).
Proof.
  intros HCreate. split; [|split].
  - pose proof (Create_extends v s w) as He. now rewrite HCreate in He.
  - intros d f wf obj soname0 rest Hreach Hopen Hb Hso tgt l1 l2.
    destruct (create_file v s d (volume_dir v d) f wf) as [wf' r] eqn:Hbody.
    assert (Hr : r = Ok tt).
    { destruct r as [[]| |]; [reflexivity| |];
        rewrite (reaches_stops v s w d f wf wf' _ Hreach Hbody) in HCreate;
        discriminate. }
    subst r. unfold create_file in Hbody. rewrite Hopen, Hb in Hbody.
    pose proof (clone_keeps_calls s f (Path.Join [volume_dir v d; Path.Base f]) wf)
      as Hc.
    destruct (Clone s f _ wf) as [w1 [e|]]; [discriminate|]. simpl in Hc.
    simpl in Hso. simpl DynString in Hbody. rewrite Hso in Hbody.
    fold tgt l1 in Hbody.
    destruct (symlink_unless_exists tgt l1 w1) as [w2 [[]| |]] eqn:H1;
      try discriminate.
    apply symlink_unless_exists_Ok in H1 as (b1 & Hc1 & _).
    destruct (Strings.HasPrefix soname0 "libGLX_nvidia").
    + fold l2 in Hbody.
      apply symlink_unless_exists_Ok in Hbody as (b2 & Hc2 & _).
      exists wf', b1, b2. split; [reflexivity|].
      rewrite Hc2, Hc1, Hc, <- app_assoc. reflexivity.
    + injection Hbody as <-. exists w2, b1, false. split; [reflexivity|].
      now rewrite Hc1, Hc.
  - intros tgt l w0 w1. apply symlink_unless_exists_Ok.
Qed.

Lemma Create_symlinks_witness :
  extends_calls
    (fun c => exists d f, In d (dirs cuda_volume) /\ In f (vd_files d) /\
                c.1.1 = Path.Join [Mountpoint (info cuda_volume); vd_name d; Path.Base f])
    host_world (Create cuda_volume mkLinkStrategy host_world).1.
Proof.
  apply (Create_symlinks cuda_volume mkLinkStrategy host_world
           (Create cuda_volume mkLinkStrategy host_world).1).
  vm_compute. reflexivity.
Defined.

(** C6 as stated fails: for a GLX vendor library whose file name is its
    SONAME, the clone already has the name of the SONAME link; the first
    symlink call finds it taken and only one symbolic link, the indirect
    one, is created. *)
Lemma Create_glx_one_symlink_counterexample :
  OS.elf_Open "/usr/lib64/libGLX_nvidia.so.0" host_world
    = Success {| dt_needed := Success ["libc.so.6"];
                 dt_soname := Success ["libGLX_nvidia.so.0"];
                 sections := [] |} /\
  Strings.HasPrefix "libGLX_nvidia.so.0" "libGLX_nvidia" = true /\
  (Create glx_volume mkLinkStrategy host_world).2 = Ok tt /\
  symlink_calls (Create glx_volume mkLinkStrategy host_world).1
    = [("/usr/local/nvidia/lib64/libGLX_nvidia.so.0",
        "/var/nvidia_driver/390.12/lib64/libGLX_nvidia.so.0", false);
       ("/usr/local/nvidia/lib64/libGLX_nvidia.so.0",
        "/var/nvidia_driver/390.12/lib64/libGLX_indirect.so.0", true)] /\
  count_symlinks (fs host_world) = 0%nat /\
  count_symlinks (fs (Create glx_volume mkLinkStrategy host_world).1) = 1%nat /\
  fs (Create glx_volume mkLinkStrategy host_world).1
    !! OS.key_of "/var/nvidia_driver/390.12/lib64/libGLX_nvidia.so.0"
    = Some (elf_lib 2 ["libGLX_nvidia.so.0"] ["libc.so.6"] []).
Proof.
  repeat split; vm_compute; reflexivity.
Qed.

(** ** Directories through a build *)

Section Dirs.
Import OS.

Lemma keeps_dirs_refl m : keeps_dirs m m.
Proof. intros k Hk. exact Hk. Qed.

Lemma keeps_dirs_trans m1 m2 m3 :
  keeps_dirs m1 m2 -> keeps_dirs m2 m3 -> keeps_dirs m1 m3.
Proof. intros H1 H2 k Hk. auto. Qed.

Lemma mkdir_all_keeps m r pre rest :
  keeps_dirs m (mkdir_all m r pre rest).1.
Proof.
  revert m pre. induction rest as [|c rest IH]; intros m pre; simpl.
  - apply keeps_dirs_refl.
  - destruct (m !! (r, pre ++ [c])) as [[]|] eqn:Hc; try apply keeps_dirs_refl.
    + apply IH.
    + eapply keeps_dirs_trans; [|apply IH].
      intros k Hk. rewrite lookup_insert_ne; [exact Hk|congruence].
Qed.

(** After a successful [MkdirAll] the path and its ancestors are
    directories. *)
Lemma mkdir_all_made m r pre rest m' q :
  mkdir_all m r pre rest = (m', None) ->
  q `prefix_of` rest -> q <> [] ->
  m' !! (r, pre ++ q) = Some Dir.
Proof.
  revert m pre q. induction rest as [|c rest IH]; intros m pre q; simpl.
  - intros _ Hq Hne. apply prefix_nil_inv in Hq. congruence.
  - intros Hm Hq Hne. destruct q as [|c' q]; [congruence|].
    apply prefix_cons_inv_1 in Hq as Hc. subst c'.
    apply prefix_cons_inv_2 in Hq.
    assert (Hstep : forall m0, m0 !! (r, pre ++ [c]) = Some Dir ->
              mkdir_all m0 r (pre ++ [c]) rest = (m', None) ->
              m' !! (r, pre ++ c :: q) = Some Dir).
    { intros m0 H0 Hrec. destruct q as [|c2 q].
      - pose proof (mkdir_all_keeps m0 r (pre ++ [c]) rest (r, pre ++ [c]) H0) as Hk.
        now rewrite Hrec in Hk.
      - replace (pre ++ c :: c2 :: q) with ((pre ++ [c]) ++ c2 :: q)
          by now rewrite <- app_assoc.
        apply (IH m0); [exact Hrec|exact Hq|discriminate]. }
    destruct (m !! (r, pre ++ [c])) as [[]|] eqn:Hc; try discriminate.
    + apply (Hstep m); auto.
    + apply (Hstep (<[(r, pre ++ [c]) := Dir]> m)); [apply lookup_insert_eq|exact Hm].
Qed.

Lemma MkdirAll_keeps p w : keeps_dirs (fs w) (fs (MkdirAll p w).1).
Proof.
  unfold MkdirAll. destruct (String.eqb p EmptyString); [apply keeps_dirs_refl|].
  pose proof (mkdir_all_keeps (fs w) (key_of p).1 [] (key_of p).2) as Hk.
  destruct (mkdir_all _ _ _ _) as [m [e|]]; exact Hk.
Qed.

Lemma MkdirAll_made p w w1 q :
  MkdirAll p w = (w1, None) ->
  q `prefix_of` (key_of p).2 -> q <> [] ->
  fs w1 !! ((key_of p).1, q) = Some Dir.
Proof.
  unfold MkdirAll. destruct (String.eqb p EmptyString); [discriminate|].
  destruct (mkdir_all _ _ _ _) as [m [e|]] eqn:Hm; [discriminate|].
  intros [= <-] Hq Hne. simpl.
  apply (mkdir_all_made _ _ [] _ _ q Hm Hq Hne).
Qed.

Lemma Symlink_keeps f l w : keeps_dirs (fs w) (fs (Symlink f l w).1).
Proof.
  unfold Symlink. destruct (String.eqb f EmptyString); [apply keeps_dirs_refl|].
  destruct (fresh_key (fs w) l) as [e|k] eqn:Hf; simpl; [apply keeps_dirs_refl|].
  intros k' Hk'. apply fresh_key_None in Hf.
  rewrite lookup_insert_ne; [exact Hk'|congruence].
Qed.

Lemma symlink_unless_exists_keeps f l w :
  keeps_dirs (fs w) (fs (symlink_unless_exists f l w).1).
Proof.
  unfold symlink_unless_exists. pose proof (Symlink_keeps f l w) as Hk.
  destruct (Symlink f l w) as [w1 [e|]]; [|exact Hk].
  destruct (LinkError_Err e) as [[]|]; exact Hk.
Qed.

Lemma for_each_keeps {A} (body : A -> world -> world * outcome unit) l w :
  (forall x w0, keeps_dirs (fs w0) (fs (body x w0).1)) ->
  keeps_dirs (fs w) (fs (for_each body l w).1).
Proof.
  intros Hbody. revert w. induction l as [|x l IH]; intros w; simpl.
  - apply keeps_dirs_refl.
  - pose proof (Hbody x w) as Hx.
    destruct (body x w) as [w1 [[]| |]]; simpl in Hx; try exact Hx.
    eapply keeps_dirs_trans; [exact Hx|apply IH].
Qed.

Context {S : Type} `{CloneLaws S}.

Lemma create_file_keeps v (s : S) d dir f w :
  keeps_dirs (fs w) (fs (create_file v s d dir f w).1).
Proof.
  unfold create_file.
  destruct (elf_Open f w) as [obj|e]; [|apply keeps_dirs_refl].
  destruct (blacklisted f obj) as [[]| |]; try apply keeps_dirs_refl.
  assert (Hc : keeps_dirs (fs w) (fs (Clone s f (Path.Join [dir; Path.Base f]) w).1)).
  { intros k Hk. now apply clone_keeps_dirs. }
  destruct (Clone s f _ w) as [w1 [e|]]; simpl in Hc; [exact Hc|].
  destruct (DynString obj DT_SONAME) as [[|soname0 rest]|e]; try exact Hc.
  eapply keeps_dirs_trans; [exact Hc|].
  pose proof (symlink_unless_exists_keeps
                (Path.Join [Mountpoint (info v); vd_name d; Path.Base f])
                (Path.Join [dir; soname0]) w1) as H1.
  destruct (symlink_unless_exists _ _ w1) as [w2 [[]| |]]; simpl in H1; try exact H1.
  destruct (Strings.HasPrefix soname0 "libGLX_nvidia"); [|exact H1].
  eapply keeps_dirs_trans; [exact H1|apply symlink_unless_exists_keeps].
Qed.

Lemma create_dir_keeps v (s : S) d w :
  keeps_dirs (fs w) (fs (create_dir v s d w).1).
Proof.
  unfold create_dir.
  pose proof (MkdirAll_keeps (Path.Join [VPath v; Version v; vd_name d]) w) as Hm.
  destruct (MkdirAll _ w) as [w1 [e|]]; simpl in Hm; [exact Hm|].
  eapply keeps_dirs_trans; [exact Hm|].
  apply for_each_keeps. intros f w0. apply create_file_keeps.
Qed.

Lemma create_dirs_keep v (s : S) ds w :
  keeps_dirs (fs w) (fs (for_each (create_dir v s) ds w).1).
Proof. apply for_each_keeps. intros d w0. apply create_dir_keeps. Qed.

End Dirs.

(** ** Removal and lookup *)

Section Removal.
Import OS.

Lemma RemoveAll_lookup p w k :
  p <> EmptyString ->
  fs (RemoveAll p w).1 !! k =
  if under (key_of p) k && negb (stuck w k) then None else fs w !! k.
Proof.
  intros Hp. unfold RemoveAll.
  destruct (String.eqb_spec p EmptyString) as [->|_]; [congruence|].
  assert (Hf : filter (fun kv : key * node =>
                         under (key_of p) kv.1 && negb (stuck w kv.1) = false) (fs w) !! k
               = if under (key_of p) k && negb (stuck w k) then None else fs w !! k).
  { destruct (under (key_of p) k && negb (stuck w k)) eqn:Hu.
    - apply map_lookup_filter_None. right. intros x _. simpl. congruence.
    - destruct (fs w !! k) as [x|] eqn:Hk.
      + apply map_lookup_filter_Some. auto.
      + apply map_lookup_filter_None. now left. }
  destruct (key_of p).2; [exact Hf|].
  destruct (first_bad _ _ _ _) as [[]|]; try exact Hf;
    now destruct (stuck w (key_of p)).
Qed.

(** What lies outside the path is not touched, whether the removal
    succeeds or not. *)
Lemma RemoveAll_other p w k :
  under (key_of p) k = false -> fs (RemoveAll p w).1 !! k = fs w !! k.
Proof.
  intros Hu. destruct (String.eqb_spec p EmptyString) as [->|Hp].
  - reflexivity.
  - now rewrite RemoveAll_lookup, Hu by exact Hp.
Qed.

Lemma under_trans a b c : under a b = true -> under b c = true -> under a c = true.
Proof.
  unfold under. rewrite !andb_true_iff, !bool_decide_eq_true.
  intros [H1 H2] [H3 H4]. split; [congruence|]. now transitivity b.2.
Qed.

Lemma stuck_up w a b : under a b = true -> stuck w b = true -> stuck w a = true.
Proof.
  intros Hab. unfold stuck. rewrite !existsb_exists.
  intros (x & Hin & Hx). exists x. split; [exact Hin|].
  apply andb_true_iff in Hx as [Hbx Hex].
  now rewrite (under_trans a b x Hab Hbx), Hex.
Qed.

(** A removal that reports no error: the path was no root, it did not run
    through a non-directory, and nothing at or below it was in use. *)
Lemma RemoveAll_None_inv p w :
  p <> EmptyString -> (RemoveAll p w).2 = None ->
  (key_of p).2 <> [] /\
  first_bad (fs w) (key_of p).1 [] (key_of p).2 <> Some ENOTDIR /\
  stuck w (key_of p) = false.
Proof.
  intros Hp. unfold RemoveAll.
  destruct (String.eqb_spec p EmptyString) as [->|_]; [congruence|].
  destruct (key_of p).2 eqn:Hk; [discriminate|].
  destruct (first_bad _ _ _ _) as [[]|];
    destruct (stuck w (key_of p)); try discriminate; intros _;
    repeat split; discriminate.
Qed.

Lemma RemoveAll_removed p w k :
  p <> EmptyString -> (RemoveAll p w).2 = None ->
  under (key_of p) k = true -> fs (RemoveAll p w).1 !! k = None.
Proof.
  intros Hp Hnone Hu. rewrite RemoveAll_lookup, Hu by exact Hp.
  destruct (RemoveAll_None_inv p w Hp Hnone) as (_ & _ & Hs).
  destruct (stuck w k) eqn:Hk; [|reflexivity].
  now rewrite (stuck_up w _ _ Hu Hk) in Hs.
Qed.

Lemma first_bad_None m r pre rest :
  (forall q, q `prefix_of` rest -> q <> [] -> q <> rest ->
             m !! (r, pre ++ q) = Some Dir) ->
  first_bad m r pre rest = None.
Proof.
  revert pre. induction rest as [|c rest IH]; intros pre Hall; simpl.
  - reflexivity.
  - destruct rest as [|c2 rest]; [reflexivity|].
    rewrite (Hall [c]); [| |discriminate|discriminate].
    + apply IH. intros q Hq Hne Hneq.
      rewrite <- app_assoc. simpl. apply Hall.
      * now apply prefix_cons.
      * discriminate.
      * congruence.
    + exists (c2 :: rest). reflexivity.
Qed.

Lemma Stat_absent p w :
  p <> EmptyString ->
  (key_of p).2 <> [] ->
  first_bad (fs w) (key_of p).1 [] (key_of p).2 = None ->
  fs w !! key_of p = None ->
  Stat p w = Failure (PathError "stat" p ENOENT).
Proof.
  intros Hp Hroot Hbad Hk. unfold Stat.
  destruct (String.eqb_spec p EmptyString) as [->|_]; [congruence|].
  unfold max_links. cbn [resolve]. rewrite Hbad.
  unfold entry. destruct (key_of p) as [r cs] eqn:Hkey. simpl in *.
  destruct cs; [congruence|]. now rewrite Hk.
Qed.

End Removal.

(** ** Lexical paths *)

Section PathFacts.
Import Strings Path.

Lemma fields_nonempty sep s : fields sep s <> [].
Proof.
  destruct s as [|c s]; simpl; [discriminate|].
  destruct (Ascii.eqb c sep); [discriminate|].
  destruct (fields sep s); discriminate.
Qed.

Lemma fields_no_slash s : no_slash s = true -> fields slash s = [s].
Proof.
  unfold no_slash. induction s as [|c s IH]; simpl; [reflexivity|].
  intros Hs. apply andb_true_iff in Hs as [Hc Hs].
  apply negb_true_iff in Hc. rewrite Hc, (IH Hs). reflexivity.
Qed.

Lemma fields_app_slash a b :
  fields slash (a +:+ String slash b) = fields slash a ++ fields slash b.
Proof.
  induction a as [|c a IH].
  - reflexivity.
  - change (String c a +:+ String slash b) with (String c (a +:+ String slash b)).
    cbn [fields]. rewrite IH.
    destruct (Ascii.eqb c slash); [reflexivity|].
    pose proof (fields_nonempty slash a) as Hne.
    destruct (fields slash a) as [|w ws]; [congruence|reflexivity].
Qed.

Lemma fields_slash_free s : Forall (fun c => no_slash c = true) (fields slash s).
Proof.
  induction s as [|c s IH]; simpl.
  - repeat constructor.
  - destruct (Ascii.eqb c slash) eqn:Hc.
    + constructor; [reflexivity|exact IH].
    + destruct (fields slash s) as [|w ws].
      * constructor; [|constructor]. unfold no_slash. simpl. now rewrite Hc.
      * inversion IH as [|? ? Hw Hws]; subst.
        constructor; [|exact Hws]. unfold no_slash in *. simpl. now rewrite Hc, Hw.
Qed.

Lemma IsAbs_app a x : a <> EmptyString -> IsAbs (a +:+ x) = IsAbs a.
Proof. destruct a; [congruence|reflexivity]. Qed.

Lemma kept_not_abs c : kept_element c -> IsAbs c = false.
Proof.
  intros (Hne & _ & Hs). destruct c as [|a c]; [congruence|].
  unfold no_slash in Hs. simpl in *. apply andb_true_iff in Hs as [Ha _].
  now apply negb_true_iff in Ha.
Qed.

Lemma plain_element_inv s :
  plain_element s = true ->
  s <> EmptyString /\ no_slash s = true /\ s <> "." /\ s <> "..".
Proof.
  unfold plain_element. rewrite !andb_true_iff, !negb_true_iff.
  intros [[[H1 H2] H3] H4].
  repeat split; auto; intros ->; discriminate.
Qed.

Lemma clean_step_plain r st c :
  plain_element c = true -> clean_step r st c = c :: st.
Proof.
  intros Hc. apply plain_element_inv in Hc as (H1 & _ & H3 & H4).
  unfold clean_step.
  destruct (String.eqb_spec c EmptyString); [congruence|].
  destruct (String.eqb_spec c "."); [congruence|].
  destruct (String.eqb_spec c ".."); [congruence|]. reflexivity.
Qed.

Lemma clean_comps_child r a b :
  plain_element b = true ->
  clean_comps r (a +:+ String slash b) = clean_comps r a ++ [b].
Proof.
  intros Hb. unfold clean_comps. rewrite fields_app_slash, fold_left_app.
  rewrite fields_no_slash by (apply plain_element_inv in Hb; tauto).
  simpl. now rewrite clean_step_plain by exact Hb.
Qed.

Lemma clean_comps_trailing_slash r a :
  clean_comps r (a +:+ String slash EmptyString) = clean_comps r a.
Proof.
  unfold clean_comps. rewrite fields_app_slash, fold_left_app. reflexivity.
Qed.

Lemma stack_ok_nil r : stack_ok r [].
Proof.
  split; [constructor|]. exists [], []. repeat split; auto; constructor.
Qed.

Lemma clean_step_ok r st c :
  no_slash c = true -> stack_ok r st -> stack_ok r (clean_step r st c).
Proof.
  intros Hc (Hkept & body & dd & Hst & Hbody & Hdd & Hr). unfold clean_step.
  destruct (String.eqb_spec c EmptyString) as [->|Hne];
    [simpl; split; eauto 10|].
  destruct (String.eqb_spec c ".") as [->|Hdot]; [simpl; split; eauto 10|].
  simpl.
  destruct (String.eqb_spec c "..") as [->|Hdd2].
  - destruct st as [|top rest].
    + destruct r.
      * apply stack_ok_nil.
      * split; [repeat constructor; discriminate|].
        exists [], [".."]. repeat split; auto; try constructor; auto; discriminate.
    + destruct (String.eqb_spec top "..") as [->|Htop].
      * destruct body as [|b body].
        -- simpl in Hst. subst dd. split.
           ++ constructor; [repeat split; discriminate|exact Hkept].
           ++ exists [], (".." :: ".." :: rest). repeat split; auto.
              intros Hr'. specialize (Hr Hr'). discriminate.
        -- simpl in Hst. injection Hst as <- _.
           inversion Hbody; subst. congruence.
      * destruct body as [|b body].
        -- simpl in Hst. subst dd. inversion Hdd; subst. congruence.
        -- simpl in Hst. injection Hst as <- ->.
           split; [now inversion Hkept|].
           exists body, dd. repeat split; auto. now inversion Hbody.
  - split.
    + constructor; [|exact Hkept]. repeat split; auto.
    + exists (c :: body), dd. subst st. repeat split; auto.
Qed.

Lemma fold_clean_ok r cs st :
  Forall (fun c => no_slash c = true) cs ->
  stack_ok r st ->
  stack_ok r (fold_left (clean_step r) cs st).
Proof.
  intros Hcs. revert st. induction Hcs as [|c cs Hc _ IH]; intros st Hst; simpl.
  - exact Hst.
  - apply IH. now apply clean_step_ok.
Qed.

Lemma fold_push r l st :
  Forall kept_element l -> Forall (fun c => c <> "..") l ->
  fold_left (clean_step r) l st = rev l ++ st.
Proof.
  intros Hk. revert st. induction Hk as [|c l (H1 & H2 & _) _ IH]; intros st Hd; simpl.
  - reflexivity.
  - inversion Hd as [|? ? Hc Hl]; subst. rewrite IH by exact Hl.
    unfold clean_step.
    destruct (String.eqb_spec c EmptyString); [congruence|].
    destruct (String.eqb_spec c "."); [congruence|].
    destruct (String.eqb_spec c ".."); [congruence|].
    simpl. now rewrite <- app_assoc.
Qed.

Lemma dotdots_snoc dd :
  Forall (fun c : string => c = "..") dd -> dd ++ [".."] = ".." :: dd.
Proof.
  intros Hdd. induction Hdd as [|c dd -> _ IH]; simpl; [reflexivity|].
  now rewrite IH.
Qed.

Lemma fold_dotdots dd st :
  Forall (fun c => c = "..") dd ->
  Forall (fun c => c = "..") st ->
  fold_left (clean_step false) dd st = dd ++ st.
Proof.
  intros Hdd. revert st. induction Hdd as [|c dd -> Hdd IH]; intros st Hst; simpl.
  - reflexivity.
  - assert (Hstep : clean_step false st ".." = ".." :: st).
    { destruct st as [|top rest]; [reflexivity|].
      inversion Hst; subst. reflexivity. }
    rewrite Hstep, IH by (constructor; auto).
    change (".." :: st) with ([".."] ++ st).
    now rewrite app_assoc, (dotdots_snoc dd Hdd).
Qed.

Lemma rev_dotdots dd : Forall (fun c : string => c = "..") dd -> rev dd = dd.
Proof.
  intros Hdd. induction Hdd as [|c dd -> Hdd IH]; simpl; [reflexivity|].
  now rewrite IH, dotdots_snoc.
Qed.

(** Walking the elements of a cleaned path again keeps them all. *)
Lemma refold r st :
  stack_ok r st -> fold_left (clean_step r) (rev st) [] = st.
Proof.
  intros (Hkept & body & dd & -> & Hbody & Hdd & Hr).
  rewrite rev_app_distr, fold_left_app, (rev_dotdots dd Hdd).
  apply Forall_app in Hkept as [Hkb Hkd].
  assert (Hd : fold_left (clean_step r) dd [] = dd).
  { destruct r.
    - now rewrite (Hr eq_refl).
    - rewrite fold_dotdots by auto. apply app_nil_r. }
  rewrite Hd, fold_push.
  - now rewrite rev_involutive.
  - apply Forall_rev. exact Hkb.
  - apply Forall_rev. exact Hbody.
Qed.

Lemma fields_Join cs :
  cs <> [] -> Forall (fun c => no_slash c = true) cs ->
  fields slash (Strings.Join cs "/") = cs.
Proof.
  intros Hne Hcs. induction Hcs as [|c cs Hc Hcs IH]; [congruence|].
  destruct cs as [|c2 cs].
  - simpl. now apply fields_no_slash.
  - change (Strings.Join (c :: c2 :: cs) "/")
      with (c +:+ String slash (Strings.Join (c2 :: cs) "/")).
    rewrite fields_app_slash, fields_no_slash by exact Hc.
    rewrite IH by discriminate. reflexivity.
Qed.

Lemma IsAbs_Join c cs : c <> EmptyString -> IsAbs (Strings.Join (c :: cs) "/") = IsAbs c.
Proof.
  intros Hc. destruct cs as [|c2 cs]; [reflexivity|].
  change (Strings.Join (c :: c2 :: cs) "/")
    with (c +:+ "/" +:+ Strings.Join (c2 :: cs) "/").
  now apply IsAbs_app.
Qed.

Lemma clean_stack_ok r s :
  stack_ok r (fold_left (clean_step r) (fields slash s) []).
Proof. apply fold_clean_ok; [apply fields_slash_free|apply stack_ok_nil]. Qed.

(** [path.Clean] is idempotent: a cleaned path has the key of the path. *)
Lemma key_of_Clean s : OS.key_of (Clean s) = OS.key_of s.
Proof.
  unfold OS.key_of, Clean.
  set (r := IsAbs s).
  pose proof (clean_stack_ok r s) as Hok.
  unfold clean_comps at 1 3 4.
  set (st := fold_left (clean_step r) (fields slash s) []) in *.
  assert (Hkept : Forall kept_element (rev st)) by (apply Forall_rev, Hok).
  assert (Hslash : Forall (fun c => no_slash c = true) (rev st)).
  { eapply Forall_impl; [exact Hkept|]. intros c Hc. apply Hc. }
  assert (Habs : IsAbs (render r (rev st)) = r).
  { unfold render. destruct (rev st) as [|c cs] eqn:Hrev.
    - now destruct r.
    - destruct r; [reflexivity|].
      change (EmptyString +:+ Strings.Join (c :: cs) "/")
        with (Strings.Join (c :: cs) "/").
      inversion Hkept as [|? ? Hc _]; subst.
      rewrite IsAbs_Join by apply Hc. now apply kept_not_abs. }
  rewrite Habs. f_equal. unfold clean_comps.
  assert (Hfold : fold_left (clean_step r) (fields slash (render r (rev st))) [] = st).
  { unfold render. destruct (rev st) as [|c cs] eqn:Hrev.
    - assert (st = []) as ->.
      { apply (f_equal (@rev string)) in Hrev. now rewrite rev_involutive in Hrev. }
      now destruct r.
    - rewrite <- Hrev in *. destruct r.
      + change ("/" +:+ Strings.Join (rev st) "/")
          with (EmptyString +:+ String slash (Strings.Join (rev st) "/")).
        rewrite fields_app_slash, fields_Join by (auto; rewrite Hrev; discriminate).
        simpl. now apply refold.
      + change (EmptyString +:+ Strings.Join (rev st) "/")
          with (Strings.Join (rev st) "/").
        rewrite fields_Join by (auto; rewrite Hrev; discriminate).
        now apply refold. }
  now rewrite Hfold.
Qed.

Lemma Clean_nonempty s : Clean s <> EmptyString.
Proof.
  unfold Clean, clean_comps.
  pose proof (clean_stack_ok (IsAbs s) s) as [Hkept _].
  apply Forall_rev in Hkept.
  destruct (rev _) as [|c cs]; [destruct (IsAbs s); discriminate|].
  unfold render. destruct (IsAbs s); [discriminate|].
  inversion Hkept as [|? ? (Hc & _) _]; subst.
  change (EmptyString +:+ Strings.Join (c :: cs) "/")
    with (Strings.Join (c :: cs) "/").
  destruct c as [|a c]; [congruence|]. destruct cs; discriminate.
Qed.

End PathFacts.

(** ** Path resolution; pairs *)

Lemma resolve_direct fuel m k :
  OS.first_bad m k.1 [] k.2 = None ->
  (forall t, OS.entry m k <> Some (Symlink t)) ->
  OS.resolve fuel m k = inr (k, OS.entry m k).
Proof.
  intros Hbad Hlink.
  destruct fuel; simpl; rewrite Hbad;
    destruct (OS.entry m k) as [[| |t]|] eqn:He; try reflexivity;
    now destruct (Hlink t).
Qed.

Lemma resolve_bad fuel m k e :
  OS.first_bad m k.1 [] k.2 = Some e -> OS.resolve fuel m k = inl e.
Proof. intros Hbad. destruct fuel; simpl; now rewrite Hbad. Qed.

Lemma pair_snd_eq {A B : Type} (x : A * B) (b : B) : x.2 = b -> x = (x.1, b).
Proof. destruct x. simpl. now intros ->. Qed.

Lemma triple_snd_eq {A B C : Type} (x : A * (B * C)) (c : C) :
  x.2.2 = c -> x = (x.1, (x.2.1, c)).
Proof. destruct x as [a [b c']]. simpl. now intros ->. Qed.

(** ** The version tree *)

Section VersionTree.
Import OS.

Lemma Join_pair a b :
  a <> EmptyString -> Path.Join [a; b] = Path.Clean (a +:+ String Path.slash b).
Proof.
  intros Ha. unfold Path.Join. simpl.
  destruct (String.eqb_spec a EmptyString); [congruence|reflexivity].
Qed.

Lemma key_of_child a b :
  a <> EmptyString -> plain_element b = true ->
  key_of (Path.Join [a; b]) = ((key_of a).1, (key_of a).2 ++ [b]).
Proof.
  intros Ha Hb. rewrite Join_pair, key_of_Clean by exact Ha.
  unfold key_of. rewrite IsAbs_app by exact Ha. simpl.
  now rewrite clean_comps_child.
Qed.

Lemma key_of_self a :
  a <> EmptyString -> key_of (Path.Join [a; EmptyString]) = key_of a.
Proof.
  intros Ha. rewrite Join_pair, key_of_Clean by exact Ha.
  unfold key_of. rewrite IsAbs_app by exact Ha.
  now rewrite clean_comps_trailing_slash.
Qed.

(** [path.Join(a, ".")] is [a]: the dot is dropped by [path.Clean]. *)
Lemma key_of_dot a :
  a <> EmptyString -> key_of (Path.Join [a; "."]) = key_of a.
Proof.
  intros Ha. rewrite Join_pair, key_of_Clean by exact Ha.
  unfold key_of. rewrite IsAbs_app by exact Ha.
  unfold Path.clean_comps. rewrite fields_app_slash, fold_left_app. reflexivity.
Qed.

Lemma Join_pair_nonempty a b : a <> EmptyString -> Path.Join [a; b] <> EmptyString.
Proof. intros Ha. rewrite Join_pair by exact Ha. apply Clean_nonempty. Qed.

Lemma MkdirAll_nonempty p w : (MkdirAll p w).2 = None -> p <> EmptyString.
Proof. intros Hm ->. discriminate. Qed.

Lemma prefix_snoc_proper (q cs : list string) x :
  q `prefix_of` cs ++ [x] -> q <> cs ++ [x] -> q `prefix_of` cs.
Proof.
  intros [k Hk] Hne. destruct k as [|y k _] using rev_ind.
  - rewrite app_nil_r in Hk. congruence.
  - rewrite app_assoc in Hk. apply app_inj_tail in Hk as [-> _].
    now exists k.
Qed.

Lemma under_self k : under k k = true.
Proof.
  unfold under. rewrite !bool_decide_eq_true_2; [reflexivity| |]; reflexivity.
Qed.

Lemma under_proper_prefix r (q cs : list string) :
  q `prefix_of` cs -> q <> cs -> under (r, cs) (r, q) = false.
Proof.
  intros Hq Hne. unfold under. simpl.
  rewrite (bool_decide_eq_false_2 (cs `prefix_of` q)); [apply andb_false_r|].
  intros Hcs. apply Hne. now apply (anti_symm prefix).
Qed.

(** The walk over the ancestors stops for one of two reasons only. *)
Lemma first_bad_values m r pre rest e :
  first_bad m r pre rest = Some e -> e = ENOTDIR \/ e = ENOENT.
Proof.
  revert pre. induction rest as [|c rest IH]; intros pre; simpl; [discriminate|].
  destruct rest as [|c2 rest]; [discriminate|].
  destruct (m !! (r, pre ++ [c])) as [[]|]; try (intros [= <-]; auto).
  apply IH.
Qed.

(** The walk looks at the proper ancestors only. *)
Lemma first_bad_ext m m' r pre rest :
  (forall q, q `prefix_of` rest -> q <> [] -> q <> rest ->
             m !! (r, pre ++ q) = m' !! (r, pre ++ q)) ->
  first_bad m r pre rest = first_bad m' r pre rest.
Proof.
  revert pre. induction rest as [|c rest IH]; intros pre Hall; simpl; [reflexivity|].
  destruct rest as [|c2 rest]; [reflexivity|].
  rewrite <- (Hall [c]); [| |discriminate|discriminate].
  - destruct (m !! (r, pre ++ [c])) as [[]|]; try reflexivity.
    apply IH. intros q Hq Hne Hneq.
    rewrite <- app_assoc. simpl. apply Hall.
    + now apply prefix_cons.
    + discriminate.
    + congruence.
  - exists (c2 :: rest). reflexivity.
Qed.

(** After a removal that reported no error, [Stat] finds nothing under
    the path removed. *)
Lemma Stat_removed p w :
  p <> EmptyString -> (RemoveAll p w).2 = None ->
  Stat p (RemoveAll p w).1 = Failure (PathError "stat" p ENOENT).
Proof.
  intros Hp Hnone.
  destruct (RemoveAll_None_inv p w Hp Hnone) as (Hroot & Hbad & _).
  assert (Hsame : first_bad (fs (RemoveAll p w).1) (key_of p).1 [] (key_of p).2
                  = first_bad (fs w) (key_of p).1 [] (key_of p).2).
  { apply first_bad_ext. intros q Hq Hne Hneq. simpl. apply RemoveAll_other.
    replace (key_of p) with ((key_of p).1, (key_of p).2) at 1
      by now destruct (key_of p).
    now apply under_proper_prefix. }
  unfold Stat. destruct (String.eqb_spec p EmptyString); [congruence|].
  destruct (first_bad (fs w) (key_of p).1 [] (key_of p).2) as [e|] eqn:Hb.
  - rewrite (resolve_bad _ _ _ e) by exact Hsame.
    destruct (first_bad_values _ _ _ _ _ Hb) as [->| ->]; [congruence|reflexivity].
  - assert (He : entry (fs (RemoveAll p w).1) (key_of p) = None).
    { unfold entry. destruct (key_of p).2 eqn:Hk; [congruence|].
      apply RemoveAll_removed; auto using under_self. }
    rewrite resolve_direct, He; [reflexivity|exact Hsame|].
    intros t. rewrite He. discriminate.
Qed.

(** After a [Remove] that reported no error, [Exists] answers
    [(false, nil)]. *)
Lemma Exists_removed v w :
  (Remove v [] w).2 = None -> Exists v (Remove v [] w).1 = (false, None).
Proof.
  unfold Remove, Exists. intros Hnone.
  destruct (String.eqb_spec (Path.Join [VPath v; Version v]) EmptyString) as [Hp|Hp].
  - rewrite Hp. reflexivity.
  - now rewrite Stat_removed.
Qed.

(** A [Create] that fails after its first [MkdirAll]: the loop stopped in a
    world [w2] with the error, and the rollback ran [Remove] in it and
    dropped its result. *)
Lemma Create_Err_inv {S : Type} `{FileCloneStrategy S} v (s : S) w w' e :
  (MkdirAll (VPath v) w).2 = None ->
  Create v s w = (w', Err e) ->
  exists w2,
    for_each (create_dir v s) (dirs v) (MkdirAll (VPath v) w).1 = (w2, Err e) /\
    w' = (Remove v [] w2).1.
Proof.
  unfold Create. destruct (MkdirAll (VPath v) w) as [w1 o]. simpl.
  intros ->. destruct (for_each _ _ w1) as [w2 [[]|e'|]]; try discriminate.
  intros [= <- <-]. exists w2. split; reflexivity.
Qed.

Lemma Remove_other v w k :
  under (tree_key v) k = false -> fs (Remove v [] w).1 !! k = fs w !! k.
Proof. apply RemoveAll_other. Qed.

Lemma Remove_removed v w k :
  VPath v <> EmptyString -> (Remove v [] w).2 = None ->
  under (tree_key v) k = true -> fs (Remove v [] w).1 !! k = None.
Proof.
  intros Hp Hnone Hu. apply RemoveAll_removed; auto.
  now apply Join_pair_nonempty.
Qed.

Context {S : Type} `{CloneLaws S}.

(** The directories [MkdirAll(Path)] made are still there when the loop
    stops. *)
Lemma base_dirs_survive v (s : S) w w2 r q :
  (MkdirAll (VPath v) w).2 = None ->
  for_each (create_dir v s) (dirs v) (MkdirAll (VPath v) w).1 = (w2, r) ->
  q `prefix_of` (key_of (VPath v)).2 -> q <> [] ->
  fs w2 !! ((key_of (VPath v)).1, q) = Some Dir.
Proof.
  intros Hm Hloop Hq Hne.
  pose proof (create_dirs_keep v s (dirs v) (MkdirAll (VPath v) w).1) as Hk.
  rewrite Hloop in Hk. apply Hk.
  destruct (MkdirAll (VPath v) w) as [w1 o] eqn:Hmk. simpl in *. subst o.
  now apply (MkdirAll_made _ _ _ _ Hmk).
Qed.

End VersionTree.

(** C1 (as the code has it): when [Create] returns an error after its
    first [MkdirAll(Path)] succeeded, its loop stopped with that error in
    some world [w2] and the deferred function ran [Remove] there, dropping
    what it returned.  If that [Remove] reported no error, nothing is left
    at or below [Path/Version] and [Exists] returns [(false, nil)],
    whatever the version is. *)
Theorem Create_rollback {S : Type} `{FileCloneStrategy S} (v : Volume) (s : S)
  (w w' : world) (e : error) :
  (OS.MkdirAll (VPath v) w).2 = None ->
  Create v s w = (w', Err e) ->
  exists w2,
    for_each (create_dir v s) (dirs v) (OS.MkdirAll (VPath v) w).1 = (w2, Err e) /\
    w' = (Remove v [] w2).1 /\
    ((Remove v [] w2).2 = None ->
     (forall k, OS.under (tree_key v) k = true -> fs w' !! k = None) /\
     Exists v w' = (false, None)).
Proof.
  intros Hm HC.
  pose proof (MkdirAll_nonempty _ w Hm) as Hp.
  destruct (Create_Err_inv v s w w' e Hm HC) as (w2 & Hloop & ->).
  exists w2. split; [exact Hloop|]. split; [reflexivity|].
  intros Hnone. split.
  - intros k Hk. now apply Remove_removed.
  - now apply Exists_removed.
Qed.

Lemma Create_rollback_witness :
  (forall k, OS.under (tree_key twice_volume) k = true ->
     fs (Create twice_volume mkLinkStrategy host_world).1 !! k = None) /\
  Exists twice_volume (Create twice_volume mkLinkStrategy host_world).1 = (false, None).
Proof.
  destruct (Create_rollback twice_volume mkLinkStrategy host_world
              (Create twice_volume mkLinkStrategy host_world).1
              (LinkError "link" "/usr/lib64/libcuda.so.390.12"
                 "/var/nvidia_driver/390.12/lib64/libcuda.so.390.12" EEXIST))
    as (w2 & Hloop & _ & Hgone).
  - vm_compute. reflexivity.
  - apply pair_snd_eq. vm_compute. reflexivity.
  - apply Hgone.
    replace w2 with (w2, @Err unit (LinkError "link" "/usr/lib64/libcuda.so.390.12"
                       "/var/nvidia_driver/390.12/lib64/libcuda.so.390.12" EEXIST)).1
      by reflexivity.
    rewrite <- Hloop. vm_compute. reflexivity.
Defined.

(** C1 as stated fails, in two ways.  When the base path is a regular
    file, the first [MkdirAll] fails and [Create] returns before the
    rollback is deferred; [Stat] on the version tree then fails with
    [ENOTDIR], which is not "does not exist", and [Exists] returns true
    together with the error.  And when a directory of the tree is in use,
    the rollback cannot remove it, [Create] drops the error of [Remove], and
    the version tree is still there, with [Exists] returning [(true, nil)]. *)
Lemma Create_error_Exists_counterexample :
  ((Create file_volume mkLinkStrategy host_world).2
     = Err (PathError "mkdir" "/usr/lib64/libcuda.so.390.12" ENOTDIR) /\
   Exists file_volume (Create file_volume mkLinkStrategy host_world).1
     = (true, Some (PathError "stat" "/usr/lib64/libcuda.so.390.12/390.12" ENOTDIR)) /\
   (Exists file_volume (Create file_volume mkLinkStrategy host_world).1).1 <> false) /\
  ((OS.MkdirAll (VPath twice_volume) mounted_world).2 = None /\
   (Create twice_volume mkLinkStrategy mounted_world).2
     = Err (LinkError "link" "/usr/lib64/libcuda.so.390.12"
              "/var/nvidia_driver/390.12/lib64/libcuda.so.390.12" EEXIST) /\
   fs (Create twice_volume mkLinkStrategy mounted_world).1 !! tree_key twice_volume
     = Some Dir /\
   Exists twice_volume (Create twice_volume mkLinkStrategy mounted_world).1
     = (true, None)).
Proof.
  repeat split; try (vm_compute; reflexivity). vm_compute. discriminate.
Qed.

(** C10 (as the code has it): when [Create] fails after its first
    [MkdirAll(Path)] succeeded, the rollback touches nothing outside the
    tree at [path.Join(Path, Version)], and removes what is at or below it
    if the removal reports no error.  Whenever the base directory [Path] is
    outside that tree it is still a directory afterwards, and it is outside
    for every version that is a plain path element; with a version that is
    empty or [.] the tree is [Path] itself, and a removal without error
    removes it. *)
Theorem Create_rollback_keeps_base {S : Type} `{CloneLaws S} (v : Volume)
  (s : S) (w w' : world) (e : error) :
  (OS.MkdirAll (VPath v) w).2 = None ->
  Create v s w = (w', Err e) ->
  exists w2,
    for_each (create_dir v s) (dirs v) (OS.MkdirAll (VPath v) w).1 = (w2, Err e) /\
    w' = (Remove v [] w2).1 /\
    (forall k, OS.under (tree_key v) k = false -> fs w' !! k = fs w2 !! k) /\
    ((Remove v [] w2).2 = None ->
     forall k, OS.under (tree_key v) k = true -> fs w' !! k = None) /\
    (OS.under (tree_key v) (OS.key_of (VPath v)) = false ->
     OS.entry (fs w') (OS.key_of (VPath v)) = Some Dir) /\
    (plain_element (Version v) = true ->
     OS.under (tree_key v) (OS.key_of (VPath v)) = false) /\
    (Version v = EmptyString \/ Version v = "." ->
     tree_key v = OS.key_of (VPath v) /\
     ((Remove v [] w2).2 = None -> (OS.key_of (VPath v)).2 <> [] ->
      fs w' !! OS.key_of (VPath v) = None)).
Proof.
  intros Hm HC.
  pose proof (MkdirAll_nonempty _ w Hm) as Hp.
  destruct (Create_Err_inv v s w w' e Hm HC) as (w2 & Hloop & ->).
  exists w2. split; [exact Hloop|]. split; [reflexivity|].
  split; [intros k; apply Remove_other|].
  split; [intros Hnone k; now apply Remove_removed|]. split; [|split].
  - intros Hu.
    unfold OS.entry. destruct (OS.key_of (VPath v)) as [r cs] eqn:Hkey. simpl.
    destruct cs as [|c cs]; [reflexivity|].
    rewrite Remove_other by exact Hu.
    pose proof (base_dirs_survive v s w w2 (Err e) (c :: cs) Hm Hloop) as Hd.
    rewrite Hkey in Hd. simpl in Hd. apply Hd; [reflexivity|discriminate].
  - intros Hv.
    unfold tree_key. rewrite key_of_child by assumption.
    replace (OS.key_of (VPath v)) with ((OS.key_of (VPath v)).1, (OS.key_of (VPath v)).2)
      at 3 by now destruct (OS.key_of (VPath v)).
    apply under_proper_prefix.
    + now apply prefix_app_r.
    + intros Heq. apply (f_equal (@length string)) in Heq.
      rewrite length_app in Heq. simpl in Heq. lia.
  - intros Hv.
    assert (Hkey : tree_key v = OS.key_of (VPath v)).
    { unfold tree_key. destruct Hv as [-> | ->];
        [now apply key_of_self|now apply key_of_dot]. }
    split; [exact Hkey|]. intros Hnone _.
    apply Remove_removed; auto. rewrite Hkey. apply under_self.
Qed.

Lemma Create_rollback_keeps_base_witness :
  OS.under (tree_key twice_volume) (OS.key_of (VPath twice_volume)) = false /\
  OS.entry (fs (Create twice_volume mkLinkStrategy host_world).1)
    (OS.key_of (VPath twice_volume)) = Some Dir.
Proof.
  destruct (Create_rollback_keeps_base twice_volume mkLinkStrategy host_world
              (Create twice_volume mkLinkStrategy host_world).1
              (LinkError "link" "/usr/lib64/libcuda.so.390.12"
                 "/var/nvidia_driver/390.12/lib64/libcuda.so.390.12" EEXIST))
    as (w2 & _ & _ & _ & _ & Houtside & Hplain & _).
  - vm_compute. reflexivity.
  - apply pair_snd_eq. vm_compute. reflexivity.
  - assert (Hu : OS.under (tree_key twice_volume) (OS.key_of (VPath twice_volume)) = false)
      by (apply Hplain; vm_compute; reflexivity).
    split; [exact Hu|apply Houtside, Hu].
Defined.

(** C10 as stated fails: the version [.] is not empty, yet
    [path.Join(Path, ".")] is [Path], and the rollback of a failed [Create]
    removes the base directory that the first [MkdirAll] had made. *)
Lemma Create_rollback_dot_version_counterexample :
  Version dot_volume <> EmptyString /\
  (OS.MkdirAll (VPath dot_volume) host_world).2 = None /\
  fs (OS.MkdirAll (VPath dot_volume) host_world).1 !! OS.key_of (VPath dot_volume)
    = Some Dir /\
  (Create dot_volume mkLinkStrategy host_world).2
    = Err (LinkError "link" "/usr/lib64/libcuda.so.390.12"
             "/var/nvidia_driver/lib64/libcuda.so.390.12" EEXIST) /\
  fs (Create dot_volume mkLinkStrategy host_world).1 !! OS.key_of (VPath dot_volume)
    = None.
Proof.
  repeat split; try (vm_compute; reflexivity). discriminate.
Qed.

(** ** The runs of the sample volumes *)

Example blacklisted_libGL_foreign :
  blacklisted "/usr/lib/libGL.so.1"
    {| dt_needed := Success ["libX11.so.6"; "libc.so.6"];
       dt_soname := Success ["libGL.so.1"]; sections := [] |} = Ok true.
Proof. reflexivity. Qed.

Example blacklisted_libGL_nvidia :
  blacklisted "/usr/lib/libGL.so.1"
    {| dt_needed := Success ["libnvidia-glcore.so.390.12"; "libc.so.6"];
       dt_soname := Success ["libGL.so.1"]; sections := [] |} = Ok false.
Proof. reflexivity. Qed.

Example Create_twice_Link :
  (Create twice_volume mkLinkStrategy host_world).2
  = Err (LinkError "link" "/usr/lib64/libcuda.so.390.12"
           "/var/nvidia_driver/390.12/lib64/libcuda.so.390.12" EEXIST).
Proof. vm_compute. reflexivity. Qed.

Example Create_cuda_Exists :
  Exists cuda_volume (Create cuda_volume mkLinkStrategy host_world).1 = (true, None).
Proof. vm_compute. reflexivity. Qed.

(** * Further properties of the package *)

(** ** The clone strategies and [Copy] *)

Section CloneFacts.

Lemma fresh_key_inv m p k :
  OS.fresh_key m p = inr k ->
  p <> EmptyString /\ k = OS.key_of p /\
  OS.first_bad m k.1 [] k.2 = None /\ OS.entry m k = None.
Proof.
  unfold OS.fresh_key.
  destruct (String.eqb_spec p EmptyString) as [->|Hp]; [discriminate|].
  destruct (OS.first_bad _ _ _ _) eqn:Hbad; [discriminate|].
  destruct (OS.entry m (OS.key_of p)) eqn:He; [discriminate|].
  intros [= <-]. auto.
Qed.

Lemma with_fs_id w : with_fs w (fs w) = w.
Proof. now destruct w. Qed.

(** Resolution never ends on a symbolic link. *)
Lemma resolve_not_symlink fuel m k0 k t :
  OS.resolve fuel m k0 <> inr (k, Some (Symlink t)).
Proof.
  intros Hr. apply resolve_entry in Hr as He. revert k0 Hr.
  induction fuel as [|fuel IH]; intros k0; simpl.
  - destruct (OS.first_bad _ _ _ _); [discriminate|].
    destruct (OS.entry m k0) as [[]|] eqn:Hk; discriminate.
  - destruct (OS.first_bad _ _ _ _); [discriminate|].
    destruct (OS.entry m k0) as [[| |t0]|] eqn:Hk; try discriminate.
    destruct (String.eqb t0 EmptyString); [discriminate|]. apply IH.
Qed.

Lemma entry_file m k d : OS.entry m k = Some (File d) -> m !! k = Some (File d).
Proof. unfold OS.entry. now destruct k.2. Qed.

Lemma entry_none m k : OS.entry m k = None -> m !! k = None.
Proof. unfold OS.entry. now destruct k.2. Qed.

(** The number [fresh_ino] gives is above that of every file there is. *)
Lemma fresh_ino_lt m k d :
  m !! k = Some (File d) -> (file_ino d < CopyImpl.fresh_ino m)%nat.
Proof.
  intros Hk. unfold CopyImpl.fresh_ino.
  set (l := omap _ (map_to_list m)).
  assert (Hin : file_ino d ∈ l).
  { apply list_elem_of_omap. exists (k, File d). split; [|reflexivity].
    now apply elem_of_map_to_list. }
  pose proof (proj1 (list_max_le l (list_max l)) (Nat.le_refl _)) as Hall.
  apply list_elem_of_In in Hin.
  apply (proj1 (List.Forall_forall _ _) Hall) in Hin. lia.
Qed.

(** A write of a fixed content to an inode overrides an earlier write to
    it that kept the inode number. *)
Lemma write_inode_twice i c f m :
  file_ino c = i -> (forall d, file_ino (f d) = file_ino d) ->
  CopyImpl.write_inode i (fun _ => c) (CopyImpl.write_inode i f m)
  = CopyImpl.write_inode i (fun _ => c) m.
Proof.
  intros Hc Hf. apply map_eq. intros k. rewrite !write_inode_lookup.
  destruct (m !! k) as [[|d|t]|]; try reflexivity.
  destruct (Nat.eqb (file_ino d) i) eqn:Hd.
  - now rewrite Hf, Hd.
  - now rewrite Hd.
Qed.

(** What [os.Create] leaves: the name shows the inode returned, every name
    of that inode shows a file of that number, and no other entry has
    changed. *)
Lemma create_effect dst w w1 kd i :
  CopyImpl.create dst w = (w1, Success (kd, i)) ->
  symlink_calls w1 = symlink_calls w /\
  (exists d1, fs w1 !! kd = Some (File d1) /\ file_ino d1 = i) /\
  (forall k d0, fs w !! k = Some (File d0) -> file_ino d0 = i ->
     exists d1, fs w1 !! k = Some (File d1) /\ file_ino d1 = i) /\
  (forall k, k <> kd ->
     (forall d0, fs w !! k = Some (File d0) -> file_ino d0 <> i) ->
     fs w1 !! k = fs w !! k).
Proof.
  unfold CopyImpl.create. destruct (String.eqb dst EmptyString); [discriminate|].
  destruct (OS.resolve OS.max_links (fs w) (OS.key_of dst)) as [e|[k o]] eqn:Hr;
    [discriminate|].
  pose proof (resolve_entry _ _ _ _ _ Hr) as He.
  destruct o as [[|d1|t]|]; [discriminate| | |].
  - intros [= <- <- <-]. apply entry_file in He. simpl.
    split; [reflexivity|]. split; [|split].
    + exists (CopyImpl.truncate d1). rewrite write_inode_lookup, He, Nat.eqb_refl. auto.
    + intros k0 d0 Hk0 Hi. exists (CopyImpl.truncate d0).
      rewrite write_inode_lookup, Hk0.
      rewrite (proj2 (Nat.eqb_eq _ _) Hi). auto.
    + intros k0 _ Hk0. rewrite write_inode_lookup.
      destruct (fs w !! k0) as [[|d0|t]|] eqn:Hl; try reflexivity.
      rewrite (proj2 (Nat.eqb_neq _ _) (Hk0 d0 eq_refl)). reflexivity.
  - now destruct (resolve_not_symlink _ _ _ _ _ Hr).
  - intros [= <- <- <-]. simpl.
    split; [reflexivity|]. split; [|split].
    + eexists. rewrite lookup_insert_eq. split; reflexivity.
    + intros k0 d0 Hk0 Hi. pose proof (fresh_ino_lt _ _ _ Hk0). lia.
    + intros k0 Hne _. now rewrite lookup_insert_ne by congruence.
Qed.

End CloneFacts.

(** The hard-link strategy changes nothing when it fails, and when it
    succeeds it adds exactly one entry: under the destination name, which
    was free, the node found at the source, which is not a directory. *)
Theorem LinkStrategy_Clone_effect (src dst : string) (w : world) :
  match Clone mkLinkStrategy src dst w with
  | (w', Some _) => w' = w
  | (w', None) =>
      exists k n,
        OS.fresh_key (fs w) dst = inr k /\
        fs w !! k = None /\
        OS.entry (fs w) (OS.key_of src) = Some n /\
        n <> Dir /\
        w' = with_fs w (<[k := n]> (fs w))
  end.
Proof.
  simpl. unfold OS.Link.
  destruct (String.eqb src EmptyString); [reflexivity|].
  destruct (OS.first_bad _ _ _ _); [reflexivity|].
  destruct (OS.entry (fs w) (OS.key_of src)) as [n|] eqn:Hn; [|reflexivity].
  destruct n as [|d|t]; [reflexivity| |];
    (destruct (OS.fresh_key (fs w) dst) as [e|k] eqn:Hk; [reflexivity|];
     eexists k, _; repeat split; eauto using fresh_key_None; discriminate).
Qed.

(** X1: a [Copy] that succeeds read a regular file and leaves what it
    read, with the mode of the source, in the file the destination name
    resolves to: under that name and under every other name of the same
    inode.  No entry of another file changes and no symlink call is issued.
    What it read is the content of the source, unless source and
    destination are one file, under one name or two: that file was
    truncated before it was read, and is left empty. *)
Theorem Copy_effect (src dst : string) (w w' : world) :
  Copy src dst w = (w', None) ->
  exists ks kd i d w1,
    CopyImpl.open_read src w = Success (ks, File d) /\
    CopyImpl.create dst w = (w1, Success (kd, i)) /\
    let copied := {| file_ino := i;
                     file_elf := if Nat.eqb (file_ino d) i then None else file_elf d;
                     file_mode := file_mode d |} in
    fs w' !! kd = Some (File copied) /\
    (forall k d0, fs w !! k = Some (File d0) -> file_ino d0 = i ->
       fs w' !! k = Some (File copied)) /\
    (forall k, k <> kd ->
       (forall d0, fs w !! k = Some (File d0) -> file_ino d0 <> i) ->
       fs w' !! k = fs w !! k) /\
    symlink_calls w' = symlink_calls w.
Proof.
  unfold Copy.
  destruct (CopyImpl.open_read src w) as [[ks n]|e]; [|discriminate].
  destruct (CopyImpl.create dst w) as [w1 [[kd i]|e]] eqn:Hc; [|discriminate].
  destruct n as [|d|t]; try discriminate.
  intros [= <-]. exists ks, kd, i, d, w1.
  destruct (create_effect dst w w1 kd i Hc) as (Hcalls & (d1 & Hkd & Hi) & Hsame & Hother).
  split; [reflexivity|]. split; [reflexivity|]. simpl.
  split; [|split; [|split]].
  - rewrite write_inode_lookup, Hkd.
    now rewrite (proj2 (Nat.eqb_eq _ _) Hi).
  - intros k d0 Hk Hd0. destruct (Hsame k d0 Hk Hd0) as (d2 & Hk2 & Hi2).
    rewrite write_inode_lookup, Hk2.
    now rewrite (proj2 (Nat.eqb_eq _ _) Hi2).
  - intros k Hne Hk. rewrite write_inode_lookup, (Hother k Hne Hk).
    destruct (fs w !! k) as [[|d0|t]|] eqn:Hl; try reflexivity.
    now rewrite (proj2 (Nat.eqb_neq _ _) (Hk d0 eq_refl)).
  - exact Hcalls.
Qed.

Lemma Copy_effect_witness :
  exists ks kd i d w1,
    CopyImpl.open_read "/usr/lib64/libcuda.so.390.12" host_world = Success (ks, File d) /\
    CopyImpl.create "/var/libcuda.so" host_world = (w1, Success (kd, i)) /\
    let copied := {| file_ino := i;
                     file_elf := if Nat.eqb (file_ino d) i then None else file_elf d;
                     file_mode := file_mode d |} in
    fs (Copy "/usr/lib64/libcuda.so.390.12" "/var/libcuda.so" host_world).1 !! kd
      = Some (File copied) /\
    (forall k d0, fs host_world !! k = Some (File d0) -> file_ino d0 = i ->
       fs (Copy "/usr/lib64/libcuda.so.390.12" "/var/libcuda.so" host_world).1 !! k
       = Some (File copied)) /\
    (forall k, k <> kd ->
       (forall d0, fs host_world !! k = Some (File d0) -> file_ino d0 <> i) ->
       fs (Copy "/usr/lib64/libcuda.so.390.12" "/var/libcuda.so" host_world).1 !! k
       = fs host_world !! k) /\
    symlink_calls (Copy "/usr/lib64/libcuda.so.390.12" "/var/libcuda.so" host_world).1
    = symlink_calls host_world.
Proof.
  apply (Copy_effect "/usr/lib64/libcuda.so.390.12" "/var/libcuda.so" host_world).
  apply pair_snd_eq. vm_compute. reflexivity.
Defined.

(** X2: where the destination is an existing regular file and another
    file than the source (another inode), the hard-link strategy fails with
    [EEXIST] and changes nothing, while the link-or-copy strategy succeeds
    and overwrites the destination file, under all its names, with the
    content and the mode of the source; the source stays as it is. *)
Theorem LinkOrCopy_overwrites (src dst : string) (w : world) (d d0 : file_data) :
  src <> EmptyString -> dst <> EmptyString ->
  OS.first_bad (fs w) (OS.key_of src).1 [] (OS.key_of src).2 = None ->
  OS.entry (fs w) (OS.key_of src) = Some (File d) ->
  OS.first_bad (fs w) (OS.key_of dst).1 [] (OS.key_of dst).2 = None ->
  OS.entry (fs w) (OS.key_of dst) = Some (File d0) ->
  file_ino d <> file_ino d0 ->
  let copied := {| file_ino := file_ino d0; file_elf := file_elf d;
                   file_mode := file_mode d |} in
  Clone mkLinkStrategy src dst w = (w, Some (LinkError "link" src dst EEXIST)) /\
  Clone mkLinkOrCopyStrategy src dst w
  = (with_fs w (CopyImpl.write_inode (file_ino d0) (fun _ => copied) (fs w)), None) /\
  fs (Clone mkLinkOrCopyStrategy src dst w).1 !! OS.key_of dst = Some (File copied) /\
  fs (Clone mkLinkOrCopyStrategy src dst w).1 !! OS.key_of src = Some (File d).
Proof.
  intros Hs Hd Hsb Hse Hdb Hde Hne copied.
  assert (Hlink : OS.Link src dst w = (w, Some (LinkError "link" src dst EEXIST))).
  { unfold OS.Link, OS.fresh_key.
    destruct (String.eqb_spec src EmptyString); [congruence|].
    destruct (String.eqb_spec dst EmptyString); [congruence|].
    now rewrite Hsb, Hse, Hdb, Hde. }
  assert (Hclone : Clone mkLinkOrCopyStrategy src dst w
                   = (with_fs w (CopyImpl.write_inode (file_ino d0) (fun _ => copied) (fs w)),
                      None)).
  { simpl. rewrite Hlink.
    unfold Copy, CopyImpl.open_read, CopyImpl.create.
    destruct (String.eqb_spec src EmptyString); [congruence|].
    destruct (String.eqb_spec dst EmptyString); [congruence|].
    rewrite (resolve_direct _ _ (OS.key_of src) Hsb) by (rewrite Hse; discriminate).
    rewrite (resolve_direct _ _ (OS.key_of dst) Hdb) by (rewrite Hde; discriminate).
    rewrite Hse, Hde. rewrite (proj2 (Nat.eqb_neq _ _) Hne).
    unfold with_fs. simpl. now rewrite write_inode_twice. }
  split; [exact Hlink|]. split; [exact Hclone|]. rewrite Hclone. simpl.
  rewrite !write_inode_lookup, (entry_file _ _ _ Hse), (entry_file _ _ _ Hde).
  now rewrite Nat.eqb_refl, (proj2 (Nat.eqb_neq _ _) Hne).
Qed.

Lemma LinkOrCopy_overwrites_witness :
  Clone mkLinkOrCopyStrategy "/usr/lib64/libcuda.so.390.12"
    "/usr/lib64/libGLX_nvidia.so.0" host_world
  = (with_fs host_world
       (CopyImpl.write_inode 2
          (fun _ => {| file_ino := 2;
                       file_elf := Some {| dt_needed := Success ["libc.so.6"];
                                           dt_soname := Success ["libcuda.so.1"];
                                           sections := [] |};
                       file_mode := 493 |}) (fs host_world)), None).
Proof.
  apply (LinkOrCopy_overwrites "/usr/lib64/libcuda.so.390.12"
           "/usr/lib64/libGLX_nvidia.so.0" host_world
           {| file_ino := 1;
              file_elf := Some {| dt_needed := Success ["libc.so.6"];
                                  dt_soname := Success ["libcuda.so.1"];
                                  sections := [] |};
              file_mode := 493 |}
           {| file_ino := 2;
              file_elf := Some {| dt_needed := Success ["libc.so.6"];
                                  dt_soname := Success ["libGLX_nvidia.so.0"];
                                  sections := [] |};
              file_mode := 493 |});
    try (vm_compute; reflexivity); vm_compute; discriminate.
Defined.

(** X3: the link-or-copy strategy applied to a regular file and a name of
    that same file, the source name itself or a hard link of it, reports
    success and leaves the file without its content, under all its names:
    the link fails because the destination name exists, and the copy
    truncates the file before reading it. *)
Theorem LinkOrCopy_onto_itself (src dst : string) (w : world) (d d0 : file_data) :
  src <> EmptyString -> dst <> EmptyString ->
  OS.first_bad (fs w) (OS.key_of src).1 [] (OS.key_of src).2 = None ->
  OS.entry (fs w) (OS.key_of src) = Some (File d) ->
  OS.first_bad (fs w) (OS.key_of dst).1 [] (OS.key_of dst).2 = None ->
  OS.entry (fs w) (OS.key_of dst) = Some (File d0) ->
  file_ino d0 = file_ino d ->
  Clone mkLinkOrCopyStrategy src dst w
  = (with_fs w (CopyImpl.write_inode (file_ino d) (fun _ => CopyImpl.truncate d) (fs w)),
     None) /\
  fs (Clone mkLinkOrCopyStrategy src dst w).1 !! OS.key_of src
    = Some (File (CopyImpl.truncate d)) /\
  fs (Clone mkLinkOrCopyStrategy src dst w).1 !! OS.key_of dst
    = Some (File (CopyImpl.truncate d)).
Proof.
  intros Hs Hd Hsb Hse Hdb Hde Hi.
  assert (Hlink : OS.Link src dst w = (w, Some (LinkError "link" src dst EEXIST))).
  { unfold OS.Link, OS.fresh_key.
    destruct (String.eqb_spec src EmptyString); [congruence|].
    destruct (String.eqb_spec dst EmptyString); [congruence|].
    now rewrite Hsb, Hse, Hdb, Hde. }
  assert (Hclone : Clone mkLinkOrCopyStrategy src dst w
                   = (with_fs w (CopyImpl.write_inode (file_ino d)
                                   (fun _ => CopyImpl.truncate d) (fs w)), None)).
  { simpl. rewrite Hlink.
    unfold Copy, CopyImpl.open_read, CopyImpl.create.
    destruct (String.eqb_spec src EmptyString); [congruence|].
    destruct (String.eqb_spec dst EmptyString); [congruence|].
    rewrite (resolve_direct _ _ (OS.key_of src) Hsb) by (rewrite Hse; discriminate).
    rewrite (resolve_direct _ _ (OS.key_of dst) Hdb) by (rewrite Hde; discriminate).
    rewrite Hse, Hde, Hi, Nat.eqb_refl.
    unfold with_fs. simpl. now rewrite write_inode_twice. }
  split; [exact Hclone|]. rewrite Hclone. simpl.
  rewrite !write_inode_lookup, (entry_file _ _ _ Hse), (entry_file _ _ _ Hde).
  now rewrite Hi, Nat.eqb_refl.
Qed.

Lemma LinkOrCopy_onto_itself_witness :
  fs (Clone mkLinkOrCopyStrategy "/usr/lib64/libcuda.so.390.12" "/var/libcuda.so"
        (OS.Link "/usr/lib64/libcuda.so.390.12" "/var/libcuda.so" host_world).1).1
    !! OS.key_of "/usr/lib64/libcuda.so.390.12"
  = Some (File {| file_ino := 1; file_elf := None; file_mode := 493 |}).
Proof.
  apply (LinkOrCopy_onto_itself "/usr/lib64/libcuda.so.390.12" "/var/libcuda.so"
           (OS.Link "/usr/lib64/libcuda.so.390.12" "/var/libcuda.so" host_world).1
           {| file_ino := 1;
              file_elf := Some {| dt_needed := Success ["libc.so.6"];
                                  dt_soname := Success ["libcuda.so.1"];
                                  sections := [] |};
              file_mode := 493 |}
           {| file_ino := 1;
              file_elf := Some {| dt_needed := Success ["libc.so.6"];
                                  dt_soname := Success ["libcuda.so.1"];
                                  sections := [] |};
              file_mode := 493 |});
    try (vm_compute; reflexivity); vm_compute; discriminate.
Defined.

(** X4: [Copy] does not clean up after itself: with a directory as source
    and a free destination name, the destination is created as a new file,
    the read fails, and the error comes back with the empty destination
    file left behind. *)
Theorem Copy_directory_source (src dst : string) (w : world) (kd : key) :
  src <> EmptyString ->
  OS.first_bad (fs w) (OS.key_of src).1 [] (OS.key_of src).2 = None ->
  OS.entry (fs w) (OS.key_of src) = Some Dir ->
  OS.fresh_key (fs w) dst = inr kd ->
  Copy src dst w
  = (with_fs w (<[kd := File (CopyImpl.empty_file (CopyImpl.fresh_ino (fs w)))]> (fs w)),
     Some (PathError "read" src EISDIR)).
Proof.
  intros Hs Hb He Hfresh.
  apply fresh_key_inv in Hfresh as (Hd & -> & Hdb & Hde).
  unfold Copy, CopyImpl.open_read, CopyImpl.create.
  destruct (String.eqb_spec src EmptyString); [congruence|].
  destruct (String.eqb_spec dst EmptyString); [congruence|].
  rewrite (resolve_direct _ _ (OS.key_of src) Hb) by (rewrite He; discriminate).
  rewrite (resolve_direct _ _ (OS.key_of dst) Hdb) by (rewrite Hde; discriminate).
  now rewrite He, Hde.
Qed.

Lemma Copy_directory_source_witness :
  Copy "/usr/lib64" "/var/lib64.copy" host_world
  = (with_fs host_world
       (<[OS.key_of "/var/lib64.copy" := File (CopyImpl.empty_file 4)]> (fs host_world)),
     Some (PathError "read" "/usr/lib64" EISDIR)).
Proof.
  apply (Copy_directory_source "/usr/lib64" "/var/lib64.copy" host_world);
    try (vm_compute; reflexivity). vm_compute. discriminate.
Defined.

(** ** The lifecycle operations *)

Section LifecycleFacts.

Lemma Stat_dir p w :
  p <> EmptyString ->
  OS.first_bad (fs w) (OS.key_of p).1 [] (OS.key_of p).2 = None ->
  OS.entry (fs w) (OS.key_of p) = Some Dir ->
  OS.Stat p w = Success Dir.
Proof.
  intros Hp Hbad He. unfold OS.Stat.
  destruct (String.eqb_spec p EmptyString); [congruence|].
  rewrite (resolve_direct _ _ (OS.key_of p) Hbad) by (rewrite He; discriminate).
  now rewrite He.
Qed.

Lemma mkdir_all_other m r pre rest k :
  (forall q, q `prefix_of` rest -> q <> [] -> k <> (r, pre ++ q)) ->
  (OS.mkdir_all m r pre rest).1 !! k = m !! k.
Proof.
  revert m pre. induction rest as [|c rest IH]; intros m pre Hk; simpl.
  - reflexivity.
  - assert (Hnext : forall q, q `prefix_of` rest -> q <> [] ->
                              k <> (r, (pre ++ [c]) ++ q)).
    { intros q Hq Hne. rewrite <- app_assoc. apply Hk; [|discriminate].
      now apply prefix_cons. }
    destruct (m !! (r, pre ++ [c])) as [[]|] eqn:Hc; try reflexivity.
    + now apply IH.
    + rewrite IH by exact Hnext. apply lookup_insert_ne.
      intros Heq. apply (Hk [c]); [|discriminate|now symmetry].
      exists rest. reflexivity.
Qed.

Lemma prefix_same_length (l1 l2 k : list string) :
  l1 `prefix_of` k -> l2 `prefix_of` k -> length l1 = length l2 -> l1 = l2.
Proof.
  intros [a Ha] [b Hb] Hlen. subst k.
  now apply app_inj_1 in Hb as [-> _].
Qed.

Lemma world_eq (w1 w2 : world) :
  fs w1 = fs w2 -> symlink_calls w1 = symlink_calls w2 -> busy w1 = busy w2 ->
  w1 = w2.
Proof. destruct w1, w2. simpl. now intros -> -> ->. Qed.

Lemma RemoveAll_busy p w : busy (OS.RemoveAll p w).1 = busy w.
Proof.
  unfold OS.RemoveAll. destruct (String.eqb p EmptyString); [reflexivity|].
  destruct (OS.key_of p).2; [reflexivity|].
  destruct (OS.first_bad _ _ _ _) as [[]|]; try reflexivity;
    now destruct (OS.stuck w (OS.key_of p)).
Qed.

Lemma existsb_ext_in {A} (f g : A -> bool) l :
  (forall a, In a l -> f a = g a) -> existsb f l = existsb g l.
Proof.
  induction l as [|x l IH]; intros Hfg; simpl; [reflexivity|].
  rewrite (Hfg x) by now left. rewrite IH; [reflexivity|].
  intros a Ha. apply Hfg. now right.
Qed.

(** An entry in use that is there stays where it is. *)
Lemma busy_kept p w b :
  In b (busy w) -> fs (OS.RemoveAll p w).1 !! b = fs w !! b.
Proof.
  intros Hb. destruct (String.eqb_spec p EmptyString) as [->|Hp]; [reflexivity|].
  rewrite RemoveAll_lookup by exact Hp.
  destruct (fs w !! b) as [n|] eqn:Hn; [|now destruct (_ && _)].
  assert (Hs : OS.stuck w b = true).
  { unfold OS.stuck. apply existsb_exists. exists b. split; [exact Hb|].
    now rewrite under_self, Hn. }
  now rewrite Hs, andb_false_r.
Qed.

Lemma stuck_RemoveAll p w k : OS.stuck (OS.RemoveAll p w).1 k = OS.stuck w k.
Proof.
  unfold OS.stuck. rewrite RemoveAll_busy. apply existsb_ext_in.
  intros b Hb. now rewrite busy_kept.
Qed.

Context {S : Type} `{CloneLaws S}.

Lemma Create_Ok_inv v (s : S) w w' :
  Create v s w = (w', Ok tt) ->
  (OS.MkdirAll (VPath v) w).2 = None /\
  for_each (create_dir v s) (dirs v) (OS.MkdirAll (VPath v) w).1 = (w', Ok tt).
Proof.
  unfold Create. destruct (OS.MkdirAll (VPath v) w) as [w1 [e|]]; [discriminate|].
  simpl. destruct (for_each _ _ w1) as [w2 [[]|e|]]; try discriminate.
  intros [= <-]. split; reflexivity.
Qed.

End LifecycleFacts.

(** X5: when [CreateAt] succeeds, the volume it leaves has the given path
    as base and an empty version, its version tree is that path itself, and
    [Exists] on it returns [(true, nil)]. *)
Theorem CreateAt_Exists {S : Type} `{CloneLaws S} (v v' : Volume) (path : string)
  (s : S) (w w' : world) :
  CreateAt v path s w = (v', (w', Ok tt)) ->
  VPath v' = path /\ Version v' = EmptyString /\ dirs v' = dirs v /\
  tree_key v' = OS.key_of path /\
  Exists v' w' = (true, None).
Proof.
  unfold CreateAt. intros [= <- HC].
  set (v' := {| info := info v; VPath := path; Version := EmptyString;
                dirs := dirs v |}) in *.
  destruct (Create_Ok_inv v' s w w' HC) as [Hm Hloop].
  pose proof (MkdirAll_nonempty _ w Hm) as Hp. simpl in Hp.
  assert (Hkey : tree_key v' = OS.key_of path).
  { unfold tree_key. simpl. now apply key_of_self. }
  repeat split; try exact Hkey.
  unfold Exists. rewrite Stat_dir; [reflexivity| | |].
  - now apply Join_pair_nonempty.
  - fold (tree_key v'). rewrite Hkey. apply first_bad_None.
    intros q Hq Hne _. simpl.
    apply (base_dirs_survive v' s w w' (Ok tt) q Hm Hloop Hq Hne).
  - fold (tree_key v'). rewrite Hkey. unfold OS.entry.
    pose proof (fun q => base_dirs_survive v' s w w' (Ok tt) q Hm Hloop) as Hd.
    change (VPath v') with path in Hd.
    destruct (OS.key_of path) as [r cs]. simpl in *.
    destruct cs as [|c cs]; [reflexivity|].
    apply Hd; [reflexivity|discriminate].
Qed.

Lemma CreateAt_Exists_witness :
  VPath (CreateAt cuda_volume "/var/latest" mkLinkStrategy host_world).1 = "/var/latest" /\
  Version (CreateAt cuda_volume "/var/latest" mkLinkStrategy host_world).1 = EmptyString /\
  dirs (CreateAt cuda_volume "/var/latest" mkLinkStrategy host_world).1 = dirs cuda_volume /\
  tree_key (CreateAt cuda_volume "/var/latest" mkLinkStrategy host_world).1
    = OS.key_of "/var/latest" /\
  Exists (CreateAt cuda_volume "/var/latest" mkLinkStrategy host_world).1
    (CreateAt cuda_volume "/var/latest" mkLinkStrategy host_world).2.1 = (true, None).
Proof.
  apply (CreateAt_Exists cuda_volume _ "/var/latest" mkLinkStrategy host_world).
  apply triple_snd_eq. vm_compute. reflexivity.
Defined.

(** X6: when [CreateAt] fails after the directory at the given path was
    made or found, the rollback runs [Remove] on that path; if that
    reports no error, the path is emptied: nothing is left at or below it,
    whatever was there before the call. *)
Theorem CreateAt_failure_wipes {S : Type} `{FileCloneStrategy S} (v v' : Volume)
  (path : string) (s : S) (w w' : world) (e : error) :
  (OS.MkdirAll path w).2 = None ->
  CreateAt v path s w = (v', (w', Err e)) ->
  exists w2,
    for_each (create_dir v' s) (dirs v') (OS.MkdirAll path w).1 = (w2, Err e) /\
    w' = (Remove v' [] w2).1 /\
    ((Remove v' [] w2).2 = None ->
     forall k, OS.under (OS.key_of path) k = true -> fs w' !! k = None).
Proof.
  unfold CreateAt. intros Hm [= <- HC].
  set (v' := {| info := info v; VPath := path; Version := EmptyString;
                dirs := dirs v |}) in *.
  destruct (Create_Err_inv v' s w w' e Hm HC) as (w2 & Hloop & ->).
  exists w2. split; [exact Hloop|]. split; [reflexivity|].
  intros Hnone k Hk.
  pose proof (MkdirAll_nonempty _ w Hm) as Hp.
  apply Remove_removed; auto.
  unfold tree_key. simpl. now rewrite key_of_self.
Qed.

Lemma CreateAt_failure_wipes_witness :
  fs host_world !! OS.key_of "/usr/lib64/libGLX_nvidia.so.0"
    = Some (elf_lib 2 ["libGLX_nvidia.so.0"] ["libc.so.6"] []) /\
  fs (CreateAt twice_volume "/usr/lib64" mkLinkStrategy host_world).2.1
    !! OS.key_of "/usr/lib64/libGLX_nvidia.so.0" = None.
Proof.
  split; [vm_compute; reflexivity|].
  destruct (CreateAt_failure_wipes twice_volume
              (CreateAt twice_volume "/usr/lib64" mkLinkStrategy host_world).1
              "/usr/lib64" mkLinkStrategy host_world
              (CreateAt twice_volume "/usr/lib64" mkLinkStrategy host_world).2.1
              (LinkError "link" "/usr/lib64/libcuda.so.390.12"
                 "/usr/lib64/lib64/libcuda.so.390.12" EEXIST))
    as (w2 & Hloop & _ & Hgone).
  - vm_compute. reflexivity.
  - apply triple_snd_eq. vm_compute. reflexivity.
  - apply Hgone; [|vm_compute; reflexivity].
    replace w2 with (w2, @Err unit (LinkError "link" "/usr/lib64/libcuda.so.390.12"
                       "/usr/lib64/lib64/libcuda.so.390.12" EEXIST)).1
      by reflexivity.
    rewrite <- Hloop. vm_compute. reflexivity.
Defined.

(** X7: a volume without directory descriptors builds nothing below its
    base directory: [Create] succeeds after making [Path] alone, and with a
    version that is a plain path element and a version tree that did not
    exist before, [Exists] still returns [(false, nil)]. *)
Theorem Create_no_dirs {S : Type} `{CloneLaws S} (v : Volume) (s : S)
  (w w' : world) :
  dirs v = [] ->
  plain_element (Version v) = true ->
  fs w !! tree_key v = None ->
  Create v s w = (w', Ok tt) ->
  w' = (OS.MkdirAll (VPath v) w).1 /\ Exists v w' = (false, None).
Proof.
  intros Hdirs Hplain Habsent HC.
  destruct (Create_Ok_inv v s w w' HC) as [Hm Hloop].
  rewrite Hdirs in Hloop. simpl in Hloop. injection Hloop as Hw.
  split; [now symmetry|].
  pose proof (MkdirAll_nonempty _ w Hm) as Hp.
  assert (Hkey : tree_key v = ((OS.key_of (VPath v)).1,
                               (OS.key_of (VPath v)).2 ++ [Version v])).
  { unfold tree_key. now apply key_of_child. }
  unfold Exists. rewrite Stat_absent; [reflexivity| | | |].
  - now apply Join_pair_nonempty.
  - fold (tree_key v). rewrite Hkey. simpl.
    intros Heq. apply app_eq_nil in Heq as [_ Heq]. discriminate.
  - fold (tree_key v). rewrite Hkey. simpl. apply first_bad_None.
    intros q Hq Hne Hneq. simpl. subst w'.
    destruct (OS.MkdirAll (VPath v) w) as [w1 o] eqn:Hmk. simpl in *. subst o.
    apply (MkdirAll_made _ _ _ q Hmk); [|exact Hne].
    now apply (prefix_snoc_proper q _ (Version v)).
  - fold (tree_key v). subst w'. unfold OS.MkdirAll.
    destruct (String.eqb_spec (VPath v) EmptyString); [congruence|].
    pose proof (mkdir_all_other (fs w) (OS.key_of (VPath v)).1 []
                  (OS.key_of (VPath v)).2 (tree_key v)) as Hother.
    destruct (OS.mkdir_all _ _ _ _) as [m [e|]]; simpl in *;
      (rewrite Hother; [exact Habsent|]);
      intros q Hq _ Heq; rewrite Hkey in Heq; injection Heq as Heq;
      apply (f_equal (@length string)) in Heq; rewrite length_app in Heq;
      apply prefix_length in Hq; simpl in Heq; lia.
Qed.

Lemma Create_no_dirs_witness :
  (Create {| info := driver_info; VPath := "/var/nvidia_driver";
             Version := "390.12"; dirs := [] |} mkLinkStrategy host_world).1
  = (OS.MkdirAll "/var/nvidia_driver" host_world).1 /\
  Exists {| info := driver_info; VPath := "/var/nvidia_driver";
            Version := "390.12"; dirs := [] |}
    (Create {| info := driver_info; VPath := "/var/nvidia_driver";
               Version := "390.12"; dirs := [] |} mkLinkStrategy host_world).1
  = (false, None).
Proof.
  apply (Create_no_dirs {| info := driver_info; VPath := "/var/nvidia_driver";
                           Version := "390.12"; dirs := [] |}
           mkLinkStrategy host_world).
  - reflexivity.
  - vm_compute. reflexivity.
  - vm_compute. reflexivity.
  - apply pair_snd_eq. vm_compute. reflexivity.
Defined.

Lemma absent_below_by_list (root : key) (m : gmap key node) :
  forallb (fun kn : key * node => negb (OS.under root kn.1)) (map_to_list m) = true ->
  forall k, OS.under root k = true -> m !! k = None.
Proof.
  intros Hall k Hk. destruct (m !! k) as [n|] eqn:Hn; [|reflexivity].
  apply elem_of_map_to_list, list_elem_of_In in Hn.
  apply (proj1 (forallb_forall _ _) Hall) in Hn.
  cbv beta in Hn. change ((k, n).1) with k in Hn.
  rewrite Hk in Hn. discriminate.
Qed.

(** Where nothing is, nothing is stuck. *)
Lemma stuck_absent w k :
  (forall b, OS.under k b = true -> fs w !! b = None) -> OS.stuck w k = false.
Proof.
  intros Habsent. unfold OS.stuck.
  apply not_true_is_false. intros Hs. apply existsb_exists in Hs as (b & _ & Hb).
  apply andb_true_iff in Hb as [Hu Hex].
  now rewrite (Habsent b Hu) in Hex.
Qed.

(** The walk stops with [ENOTDIR] at a regular file above the key. *)
Lemma first_bad_file m r pre0 pre c rest d :
  rest <> [] ->
  (forall q, q `prefix_of` pre -> q <> [] -> m !! (r, pre0 ++ q) = Some Dir) ->
  m !! (r, pre0 ++ pre ++ [c]) = Some (File d) ->
  OS.first_bad m r pre0 (pre ++ c :: rest) = Some ENOTDIR.
Proof.
  intros Hrest. revert pre0. induction pre as [|a pre IH]; intros pre0 Hdirs Hfile.
  - destruct rest as [|c2 rest]; [congruence|]. simpl in *. now rewrite Hfile.
  - assert (Htail : exists x xs, pre ++ c :: rest = x :: xs).
    { destruct pre; simpl; eauto. }
    destruct Htail as (x & xs & Htail).
    change ((a :: pre) ++ c :: rest) with (a :: (pre ++ c :: rest)).
    cbn [OS.first_bad]. rewrite Htail, <- Htail.
    rewrite (Hdirs [a]); [| |discriminate].
    + apply IH.
      * intros q Hq Hne. rewrite <- app_assoc. apply Hdirs; [|discriminate].
        now apply prefix_cons.
      * now rewrite <- app_assoc.
    + exists pre. reflexivity.
Qed.

(** X8: [Remove] of a version tree that is not there is not an error and
    changes nothing, as long as the tree is not a root and no ancestor of it
    is a non-directory. *)
Theorem Remove_absent (v : Volume) (w : world) :
  (tree_key v).2 <> [] ->
  OS.first_bad (fs w) (tree_key v).1 [] (tree_key v).2 <> Some ENOTDIR ->
  (forall k, OS.under (tree_key v) k = true -> fs w !! k = None) ->
  Remove v [] w = (w, None).
Proof.
  intros Hroot Hbad Habsent. unfold Remove, OS.RemoveAll.
  destruct (String.eqb (Path.Join [VPath v; Version v]) EmptyString);
    [reflexivity|].
  fold (tree_key v).
  assert (Hf : filter (fun kv : key * node =>
                         OS.under (tree_key v) kv.1 && negb (OS.stuck w kv.1) = false)
                 (fs w)
               = fs w).
  { apply map_filter_id. intros k n Hk. simpl.
    destruct (OS.under (tree_key v) k) eqn:Hu; [|reflexivity].
    rewrite (Habsent k Hu) in Hk. discriminate. }
  rewrite Hf, with_fs_id, (stuck_absent w (tree_key v) Habsent).
  destruct (tree_key v).2; [congruence|].
  destruct (OS.first_bad _ _ _ _) as [[]|]; try reflexivity. congruence.
Qed.

Lemma Remove_absent_witness :
  Remove cuda_volume [] host_world = (host_world, None).
Proof.
  apply (Remove_absent cuda_volume host_world).
  - vm_compute. discriminate.
  - vm_compute. discriminate.
  - apply absent_below_by_list. vm_compute. reflexivity.
Defined.

(** X9: removing twice is removing once: a second [Remove] with the same
    arguments leaves the world the first one produced. *)
Theorem Remove_idempotent (v : Volume) (version : list string) (w : world) :
  (Remove v version (Remove v version w).1).1 = (Remove v version w).1.
Proof.
  unfold Remove.
  set (p := Path.Join [VPath v; match version with [x] => x | _ => Version v end]).
  destruct (String.eqb_spec p EmptyString) as [Hp|Hp].
  - rewrite Hp. reflexivity.
  - apply world_eq.
    + apply map_eq. intros k. rewrite !RemoveAll_lookup by exact Hp.
      rewrite stuck_RemoveAll.
      now destruct (OS.under (OS.key_of p) k && negb (OS.stuck w k)).
    + now rewrite !RemoveAll_calls.
    + now rewrite !RemoveAll_busy.
Qed.

(** X10: removing another version leaves the tree of the current version
    as it is: [Remove(ver)] with a plain path element [ver] other than the
    (plain) current version changes no entry at or below [Path/Version]. *)
Theorem Remove_other_version (v : Volume) (ver : string) (w : world) :
  VPath v <> EmptyString ->
  plain_element (Version v) = true ->
  plain_element ver = true ->
  ver <> Version v ->
  forall k, OS.under (tree_key v) k = true ->
            fs (Remove v [ver] w).1 !! k = fs w !! k.
Proof.
  intros Hp Hv Hver Hne k Hk. unfold Remove.
  apply RemoveAll_other.
  rewrite key_of_child by assumption.
  unfold tree_key in Hk. rewrite key_of_child in Hk by assumption.
  unfold OS.under in *. simpl in *.
  apply andb_true_iff in Hk as [Hr Hpre].
  apply bool_decide_eq_true in Hpre.
  rewrite (bool_decide_eq_false_2 (_ ++ [ver] `prefix_of` k.2)); [now rewrite andb_false_r|].
  intros Hpre2. apply Hne.
  assert (Heq : (OS.key_of (VPath v)).2 ++ [ver]
                = (OS.key_of (VPath v)).2 ++ [Version v]).
  { apply (prefix_same_length _ _ k.2); auto. now rewrite !length_app. }
  apply app_inv_head in Heq. congruence.
Qed.

Lemma Remove_other_version_witness :
  fs (Remove cuda_volume ["384.81"]
        (Create cuda_volume mkLinkStrategy host_world).1).1
    !! OS.key_of "/var/nvidia_driver/390.12/lib64/libcuda.so.1"
  = fs (Create cuda_volume mkLinkStrategy host_world).1
    !! OS.key_of "/var/nvidia_driver/390.12/lib64/libcuda.so.1".
Proof.
  apply (Remove_other_version cuda_volume "384.81");
    try (vm_compute; reflexivity); vm_compute; discriminate.
Defined.

(** X11: after a [Remove] of the current version that reports no error,
    [Exists] returns [(false, nil)]: the volume is not reported as
    present. *)
Theorem Remove_then_Exists (v : Volume) (w : world) :
  (Remove v [] w).2 = None ->
  Exists v (Remove v [] w).1 = (false, None).
Proof.
  unfold Remove, Exists. intros Hnone.
  destruct (String.eqb_spec (Path.Join [VPath v; Version v]) EmptyString) as [Hp|Hp].
  - rewrite Hp. reflexivity.
  - rewrite Stat_removed by assumption. reflexivity.
Qed.

Lemma Remove_then_Exists_witness :
  Exists cuda_volume
    (Remove cuda_volume []
       (Create cuda_volume mkLinkStrategy host_world).1).1 = (false, None).
Proof.
  apply (Remove_then_Exists cuda_volume).
  vm_compute. reflexivity.
Defined.

(** X12: [Exists] answers true, with the error, when the path to the
    version tree runs through a regular file: the stat error is then
    [ENOTDIR], which [os.IsNotExist] does not accept. *)
Theorem Exists_through_non_directory (v : Volume) (w : world) :
  file_above (fs w) (tree_key v) ->
  Exists v w
  = (true, Some (PathError "stat" (Path.Join [VPath v; Version v]) ENOTDIR)).
Proof.
  intros (pre & c & rest & d & Hk & Hrest & Hdirs & Hfile).
  assert (Hbad : OS.first_bad (fs w) (tree_key v).1 [] (tree_key v).2 = Some ENOTDIR).
  { rewrite Hk. now apply (first_bad_file _ _ [] pre c rest d). }
  unfold Exists, OS.Stat.
  destruct (String.eqb_spec (Path.Join [VPath v; Version v]) EmptyString) as [Hp|Hp].
  - unfold tree_key in Hbad. rewrite Hp in Hbad. discriminate.
  - fold (tree_key v). now rewrite (resolve_bad _ _ _ _ Hbad).
Qed.

Lemma Exists_through_non_directory_witness :
  Exists file_volume host_world
  = (true, Some (PathError "stat" (Path.Join [VPath file_volume; Version file_volume])
                   ENOTDIR)).
Proof.
  apply (Exists_through_non_directory file_volume host_world).
  exists ["usr"; "lib64"], "libcuda.so.390.12", ["390.12"],
    {| file_ino := 1;
       file_elf := Some {| dt_needed := Success ["libc.so.6"];
                           dt_soname := Success ["libcuda.so.1"];
                           sections := [] |};
       file_mode := 493 |}.
  split; [reflexivity|]. split; [discriminate|]. split; [|reflexivity].
  intros q [t Ht] Hne.
  destruct q as [|a [|b [|c q]]]; [congruence| | |discriminate];
    simpl in Ht; simplify_eq; vm_compute; reflexivity.
Defined.

(** ** The binary resolver, line by line *)

Section WhichLines.

Lemma which_loop_canonicalize h lines acc :
  which_loop h lines acc =
  match canonicalize h (List.filter Path.IsAbs (map Strings.TrimSpace lines)) with
  | Success qs => Success (acc ++ qs)
  | Failure e => Failure e
  end.
Proof.
  revert acc. induction lines as [|l lines IH]; intros acc; simpl.
  - now rewrite app_nil_r.
  - destruct (Path.IsAbs (Strings.TrimSpace l)); simpl; [|apply IH].
    destruct (EvalSymlinks h (Strings.TrimSpace l)) as [q|e]; [|reflexivity].
    rewrite IH. destruct (canonicalize h _) as [qs|e]; [|reflexivity].
    now rewrite <- app_assoc.
Qed.

Lemma read_lines_no_newline tail :
  no_newline tail = true -> read_lines tail = [].
Proof.
  unfold no_newline. induction tail as [|c tail IH]; simpl; [reflexivity|].
  intros Ht. apply andb_true_iff in Ht as [Hc Ht].
  apply negb_true_iff in Hc. now rewrite Hc, (IH Ht).
Qed.

Lemma read_lines_tail a tail :
  no_newline tail = true ->
  read_lines (a +:+ String newline tail) = read_lines (a +:+ nl).
Proof.
  intros Ht. induction a as [|c a IH].
  - change (EmptyString +:+ String newline tail) with (String newline tail).
    change (EmptyString +:+ nl) with (String newline EmptyString).
    cbn [read_lines]. rewrite Ascii.eqb_refl.
    now rewrite (read_lines_no_newline tail Ht).
  - change (String c a +:+ String newline tail)
      with (String c (a +:+ String newline tail)).
    change (String c a +:+ nl) with (String c (a +:+ nl)).
    cbn [read_lines]. now rewrite IH.
Qed.

End WhichLines.

(** X13: [which] returns the canonical paths of the complete lines of the
    command's output that, once trimmed, are absolute paths, in order; every
    other line (a message, a relative name, an empty line) is passed over,
    and the first [EvalSymlinks] error ends the call. *)
Theorem which_resolved_lines (h : host) (bins : list string) :
  which h bins = canonicalize h (resolved_lines (which_Output h bins)).
Proof.
  unfold which, resolved_lines. rewrite which_loop_canonicalize.
  now destruct (canonicalize h _).
Qed.

(** X14: bytes of the output after its last newline are never looked at: a
    last line that does not end in a newline is not resolved, and an output
    without any newline resolves to the empty list. *)
Theorem which_drops_unterminated_line (out tail : string) :
  no_newline tail = true ->
  resolved_lines (out +:+ String newline tail) = resolved_lines (out +:+ nl) /\
  resolved_lines tail = [] /\
  forall h bins, which_Output h bins = tail -> which h bins = Success [].
Proof.
  intros Ht. unfold resolved_lines.
  rewrite (read_lines_tail out tail Ht), (read_lines_no_newline tail Ht).
  repeat split. intros h bins Hout.
  unfold which. rewrite which_loop_canonicalize, Hout.
  now rewrite (read_lines_no_newline tail Ht).
Qed.

Lemma which_drops_unterminated_line_witness :
  resolved_lines ("/usr/bin/nvidia-smi" +:+ String newline "/usr/bin/nvidia-debugdump")
  = resolved_lines ("/usr/bin/nvidia-smi" +:+ nl) /\
  resolved_lines "/usr/bin/nvidia-debugdump" = [] /\
  forall h bins, which_Output h bins = "/usr/bin/nvidia-debugdump" ->
                 which h bins = Success [].
Proof.
  apply (which_drops_unterminated_line "/usr/bin/nvidia-smi" "/usr/bin/nvidia-debugdump").
  reflexivity.
Defined.

(** ** The lookup, on all its paths *)

Section LookupPaths.
Variable h : host.

Lemma lookup_components_fields entries v0 ev v1 :
  lookup_components h entries v0 = (ev, Success v1) ->
  info v1 = info v0 /\ VPath v1 = VPath v0 /\ Version v1 = Version v0.
Proof.
  revert v0 ev. induction entries as [|[t c] es IH]; intros v0 ev; simpl.
  - now intros [= <- <-].
  - destruct (String.eqb t "binaries").
    + destruct (which h c); [|discriminate].
      intros Hx. now destruct (IH _ _ Hx) as (-> & -> & ->).
    + destruct (String.eqb t "libraries"); [|apply IH].
      destruct (cache_Lookup h c) as [l32 l64].
      destruct (lookup_components h es _) as [ev0 r0] eqn:Hx.
      intros [= <- ->]. now destruct (IH _ _ Hx) as (-> & -> & ->).
Qed.

(** Every volume of the map is stored under the name of its catalog entry
    and was built from it. *)
Lemma lookup_volumes_named prefix drv i catalog (vols vols' : VolumeMap) ev name vol :
  lookup_volumes h prefix drv i catalog vols = (ev, Success vols') ->
  vols' !! name = Some vol ->
  vols !! name = Some vol \/
  exists j vi ev',
    In vi catalog /\ name = Name vi /\
    lookup_components h (map_range h j (Components vi))
      {| info := vi; VPath := Path.Join [prefix; Name vi]; Version := drv;
         dirs := [] |} = (ev', Success vol).
Proof.
  revert i vols ev. induction catalog as [|vi rest IH]; intros i vols ev; simpl.
  - intros [= <- <-]. auto.
  - destruct (lookup_components h (map_range h i (Components vi)) _)
      as [ev1 [vol1|e]] eqn:Hc; [|discriminate].
    destruct (lookup_volumes h prefix drv (Datatypes.S i) rest _) as [ev2 r] eqn:Hr.
    intros [= <- ->] Hlook.
    destruct (IH _ _ _ Hr Hlook) as [Hold|(j & vj & ev' & Hin & Hname & Hj)].
    + destruct (decide (Name vi = name)) as [<-|Hne].
      * rewrite lookup_insert_eq in Hold. injection Hold as <-.
        right. exists i, vi, ev1. auto.
      * rewrite lookup_insert_ne in Hold by exact Hne. auto.
    + right. exists j, vj, ev'. auto.
Qed.

(** Every catalog entry has its volume in the map returned. *)
Lemma lookup_volumes_covers prefix drv i catalog (vols vols' : VolumeMap) ev vi :
  lookup_volumes h prefix drv i catalog vols = (ev, Success vols') ->
  In vi catalog -> is_Some (vols' !! Name vi).
Proof.
  assert (Hkeep : forall catalog i (vols vols' : VolumeMap) ev name,
            lookup_volumes h prefix drv i catalog vols = (ev, Success vols') ->
            is_Some (vols !! name) -> is_Some (vols' !! name)).
  { clear. induction catalog as [|vj rest IH]; intros i vols vols' ev name; simpl.
    - now intros [= <- <-].
    - destruct (lookup_components h _ _) as [ev1 [vol1|e]]; [|discriminate].
      destruct (lookup_volumes h prefix drv (Datatypes.S i) rest _) as [ev2 r] eqn:Hr.
      intros [= <- ->] Hsome. apply (IH _ _ _ _ _ Hr).
      destruct (decide (Name vj = name)) as [<-|Hne].
      + rewrite lookup_insert_eq. eauto.
      + now rewrite lookup_insert_ne. }
  revert i vols ev. induction catalog as [|vj rest IH]; intros i vols ev; simpl.
  - intros _ [].
  - destruct (lookup_components h _ _) as [ev1 [vol1|e]]; [|discriminate].
    destruct (lookup_volumes h prefix drv (Datatypes.S i) rest _) as [ev2 r] eqn:Hr.
    intros [= <- ->] [->|Hin].
    + apply (Hkeep _ _ _ _ _ _ Hr). rewrite lookup_insert_eq. eauto.
    + apply (IH _ _ _ Hr Hin).
Qed.

Lemma lookup_components_known entries vol :
  lookup_components h entries vol
  = lookup_components h (List.filter known_category entries) vol.
Proof.
  revert vol. induction entries as [|[t c] es IH]; intros vol; [reflexivity|].
  unfold known_category at 1. cbn [List.filter fst].
  destruct (String.eqb t "binaries") eqn:Hb; simpl; rewrite Hb.
  - destruct (which h c); [apply IH|reflexivity].
  - destruct (String.eqb t "libraries") eqn:Hl; simpl.
    + rewrite Hb, Hl. destruct (cache_Lookup h c) as [l32 l64]. now rewrite IH.
    + apply IH.
Qed.

End LookupPaths.

(** X15: on every path through [LookupVolumes] the cache handle is used
    in one bracket or not at all: either no event happens and the call
    returns an error with a nil map (the driver version or the [Open]
    failed), or the events are one [Open], lookups only, one [Close]. *)
Theorem LookupVolumes_bracket (h : host) (prefix : string) :
  ((LookupVolumes h prefix).1 = [] /\
   exists e, (LookupVolumes h prefix).2 = (None, Some e) /\
             (GetDriverVersion h = Failure e \/ ldcache_Open h = Some e)) \/
  (exists uses,
     (LookupVolumes h prefix).1 = EvOpen :: uses ++ [EvClose] /\
     forallb is_cache_use uses = true /\
     ldcache_Open h = None).
Proof.
  unfold LookupVolumes, LookupVolumesIn.
  destruct (GetDriverVersion h) as [drv|e]; [|left; eauto].
  destruct (ldcache_Open h) as [e|]; [left; eauto|]. right.
  pose proof (lookup_volumes_events h prefix drv 0 Volumes ∅) as Hev.
  destruct (lookup_volumes h prefix drv 0 Volumes ∅) as [ev [vols|e]];
    exists ev; simpl in *; auto.
Qed.

(** X16: a map returned by [LookupVolumes] holds exactly the volume of the
    catalog, under its name [nvidia_driver]: its base path is the prefix
    joined with the name, its version is the driver version, its mountpoint
    is [/usr/local/nvidia]; and the error returned beside a map is what
    [Close] returned. *)
Theorem LookupVolumes_volume (h : host) (prefix drv : string) (vols : VolumeMap)
  (err : option error) :
  GetDriverVersion h = Success drv ->
  (LookupVolumes h prefix).2 = (Some vols, err) ->
  err = cache_Close h /\
  exists vol,
    vols !! "nvidia_driver" = Some vol /\
    (forall name vol', vols !! name = Some vol' -> name = "nvidia_driver") /\
    Name (info vol) = "nvidia_driver" /\
    Mountpoint (info vol) = "/usr/local/nvidia" /\
    VPath vol = Path.Join [prefix; "nvidia_driver"] /\
    Version vol = drv.
Proof.
  intros Hdrv Hres. unfold LookupVolumes, LookupVolumesIn in Hres.
  rewrite Hdrv in Hres.
  destruct (ldcache_Open h); [discriminate|].
  destruct (lookup_volumes h prefix drv 0 Volumes ∅) as [ev [vols'|e]] eqn:Hlv;
    [|discriminate].
  injection Hres as <- <-. split; [reflexivity|].
  assert (Hnamed : forall name vol', vols' !! name = Some vol' ->
            name = "nvidia_driver" /\ Name (info vol') = "nvidia_driver" /\
            Mountpoint (info vol') = "/usr/local/nvidia" /\
            VPath vol' = Path.Join [prefix; "nvidia_driver"] /\ Version vol' = drv).
  { intros name vol' Hvol.
    destruct (lookup_volumes_named h _ _ _ _ _ _ _ _ _ Hlv Hvol)
      as [Hempty|(j & vi & ev' & Hin & -> & Hc)].
    { rewrite lookup_empty in Hempty. discriminate. }
    destruct Hin as [<-|[]].
    apply lookup_components_fields in Hc as (Hi & Hp & Hv).
    rewrite Hi, Hp, Hv. repeat split. }
  destruct (lookup_volumes_covers h _ _ _ _ _ _ _ _ Hlv (or_introl eq_refl))
    as [vol Hvol].
  exists vol. split; [exact Hvol|].
  destruct (Hnamed _ _ Hvol) as (_ & H1 & H2 & H3 & H4).
  repeat split; auto. intros name vol' Hv'. now apply Hnamed in Hv'.
Qed.

Lemma LookupVolumes_volume_witness :
  None = cache_Close sample_host /\
  exists vol,
    (<["nvidia_driver" := sample_volume]> ∅ : VolumeMap) !! "nvidia_driver" = Some vol /\
    (forall name vol',
       (<["nvidia_driver" := sample_volume]> ∅ : VolumeMap) !! name = Some vol' ->
       name = "nvidia_driver") /\
    Name (info vol) = "nvidia_driver" /\
    Mountpoint (info vol) = "/usr/local/nvidia" /\
    VPath vol = Path.Join [sample_prefix; "nvidia_driver"] /\
    Version vol = "390.12".
Proof.
  apply (LookupVolumes_volume sample_host sample_prefix "390.12").
  - reflexivity.
  - vm_compute. reflexivity.
Defined.

(** X17: the files of the three descriptors are what the resolvers gave:
    the [bin] descriptor holds the result of [which] on the binaries of the
    catalog, which succeeded, and the [lib] and [lib64] descriptors hold the
    two lists [Lookup] returned for the libraries of the catalog. *)
Theorem LookupVolumes_files (h : host) (prefix : string) (vols : VolumeMap)
  (err : option error) (name : string) (vol : Volume) :
  valid_range h ->
  (LookupVolumes h prefix).2 = (Some vols, err) ->
  vols !! name = Some vol ->
  exists bins,
    which h catalog_binaries = Success bins /\
    (dirs vol = bin_dir bins :: lib_dirs (cache_Lookup h catalog_libraries) \/
     dirs vol = lib_dirs (cache_Lookup h catalog_libraries) ++ [bin_dir bins]).
Proof.
  intros Hrange Hres Hvol. unfold LookupVolumes, LookupVolumesIn in Hres.
  destruct (GetDriverVersion h) as [drv|e]; [|discriminate].
  destruct (ldcache_Open h); [discriminate|].
  destruct (lookup_volumes h prefix drv 0 Volumes ∅) as [ev [vols'|e]] eqn:Hlv;
    [|discriminate].
  injection Hres as <- _.
  destruct (lookup_volumes_named h _ _ _ _ _ _ _ _ _ Hlv Hvol)
    as [Hempty|(j & vi & ev' & Hin & -> & Hc)].
  { rewrite lookup_empty in Hempty. discriminate. }
  destruct Hin as [<-|[]].
  pose proof (Hrange j [("binaries", catalog_binaries);
                        ("libraries", catalog_libraries)]) as Hperm.
  change (Components _) with [("binaries", catalog_binaries);
                              ("libraries", catalog_libraries)] in Hc.
  assert (HB : In ("binaries", catalog_binaries) (map_range h j
                 [("binaries", catalog_binaries); ("libraries", catalog_libraries)])).
  { eapply Permutation_in; [symmetry; exact Hperm|]. left. reflexivity. }
  assert (HL : In ("libraries", catalog_libraries) (map_range h j
                 [("binaries", catalog_binaries); ("libraries", catalog_libraries)])).
  { eapply Permutation_in; [symmetry; exact Hperm|]. right. left. reflexivity. }
  assert (HND : NoDup (map fst (map_range h j
                 [("binaries", catalog_binaries); ("libraries", catalog_libraries)]))).
  { apply NoDup_ListNoDup.
    eapply Permutation_NoDup; [symmetry; apply (Permutation_map fst Hperm)|].
    simpl. repeat constructor; simpl; intuition discriminate. }
  destruct (lookup_components_both h _ _ _ _ _ _ HND HB HL Hc) as (bins & Hw & Hdirs).
  exists bins. split; [exact Hw|exact Hdirs].
Qed.

Lemma LookupVolumes_files_witness :
  exists bins,
    which sample_host catalog_binaries = Success bins /\
    (dirs sample_volume
     = bin_dir bins :: lib_dirs (cache_Lookup sample_host catalog_libraries) \/
     dirs sample_volume
     = lib_dirs (cache_Lookup sample_host catalog_libraries) ++ [bin_dir bins]).
Proof.
  apply (LookupVolumes_files sample_host sample_prefix
           (<["nvidia_driver" := sample_volume]> ∅) None "nvidia_driver").
  - intros i c. reflexivity.
  - vm_compute. reflexivity.
  - vm_compute. reflexivity.
Defined.

(** X18: the loop over the component map acts on the categories
    [binaries] and [libraries] only: entries under any other label are
    passed over without effect and without error. *)
Theorem lookup_components_ignores_unknown (h : host) (entries : components)
  (vol : Volume) :
  lookup_components h entries vol
  = lookup_components h (List.filter known_category entries) vol.
Proof. apply lookup_components_known. Qed.

(** ** The blacklist filter at its edges *)

Lemma quad_word_at_24_short (s : list Byte.byte) :
  (length s < 32)%nat -> quad_word_at 24 s = None.
Proof.
  intros Hlen. unfold quad_word_at.
  do 32 (destruct s as [|? s]; [reflexivity|]).
  simpl in Hlen. lia.
Qed.

(** X19: a file given without directory part is never blacklisted, and
    nothing of the object is read for it: the pattern asks for a slash
    before [lib], so even a bare [libGL.so.1] or [libnvidia-tls.so.1] passes
    the filter. *)
Theorem blacklisted_bare_name (file : string) (obj : elf_File) :
  no_slash file = true -> blacklisted file obj = Ok false.
Proof.
  intros Hs. unfold blacklisted, Regexp.lib_FindStringSubmatch.
  now rewrite (split_last_slash_none file Hs).
Qed.

Lemma blacklisted_bare_name_witness :
  blacklisted "libnvidia-tls.so.1"
    {| dt_needed := Success []; dt_soname := Success []; sections := [] |} = Ok false.
Proof. apply blacklisted_bare_name. reflexivity. Defined.

(** X20: for a file [d/libnvidia-tls.so<ver>] the filter panics when the
    object has no [.note.ABI-tag] section, and when the section is read but
    holds fewer than 32 bytes; it returns no error in either case. *)
Theorem blacklisted_tls_panics (d ver : string) (obj : elf_File) :
  Strings.forallb_str Regexp.is_dot d = true ->
  Strings.forallb_str Regexp.is_digit_dot ver = true ->
  (Section obj ".note.ABI-tag" = None \/
   exists s, Section obj ".note.ABI-tag" = Some (Success s) /\ (length s < 32)%nat) ->
  blacklisted (d +:+ "/libnvidia-tls.so" +:+ ver) obj = Panic.
Proof.
  intros Hd Hver Hsec. unfold blacklisted.
  change (d +:+ "/libnvidia-tls.so" +:+ ver)
    with (d +:+ "/lib" +:+ "nvidia-tls" +:+ ".so" +:+ ver).
  rewrite (lib_FindStringSubmatch_intro d "nvidia-tls" ver Hd) by
    (discriminate || reflexivity || assumption).
  change (String.eqb "nvidia-tls" "GLESv1_CM" || String.eqb "nvidia-tls" "GLESv2"
          || String.eqb "nvidia-tls" "GL") with false.
  change (String.eqb "nvidia-tls" "nvidia-tls") with true.
  cbv iota. destruct Hsec as [->|(s & -> & Hlen)]; [reflexivity|].
  pose proof (quad_word_at_24_short s Hlen) as Hq. unfold quad_word_at in Hq.
  destruct (slice_from 24 s) as [t|]; [|reflexivity].
  change (LittleEndian_Uint64 t = None) in Hq. now rewrite Hq.
Qed.

Lemma blacklisted_tls_panics_witness :
  blacklisted "/usr/lib64/libnvidia-tls.so.390.12"
    {| dt_needed := Success ["libc.so.6"]; dt_soname := Success [];
       sections := [(".note.ABI-tag", Success [Byte.x04; Byte.x00; Byte.x00; Byte.x00])] |}
  = Panic.
Proof.
  apply (blacklisted_tls_panics "/usr/lib64" ".390.12");
    [reflexivity|reflexivity|].
  right. eexists. split; [reflexivity|]. simpl. lia.
Defined.

(** ** What a build reads, skips and leaves alone *)

(** X21: an error the ELF library reports at a file [Create] has reached
    ends the build with that error, after the rollback: an error of
    [blacklisted] is the error of the [DT_NEEDED] read or of the read of the
    ABI note, and a [DT_SONAME] read that fails after the clone is returned
    as well. *)
Theorem Create_reported_read_errors {S : Type} `{FileCloneStrategy S}
  (v : Volume) (s : S) (w : world) (d : volumeDir) (f : string) (wf : world)
  (obj : elf_File) (e : error) :
  reaches v s w d f wf ->
  OS.elf_Open f wf = Success obj ->
  (blacklisted f obj = Err e ->
   (DynString obj DT_NEEDED = Failure e \/
    Section obj ".note.ABI-tag" = Some (Failure e)) /\
   Create v s w = ((Remove v [] wf).1, Err e)) /\
  (forall w1,
     blacklisted f obj = Ok false ->
     Clone s f (Path.Join [volume_dir v d; Path.Base f]) wf = (w1, None) ->
     DynString obj DT_SONAME = Failure e ->
     Create v s w = ((Remove v [] w1).1, Err e)).
Proof.
  intros Hreach Hopen.
  destruct (Create_read_errors v s w d f wf obj e Hreach Hopen) as [H1 H2].
  split; [|exact H2].
  intros Hb. split; [now apply (blacklisted_Err f)|now apply H1].
Qed.

Lemma Create_reported_read_errors_witness :
  Create gl_volume mkLinkStrategy unreadable_gl_world
  = ((Remove gl_volume []
        (before_first_lib64 gl_volume mkLinkStrategy unreadable_gl_world)).1,
     Err (FormatError "bad string table")).
Proof.
  destruct (Create_reported_read_errors gl_volume mkLinkStrategy unreadable_gl_world
              (lib64_of gl_volume) "/usr/lib64/libGL.so.1"
              (before_first_lib64 gl_volume mkLinkStrategy unreadable_gl_world)
              {| dt_needed := Failure (FormatError "bad string table");
                 dt_soname := Success ["libGL.so.1"];
                 sections := [] |}
              (FormatError "bad string table"))
    as [Hfirst _].
  - apply (reaches_first_lib64 "/usr/lib64/libGL.so.1" unreadable_gl_world);
      vm_compute; reflexivity.
  - vm_compute. reflexivity.
  - apply Hfirst. reflexivity.
Defined.

Section SkipAndFrame.

Lemma keeps_all_refl m : keeps_all m m.
Proof. intros k n Hk. exact Hk. Qed.

Lemma keeps_all_trans m1 m2 m3 :
  keeps_all m1 m2 -> keeps_all m2 m3 -> keeps_all m1 m3.
Proof. intros H1 H2 k n Hk. auto. Qed.

Lemma keeps_all_insert m k n : m !! k = None -> keeps_all m (<[k := n]> m).
Proof.
  intros Hk k' n' Hk'. rewrite lookup_insert_ne; [exact Hk'|congruence].
Qed.

Lemma mkdir_all_keeps_all m r pre rest :
  keeps_all m (OS.mkdir_all m r pre rest).1.
Proof.
  revert m pre. induction rest as [|c rest IH]; intros m pre; simpl.
  - apply keeps_all_refl.
  - destruct (m !! (r, pre ++ [c])) as [[]|] eqn:Hc; try apply keeps_all_refl.
    + apply IH.
    + eapply keeps_all_trans; [|apply IH]. now apply keeps_all_insert.
Qed.

Lemma MkdirAll_keeps_all p w : keeps_all (fs w) (fs (OS.MkdirAll p w).1).
Proof.
  unfold OS.MkdirAll. destruct (String.eqb p EmptyString); [apply keeps_all_refl|].
  pose proof (mkdir_all_keeps_all (fs w) (OS.key_of p).1 [] (OS.key_of p).2) as Hk.
  destruct (OS.mkdir_all _ _ _ _) as [m [e|]]; exact Hk.
Qed.

Lemma Link_keeps_all src dst w : keeps_all (fs w) (fs (OS.Link src dst w).1).
Proof.
  pose proof (LinkStrategy_Clone_effect src dst w) as He. simpl in He.
  destruct (OS.Link src dst w) as [w' [e|]].
  - subst w'. apply keeps_all_refl.
  - destruct He as (k & n & _ & Hk & _ & _ & ->). simpl.
    now apply keeps_all_insert.
Qed.

Lemma symlink_unless_exists_keeps_all f l w :
  keeps_all (fs w) (fs (symlink_unless_exists f l w).1).
Proof.
  unfold symlink_unless_exists, OS.Symlink.
  destruct (String.eqb f EmptyString); simpl; [apply keeps_all_refl|].
  destruct (OS.fresh_key (fs w) l) as [[]|k] eqn:Hk; simpl;
    try apply keeps_all_refl.
  apply keeps_all_insert. now apply fresh_key_None in Hk.
Qed.

Lemma for_each_keeps_all {A} (body : A -> world -> world * outcome unit) l w :
  (forall x w0, keeps_all (fs w0) (fs (body x w0).1)) ->
  keeps_all (fs w) (fs (for_each body l w).1).
Proof.
  intros Hbody. revert w. induction l as [|x l IH]; intros w; simpl.
  - apply keeps_all_refl.
  - pose proof (Hbody x w) as Hx.
    destruct (body x w) as [w1 [[]| |]]; simpl in Hx; try exact Hx.
    eapply keeps_all_trans; [exact Hx|apply IH].
Qed.

Lemma create_file_Link_keeps_all v d dir f w :
  keeps_all (fs w) (fs (create_file v mkLinkStrategy d dir f w).1).
Proof.
  unfold create_file.
  destruct (OS.elf_Open f w) as [obj|e]; [|apply keeps_all_refl].
  destruct (blacklisted f obj) as [[]| |]; try apply keeps_all_refl.
  pose proof (Link_keeps_all f (Path.Join [dir; Path.Base f]) w) as Hc.
  change (Clone mkLinkStrategy f (Path.Join [dir; Path.Base f]) w)
    with (OS.Link f (Path.Join [dir; Path.Base f]) w).
  destruct (OS.Link f _ w) as [w1 [e|]]; simpl in Hc; [exact Hc|].
  destruct (DynString obj DT_SONAME) as [[|soname0 rest]|e]; try exact Hc.
  eapply keeps_all_trans; [exact Hc|].
  pose proof (symlink_unless_exists_keeps_all
                (Path.Join [Mountpoint (info v); vd_name d; Path.Base f])
                (Path.Join [dir; soname0]) w1) as H1.
  destruct (symlink_unless_exists _ _ w1) as [w2 [[]| |]]; simpl in H1; try exact H1.
  destruct (Strings.HasPrefix soname0 "libGLX_nvidia"); [|exact H1].
  eapply keeps_all_trans; [exact H1|apply symlink_unless_exists_keeps_all].
Qed.

Lemma create_dirs_Link_keep_all v ds w :
  keeps_all (fs w) (fs (for_each (create_dir v mkLinkStrategy) ds w).1).
Proof.
  apply for_each_keeps_all. intros d w0. unfold create_dir.
  pose proof (MkdirAll_keeps_all (Path.Join [VPath v; Version v; vd_name d]) w0) as Hm.
  destruct (OS.MkdirAll _ w0) as [w1 [e|]]; simpl in Hm; [exact Hm|].
  eapply keeps_all_trans; [exact Hm|].
  apply for_each_keeps_all. intros f w2. apply create_file_Link_keeps_all.
Qed.

Lemma for_each_skipped {A} (body : A -> world -> world * outcome unit) l w :
  (forall x, In x l -> body x w = (w, Ok tt)) ->
  for_each body l w = (w, Ok tt).
Proof.
  induction l as [|x l IH]; intros Hbody; simpl; [reflexivity|].
  rewrite (Hbody x (or_introl eq_refl)). apply IH.
  intros y Hy. apply Hbody. now right.
Qed.

End SkipAndFrame.

(** X22: with the hard-link strategy a build only adds to the file system
    and removes only its own version tree: after a [Create] that succeeds or
    panics every entry that was there is still there, unchanged, and after a
    [Create] that returns an error this holds for every entry outside
    [Path/Version]. *)
Theorem Create_Link_frame (v : Volume) (w : world) :
  match (Create v mkLinkStrategy w).2 with
  | Err _ =>
      forall k n, OS.under (tree_key v) k = false ->
                  fs w !! k = Some n ->
                  fs (Create v mkLinkStrategy w).1 !! k = Some n
  | _ => keeps_all (fs w) (fs (Create v mkLinkStrategy w).1)
  end.
Proof.
  unfold Create.
  pose proof (MkdirAll_keeps_all (VPath v) w) as Hm.
  destruct (OS.MkdirAll (VPath v) w) as [w1 [e|]] eqn:Hmk; simpl in Hm.
  - simpl. intros k n _ Hk. now apply Hm.
  - pose proof (create_dirs_Link_keep_all v (dirs v) w1) as Hloop.
    destruct (for_each (create_dir v mkLinkStrategy) (dirs v) w1) as [w2 [[]|e|]];
      simpl in *; try (eapply keeps_all_trans; eassumption).
    intros k n Hu Hk. rewrite Remove_other by exact Hu.
    apply Hloop, Hm, Hk.
Qed.

(** X23: blacklisted files are neither cloned nor linked: when every file
    of a descriptor opens as an ELF object that the filter rejects, the
    build of that descriptor makes its directory and nothing else, and
    issues no symlink call. *)
Theorem create_dir_all_blacklisted {S : Type} `{FileCloneStrategy S} (v : Volume)
  (s : S) (d : volumeDir) (w w1 : world) :
  OS.MkdirAll (volume_dir v d) w = (w1, None) ->
  (forall f, In f (vd_files d) ->
     exists obj, OS.elf_Open f w1 = Success obj /\ blacklisted f obj = Ok true) ->
  create_dir v s d w = (w1, Ok tt) /\
  symlink_calls w1 = symlink_calls w.
Proof.
  intros Hm Hfiles. split.
  - unfold create_dir. fold (volume_dir v d). rewrite Hm.
    apply for_each_skipped. intros f Hf.
    destruct (Hfiles f Hf) as (obj & Hopen & Hb).
    unfold create_file. now rewrite Hopen, Hb.
  - pose proof (MkdirAll_calls (volume_dir v d) w) as Hc. now rewrite Hm in Hc.
Qed.

Lemma create_dir_all_blacklisted_witness :
  create_dir gl_volume mkLinkStrategy (lib64_of gl_volume) foreign_gl_world
  = ((OS.MkdirAll (volume_dir gl_volume (lib64_of gl_volume)) foreign_gl_world).1,
     Ok tt) /\
  symlink_calls
    (OS.MkdirAll (volume_dir gl_volume (lib64_of gl_volume)) foreign_gl_world).1
  = symlink_calls foreign_gl_world.
Proof.
  apply (create_dir_all_blacklisted gl_volume mkLinkStrategy (lib64_of gl_volume)
           foreign_gl_world).
  - apply pair_snd_eq. vm_compute. reflexivity.
  - intros f [<-|[]]. eexists. split; vm_compute; reflexivity.
Defined.

(** ** What a successful build leaves *)

Section BuiltTree.

Lemma append_assoc (a b c : string) : (a +:+ b) +:+ c = a +:+ (b +:+ c).
Proof.
  induction a as [|x a IH]; [reflexivity|].
  change ((String x a +:+ b) +:+ c) with (String x ((a +:+ b) +:+ c)).
  now rewrite IH.
Qed.

(** The directory of a descriptor with a plain name lies directly below
    the version tree. *)
Lemma volume_dir_key v d :
  VPath v <> EmptyString ->
  plain_element (vd_name d) = true ->
  OS.key_of (volume_dir v d) = ((tree_key v).1, (tree_key v).2 ++ [vd_name d]).
Proof.
  intros Hp Hd. unfold volume_dir, tree_key.
  rewrite Join_pair by exact Hp.
  assert (Hj : Path.Join [VPath v; Version v; vd_name d]
               = Path.Clean ((VPath v +:+ String Path.slash (Version v))
                             +:+ String Path.slash (vd_name d))).
  { unfold Path.Join. simpl.
    destruct (String.eqb_spec (VPath v) EmptyString); [congruence|].
    f_equal. now rewrite append_assoc. }
  rewrite Hj, !key_of_Clean. unfold OS.key_of. simpl.
  assert (Hx : VPath v +:+ String Path.slash (Version v) <> EmptyString).
  { destruct (VPath v); [congruence|discriminate]. }
  rewrite (IsAbs_app _ _ Hx). now rewrite clean_comps_child.
Qed.

Context {S : Type} `{CloneLaws S}.

Lemma create_dir_made v (s : S) d w w' :
  create_dir v s d w = (w', Ok tt) ->
  forall q, q `prefix_of` (OS.key_of (volume_dir v d)).2 -> q <> [] ->
            fs w' !! ((OS.key_of (volume_dir v d)).1, q) = Some Dir.
Proof.
  unfold create_dir. fold (volume_dir v d).
  destruct (OS.MkdirAll (volume_dir v d) w) as [w1 [e|]] eqn:Hm; [discriminate|].
  intros Hloop q Hq Hne.
  pose proof (for_each_keeps (create_file v s d (volume_dir v d)) (vd_files d) w1
                (fun f w0 => create_file_keeps v s d (volume_dir v d) f w0)) as Hk.
  rewrite Hloop in Hk. apply Hk.
  now apply (MkdirAll_made _ _ _ q Hm).
Qed.

Lemma create_dirs_made v (s : S) ds w w' d :
  for_each (create_dir v s) ds w = (w', Ok tt) ->
  In d ds ->
  forall q, q `prefix_of` (OS.key_of (volume_dir v d)).2 -> q <> [] ->
            fs w' !! ((OS.key_of (volume_dir v d)).1, q) = Some Dir.
Proof.
  revert w. induction ds as [|d0 ds IH]; intros w; simpl; [intros _ []|].
  destruct (create_dir v s d0 w) as [w1 [[]|e|]] eqn:Hd; try discriminate.
  intros Hrest [->|Hin] q Hq Hne.
  - pose proof (create_dirs_keep v s ds w1) as Hk. rewrite Hrest in Hk.
    apply Hk. now apply (create_dir_made v s d w w1 Hd).
  - now apply (IH w1 Hrest Hin).
Qed.

End BuiltTree.

(** X24: after a [Create] that succeeds, the directory of every
    descriptor of the volume exists, as a directory, together with all its
    ancestors. *)
Theorem Create_makes_directories {S : Type} `{CloneLaws S} (v : Volume) (s : S)
  (w w' : world) (d : volumeDir) :
  Create v s w = (w', Ok tt) ->
  In d (dirs v) ->
  OS.entry (fs w') (OS.key_of (volume_dir v d)) = Some Dir /\
  OS.Stat (volume_dir v d) w' = Success Dir.
Proof.
  intros HC Hd. destruct (Create_Ok_inv v s w w' HC) as [_ Hloop].
  pose proof (create_dirs_made v s (dirs v) _ w' d Hloop Hd) as Hmade.
  assert (He : OS.entry (fs w') (OS.key_of (volume_dir v d)) = Some Dir).
  { unfold OS.entry. destruct (OS.key_of (volume_dir v d)) as [r cs]. simpl in *.
    destruct cs as [|c cs]; [reflexivity|].
    apply Hmade; [reflexivity|discriminate]. }
  split; [exact He|]. apply Stat_dir; [| |exact He].
  - assert (Hex : exists w0 w1, OS.MkdirAll (volume_dir v d) w0 = (w1, None)).
    { clear -Hloop Hd. revert Hloop. generalize (OS.MkdirAll (VPath v) w).1.
      induction (dirs v) as [|d0 ds IH]; intros w0; simpl; [destruct Hd|].
      destruct (create_dir v s d0 w0) as [w1 [[]|e|]] eqn:Hc; try discriminate.
      intros Hrest. destruct Hd as [->|Hin]; [|now apply (IH Hin w1)].
      unfold create_dir in Hc. fold (volume_dir v d) in Hc.
      destruct (OS.MkdirAll (volume_dir v d) w0) as [w2 [e|]] eqn:Hm;
        [discriminate|eauto]. }
    destruct Hex as (w0 & w1 & Hm). intros Hp. rewrite Hp in Hm. discriminate.
  - apply first_bad_None. intros q Hq Hne _. simpl. now apply Hmade.
Qed.

Lemma Create_makes_directories_witness :
  OS.entry (fs (Create cuda_volume mkLinkStrategy host_world).1)
    (OS.key_of (volume_dir cuda_volume {| vd_name := "bin"; vd_files := [] |}))
  = Some Dir /\
  OS.Stat (volume_dir cuda_volume {| vd_name := "bin"; vd_files := [] |})
    (Create cuda_volume mkLinkStrategy host_world).1 = Success Dir.
Proof.
  apply (Create_makes_directories cuda_volume mkLinkStrategy host_world).
  - apply pair_snd_eq. vm_compute. reflexivity.
  - left. reflexivity.
Defined.

(** X25: a [Create] that succeeds on a volume with at least one
    descriptor, the first of them with a plain name, leaves the version tree
    in place: [Exists] returns [(true, nil)], whatever the version is. *)
Theorem Create_success_Exists {S : Type} `{CloneLaws S} (v : Volume) (s : S)
  (w w' : world) (d : volumeDir) (ds : list volumeDir) :
  dirs v = d :: ds ->
  plain_element (vd_name d) = true ->
  Create v s w = (w', Ok tt) ->
  Exists v w' = (true, None).
Proof.
  intros Hdirs Hplain HC.
  destruct (Create_Ok_inv v s w w' HC) as [Hm Hloop].
  pose proof (MkdirAll_nonempty _ w Hm) as Hp.
  assert (Hin : In d (dirs v)) by (rewrite Hdirs; now left).
  pose proof (create_dirs_made v s (dirs v) _ w' d Hloop Hin) as Hmade.
  rewrite (volume_dir_key v d Hp Hplain) in Hmade. cbn [fst snd] in Hmade.
  unfold Exists. rewrite Stat_dir; [reflexivity| | |].
  - now apply Join_pair_nonempty.
  - fold (tree_key v). apply first_bad_None. intros q Hq Hne _. cbn [app].
    apply Hmade; [|exact Hne]. now apply prefix_app_r.
  - fold (tree_key v). unfold OS.entry.
    destruct (tree_key v) as [r cs]. cbn [fst snd] in *.
    destruct cs as [|c cs]; [reflexivity|].
    apply Hmade; [|discriminate]. now apply prefix_app_r.
Qed.

Lemma Create_success_Exists_witness :
  Exists cuda_volume (Create cuda_volume mkLinkStrategy host_world).1 = (true, None).
Proof.
  apply (Create_success_Exists cuda_volume mkLinkStrategy host_world _
           {| vd_name := "bin"; vd_files := [] |}
           [ {| vd_name := "lib"; vd_files := [] |};
             {| vd_name := "lib64"; vd_files := ["/usr/lib64/libcuda.so.390.12"] |} ]).
  - reflexivity.
  - reflexivity.
  - apply pair_snd_eq. vm_compute. reflexivity.
Defined.

Lemma create_file_Link_clone v d dir f wf wf' obj :
  create_file v mkLinkStrategy d dir f wf = (wf', Ok tt) ->
  OS.elf_Open f wf = Success obj ->
  blacklisted f obj = Ok false ->
  exists n,
    OS.entry (fs wf) (OS.key_of f) = Some n /\ n <> Dir /\
    fs wf' !! OS.key_of (Path.Join [dir; Path.Base f]) = Some n.
Proof.
  unfold create_file. intros Hbody Hopen Hb. rewrite Hopen, Hb in Hbody.
  change (Clone mkLinkStrategy f (Path.Join [dir; Path.Base f]) wf)
    with (OS.Link f (Path.Join [dir; Path.Base f]) wf) in Hbody.
  pose proof (LinkStrategy_Clone_effect f (Path.Join [dir; Path.Base f]) wf) as He.
  simpl in He.
  destruct (OS.Link f (Path.Join [dir; Path.Base f]) wf) as [wl [e|]];
    [discriminate|].
  destruct He as (k & n & Hk & _ & Hn & Hdir & ->).
  apply fresh_key_inv in Hk as (_ & -> & _).
  exists n. split; [exact Hn|]. split; [exact Hdir|].
  set (wl := with_fs wf (<[OS.key_of (Path.Join [dir; Path.Base f]) := n]> (fs wf))) in *.
  assert (Hl : fs wl !! OS.key_of (Path.Join [dir; Path.Base f]) = Some n)
    by apply lookup_insert_eq.
  destruct (DynString obj DT_SONAME) as [[|soname0 rest]|e]; try discriminate.
  - now injection Hbody as <-.
  - pose proof (symlink_unless_exists_keeps_all
                  (Path.Join [Mountpoint (info v); vd_name d; Path.Base f])
                  (Path.Join [dir; soname0]) wl) as H1.
    destruct (symlink_unless_exists _ _ wl) as [w2 [[]| |]]; try discriminate.
    simpl in H1.
    destruct (Strings.HasPrefix soname0 "libGLX_nvidia").
    + pose proof (symlink_unless_exists_keeps_all
                    (Path.Join [Mountpoint (info v); vd_name d; Path.Base f])
                    (Strings.Replace1 "GLX_nvidia" "GLX_indirect"
                       (Path.Join [dir; soname0])) w2) as H2.
      rewrite Hbody in H2. simpl in H2. auto.
    + injection Hbody as <-. auto.
Qed.

(** X26: with the hard-link strategy, every file a successful build
    reached and did not blacklist is in the tree afterwards: the entry named
    after the base name of the file, in the directory of its descriptor, is
    the node the file had on the host when it was cloned. *)
Theorem Create_Link_clones (v : Volume) (w w' : world) (d : volumeDir)
  (f : string) (wf : world) (obj : elf_File) :
  Create v mkLinkStrategy w = (w', Ok tt) ->
  reaches v mkLinkStrategy w d f wf ->
  OS.elf_Open f wf = Success obj ->
  blacklisted f obj = Ok false ->
  exists n,
    OS.entry (fs wf) (OS.key_of f) = Some n /\ n <> Dir /\
    fs w' !! OS.key_of (Path.Join [volume_dir v d; Path.Base f]) = Some n.
Proof.
  intros HC (w1 & ds1 & ds2 & wa & wb & fs1 & fs2 & Hm & Hd & Hds & Hmd & Hf & Hfs)
    Hopen Hb.
  destruct (Create_Ok_inv v mkLinkStrategy w w' HC) as [_ Hloop].
  rewrite Hm, Hd in Hloop. simpl fst in Hloop.
  rewrite (for_each_app_Ok _ ds1 (d :: ds2) w1 wa Hds) in Hloop.
  simpl in Hloop.
  destruct (create_dir v mkLinkStrategy d wa) as [w2 [[]|e|]] eqn:Hdir;
    try discriminate.
  unfold create_dir in Hdir. fold (volume_dir v d) in Hdir.
  rewrite Hmd, Hf in Hdir.
  rewrite (for_each_app_Ok _ fs1 (f :: fs2) wb wf Hfs) in Hdir.
  simpl in Hdir.
  destruct (create_file v mkLinkStrategy d (volume_dir v d) f wf)
    as [wf' [[]|e|]] eqn:Hfile; try discriminate.
  destruct (create_file_Link_clone v d _ f wf wf' obj Hfile Hopen Hb)
    as (n & Hn & Hnd & Hin).
  exists n. split; [exact Hn|]. split; [exact Hnd|].
  pose proof (for_each_keeps_all (create_file v mkLinkStrategy d (volume_dir v d))
                fs2 wf' (fun x w0 => create_file_Link_keeps_all v d _ x w0)) as Hk1.
  rewrite Hdir in Hk1.
  pose proof (create_dirs_Link_keep_all v ds2 w2) as Hk2.
  rewrite Hloop in Hk2. auto.
Qed.

Lemma Create_Link_clones_witness :
  exists n,
    OS.entry (fs (before_first_lib64 cuda_volume mkLinkStrategy host_world))
      (OS.key_of "/usr/lib64/libcuda.so.390.12") = Some n /\ n <> Dir /\
    fs (Create cuda_volume mkLinkStrategy host_world).1
      !! OS.key_of (Path.Join [volume_dir cuda_volume (lib64_of cuda_volume);
                               Path.Base "/usr/lib64/libcuda.so.390.12"]) = Some n.
Proof.
  apply (Create_Link_clones cuda_volume host_world _ (lib64_of cuda_volume)
           "/usr/lib64/libcuda.so.390.12" _
           {| dt_needed := Success ["libc.so.6"];
              dt_soname := Success ["libcuda.so.1"];
              sections := [] |}).
  - apply pair_snd_eq. vm_compute. reflexivity.
  - apply (reaches_first_lib64 "/usr/lib64/libcuda.so.390.12" host_world);
      vm_compute; reflexivity.
  - vm_compute. reflexivity.
  - vm_compute. reflexivity.
Defined.
